(** * Manual journals service and payment-receive form helpers

    A shallow embedding of
      - [server/src/services/ManualJournals/ManualJournalsService.ts]
      - [packages/webapp/.../PaymentReceiveForm/utils.tsx] ([amountPaymentEntries])
    together with the properties the specification states about them.

    Conventions of the embedding.
      - A JavaScript [number] holding an identifier, an index or a count is
        a [Z].
      - Money amounts are JavaScript numbers too, that is IEEE 754
        doubles. The modules [PaymentReceive] and [ManualJournals] hold
        them as [Z]: whole amounts, on which (below 2^53) the sums and
        differences of the code are exact. The two functions whose result depends on how
        doubles round, the balance rule of the service and the
        distribution of a payment over invoices, are embedded on binary64
        floats as well, in [ManualJournalsFloat] and [PaymentReceiveFloat].
      - A value that may be [undefined] is an [option]; JavaScript
        truthiness is written out ([truthyNum], [truthyStr], ...).
      - [async] methods are computations in the monad [Async]: they thread
        the tenant databases and a trace of every query, write and
        dispatched event, and either resolve or reject with a
        [ServiceError]. *)

From Stdlib Require Import ZArith List String Bool Lia.
From Stdlib Require Floats.
From stdpp Require Import base option list gmap strings sorting.
Import ListNotations.
Local Open Scope Z_scope.

(** ** JavaScript values and the lodash helpers the sources import *)

Module Js.

(** [!!n] for a number. *)
Definition truthyNum (n : Z) : bool := negb (n =? 0).

(** [!!s] for a string. *)
Definition truthyStr (s : string) : bool := negb (String.eqb s "").

(** [!!v] for a possibly-undefined number or string. *)
Definition truthyOptNum (o : option Z) : bool :=
  match o with Some n => truthyNum n | None => false end.

Definition truthyOptStr (o : option string) : bool :=
  match o with Some s => truthyStr s | None => false end.

(** [v > 0] where [v] may be undefined ([undefined > 0] is [false]). *)
Definition gtZero (o : option Z) : bool :=
  match o with Some v => 0 <? v | None => false end.

(** [a || b] on possibly-undefined strings. *)
Definition orElseStr (a b : option string) : option string :=
  if truthyOptStr a then a else b.

(** [a === b] on possibly-undefined strings. *)
Definition strictEqOptStr (a b : option string) : bool :=
  match a, b with
  | Some x, Some y => String.eqb x y
  | None, None => true
  | _, _ => false
  end.

(** [array.includes(x)] on numbers. *)
Definition includes (x : Z) (array : list Z) : bool :=
  existsb (Z.eqb x) array.

End Js.

Module Lodash.

(** [difference(array, values)]: the elements of [array] that are not in
    [values], in the order of [array]. *)
Definition difference (array values : list Z) : list Z :=
  List.filter (fun x => negb (Js.includes x values)) array.

(** [baseSum]: undefined items are skipped; the result is undefined when
    every item is. *)
Definition baseSum {A : Type} (array : list A) (iteratee : A -> option Z)
  : option Z :=
  fold_left
    (fun result item =>
       match iteratee item with
       | None => result
       | Some current =>
           match result with
           | None => Some current
           | Some r => Some (r + current)
           end
       end)
    array None.

(** [sumBy(array, key)]. *)
Definition sumBy {A : Type} (array : list A) (iteratee : A -> option Z)
  : option Z :=
  match array with
  | [] => Some 0
  | _ => baseSum array iteratee
  end.

(** [v || 0] for the result of [sumBy]. *)
Definition orZero (v : option Z) : Z :=
  match v with
  | Some n => if Js.truthyNum n then n else 0
  | None => 0
  end.

End Lodash.

(** ** Payment-receive form: distributing an amount over due invoices

    The amounts are whole numbers here; [PaymentReceiveFloat] has
    [amountPaymentEntries] on doubles. *)

Module PaymentReceive.

(** A receivable entry of the form, with the fields
    [transformInvoicesNewPageEntries] builds; [payment_amount] is ['']
    (here [None]) until an amount was assigned. *)
Record Entry : Type := mkEntry {
  index : Z;
  invoice_id : Z;
  entry_type : string;
  due_amount : Z;
  date : string;
  amount : Z;
  currency_code : string;
  payment_amount : option Z;
  invoice_no : string;
  branch_id : option Z;
  total_payment_amount : Z;
}.

(** [{ ...item, payment_amount: diff }]. *)
Definition withPaymentAmount (item : Entry) (diff : Z) : Entry :=
  {| index := index item;
     invoice_id := invoice_id item;
     entry_type := entry_type item;
     due_amount := due_amount item;
     date := date item;
     amount := amount item;
     currency_code := currency_code item;
     payment_amount := Some diff;
     invoice_no := invoice_no item;
     branch_id := branch_id item;
     total_payment_amount := total_payment_amount item |}.

(** The callback of [entries.map] with the captured [total] made an
    explicit accumulator:
      const diff = Math.min(item.due_amount, total);
      total -= Math.max(diff, 0); *)
Fixpoint amountPaymentLoop (total : Z) (entries : list Entry) : list Entry :=
  match entries with
  | [] => []
  | item :: rest =>
      let diff := Z.min (due_amount item) total in
      let total' := total - Z.max diff 0 in
      withPaymentAmount item diff :: amountPaymentLoop total' rest
  end.

Definition amountPaymentEntries (amount : Z) (entries : list Entry)
  : list Entry :=
  amountPaymentLoop amount entries.

Definition fullAmountPaymentEntries (entries : list Entry) : list Entry :=
  List.map (fun item => withPaymentAmount item (due_amount item)) entries.

Definition clearAllPaymentEntries (entries : list Entry) : list Entry :=
  List.map (fun item => withPaymentAmount item 0) entries.

(** An invoice as [transformInvoicesNewPageEntries] reads it. *)
Record Invoice : Type := mkInvoice {
  inv_id : Z;
  inv_due_amount : Z;
  inv_invoice_date : string;
  inv_balance : Z;
  inv_currency_code : string;
  inv_invoice_no : string;
  inv_branch_id : option Z;
  inv_payment_amount : Z;
}.

(** The callback of [invoices.map((invoice, index) => ...)], with the
    position [index] of the invoice in the array. *)
Definition invoiceToEntry (index : Z) (invoice : Invoice) : Entry :=
  {| index := index + 1;
     invoice_id := inv_id invoice;
     entry_type := "invoice";
     due_amount := inv_due_amount invoice;
     date := inv_invoice_date invoice;
     amount := inv_balance invoice;
     currency_code := inv_currency_code invoice;
     payment_amount := None;
     invoice_no := inv_invoice_no invoice;
     branch_id := inv_branch_id invoice;
     total_payment_amount := inv_payment_amount invoice |}.

Fixpoint invoicesToEntriesFrom (index : Z) (invoices : list Invoice)
  : list Entry :=
  match invoices with
  | [] => []
  | invoice :: rest =>
      invoiceToEntry index invoice :: invoicesToEntriesFrom (index + 1) rest
  end.

Definition transformInvoicesNewPageEntries (invoices : list Invoice)
  : list Entry :=
  invoicesToEntriesFrom 0 invoices.

(** [receivableEntries || []] for a possibly-undefined array. *)
Definition transformEntriesToEditForm
  (receivableEntries : option (list Invoice)) : list Entry :=
  transformInvoicesNewPageEntries (default [] receivableEntries).

End PaymentReceive.

(** ** The manual journals service *)

Module ManualJournals.

(** *** Data model *)

(** A [Date] object or MySQL date-time value; always truthy. *)
Inductive DateTime : Type := MkDateTime (epochSeconds : Z).

(** What [moment(x)] parsed from the DTO's date: a calendar day and a
    time of day. *)
Record Moment : Type := mkMoment {
  m_year : Z; m_month : Z; m_day : Z; m_secondOfDay : Z;
}.

(** [moment(x).format('YYYY-MM-DD')]: the calendar day alone. *)
Definition formatYMD (m : Moment) : Z * Z * Z :=
  (m_year m, m_month m, m_day m).

(** [IManualJournalEntry], one line of a journal DTO. The amounts of the
    service are whole numbers here; [ManualJournalsFloat] has the balance
    rule on doubles. *)
Record IManualJournalEntry : Type := mkEntry {
  e_index : Z;
  e_accountId : Z;
  e_credit : option Z;
  e_debit : option Z;
  e_contactId : option Z;
  e_contactType : option string;
}.

(** [IManualJournalDTO]. *)
Record IManualJournalDTO : Type := mkDTO {
  dto_journalNumber : option string;
  dto_date : Moment;
  dto_currencyCode : string;
  dto_publish : bool;
  dto_entries : list IManualJournalEntry;
}.

(** A row of the [manual_journals] table (the key is kept by the table). *)
Record ManualJournalRow : Type := mkRow {
  row_journalNumber : option string;
  row_date : Z * Z * Z;
  row_currencyCode : string;
  row_amount : Z;
  row_publishedAt : option DateTime;
  row_userId : option Z;
}.

(** A row of the [manual_journals_entries] table. *)
Record ManualJournalEntryRow : Type := mkEntryRow {
  er_manualJournalId : Z;
  er_entry : IManualJournalEntry;
}.

(** [IManualJournal]: a journal fetched with its [entries] graph. *)
Record IManualJournal : Type := mkJournal {
  mj_id : Z;
  mj_row : ManualJournalRow;
  mj_entries : list IManualJournalEntry;
}.

Definition mj_publishedAt (j : IManualJournal) : option DateTime :=
  row_publishedAt (mj_row j).
Definition mj_amount (j : IManualJournal) : Z := row_amount (mj_row j).
Definition mj_journalNumber (j : IManualJournal) : option string :=
  row_journalNumber (mj_row j).

(** [!!journal.publishedAt]: the column is [null] or a date-time. *)
Definition truthyDateTime (o : option DateTime) : bool :=
  match o with Some _ => true | None => false end.

Record Account : Type := mkAccount { acc_id : Z; acc_slug : string }.

Record Contact : Type := mkContact {
  con_id : Z;
  con_contactService : string;
}.

(** The error types of [./constants] the service throws, with the payload
    the service attaches; [TypeError] is the runtime's own error for a
    property read on [undefined], [OrmError] the query layer's own (an
    update of a missing row, an undefined binding). *)
Inductive ServiceError : Type :=
| NOT_FOUND
| CREDIT_DEBIT_NOT_EQUAL_ZERO
| CREDIT_DEBIT_NOT_EQUAL
| ACCCOUNTS_IDS_NOT_FOUND
| JOURNAL_NUMBER_EXISTS
| ENTRIES_SHOULD_ASSIGN_WITH_CONTACT
    (accountSlug : string) (contactType : string) (indexes : list Z)
| CONTACTS_NOT_FOUND (contactsIds : list (option Contact))
| MANUAL_JOURNAL_NO_REQUIRED
| MANUAL_JOURNAL_ALREADY_PUBLISHED
| TypeError
| OrmError.

(** The tables of one tenant, [this.tenancy.models(tenantId)], with the
    auto-increment counter of the journals' primary key. *)
Record Tables : Type := mkTables {
  manualJournals : gmap Z ManualJournalRow;
  manualJournalEntries : list ManualJournalEntryRow;
  accounts : list Account;
  contacts : list Contact;
  nextJournalId : Z;
  (** [autoIncrementOrdersService.getNextTransactionNumber]. *)
  nextTransactionNumber : option string;
}.

Inductive Event : Type :=
| onCreated (manualJournalId : Z)
| onEdited (manualJournalId : Z)
| onDeleted (manualJournalId : Z)
| onDeletedBulk (manualJournalsIds : list Z)
| onPublished (manualJournalId : Z)
| onPublishedBulk (manualJournalsIds : list Z).

(** The object handed to [upsertGraph]. An absent [id] inserts; an absent
    field is left as stored. *)
Record ManualJournalGraph : Type := mkGraph {
  g_id : option Z;
  g_journalNumber : option string;
  g_date : Z * Z * Z;
  g_currencyCode : string;
  g_publishedAt : option DateTime;
  g_amount : Z;
  g_userId : option Z;
  g_entries : list IManualJournalEntry;
}.

(** Every call that leaves the service, in the order it is issued. *)
Inductive Op : Type :=
| QNextTransactionNumber
| QJournalById (id : Z)
| QJournalsWhereIn (ids : list Z)
| QJournalsByNumber (journalNumber : string) (notId : option Z)
| QAccountsWhereIn (ids : list Z)
| QAccountBySlug (slug : string)
| QContactsWhereIn (ids : list Z)
| WUpsertGraph (graph : ManualJournalGraph)
| WDeleteEntries (manualJournalsIds : list Z)
| WDeleteJournals (ids : list Z)
| WPatchPublishedAt (ids : list Z) (publishedAt : DateTime)
| EDispatch (event : Event).

Definition isWrite (op : Op) : bool :=
  match op with
  | WUpsertGraph _ | WDeleteEntries _ | WDeleteJournals _
  | WPatchPublishedAt _ _ => true
  | _ => false
  end.

(** The world a request runs in: the tenants' databases, the clock
    [moment()] reads, which of two jointly awaited promises settles first,
    and the trace of calls so far (tenant, call). *)
Record World : Type := mkWorld {
  tenancy : Z -> Tables;
  now : DateTime;
  firstSettlesFirst : bool;
  trace : list (Z * Op);
}.

(** *** Asynchronous computations

    An [async] method resolves with a value or rejects with an error; the
    world it leaves behind is kept either way (nothing is rolled back). *)

Inductive Outcome (A : Type) : Type :=
| Resolved (a : A)
| Rejected (e : ServiceError).
Arguments Resolved {A} a.
Arguments Rejected {A} e.

Definition Async (A : Type) : Type := World -> Outcome A * World.

#[export] Instance async_ret : MRet Async :=
  fun A a w => (Resolved a, w).

#[export] Instance async_bind : MBind Async :=
  fun A B k m w =>
    match m w with
    | (Resolved a, w') => k a w'
    | (Rejected e, w') => (Rejected e, w')
    end.

(** [throw new ServiceError(e)]. *)
Definition throw {A : Type} (e : ServiceError) : Async A :=
  fun w => (Rejected e, w).

(** A synchronous validation used inside an [async] method. *)
Definition liftSync {A : Type} (r : Outcome A) : Async A :=
  fun w => (r, w).

(** The world after the calls [ops] were issued. *)
Definition addTrace (w : World) (ops : list (Z * Op)) : World :=
  {| tenancy := tenancy w;
     now := now w;
     firstSettlesFirst := firstSettlesFirst w;
     trace := trace w ++ ops |}.

(** The world after the tables of [tenantId] were replaced by [t]. *)
Definition setTables (w : World) (tenantId : Z) (t : Tables) : World :=
  {| tenancy := fun i => if i =? tenantId then t else tenancy w i;
     now := now w;
     firstSettlesFirst := firstSettlesFirst w;
     trace := trace w |}.

(** Record on the trace that [op] was issued for [tenantId]. *)
Definition issue (tenantId : Z) (op : Op) : Async unit :=
  fun w => (Resolved tt, addTrace w [(tenantId, op)]).

(** [this.tenancy.models(tenantId)]. *)
Definition models (tenantId : Z) : Async Tables :=
  fun w => (Resolved (tenancy w tenantId), w).

Definition storeModels (tenantId : Z) (t : Tables) : Async unit :=
  fun w => (Resolved tt, setTables w tenantId t).

(** [moment().toMySqlDateTime()]. *)
Definition momentNow : Async DateTime := fun w => (Resolved (now w), w).

(** [this.eventDispatcher.dispatch(event, payload)]. *)
Definition dispatch (tenantId : Z) (event : Event) : Async unit :=
  issue tenantId (EDispatch event).

(** [Promise.all([p1, p2])] for two validations: both are started; the
    result rejects with the rejection that settles first. *)
Definition promiseAll2 (p1 p2 : Async unit) : Async unit :=
  fun w =>
    let '(r1, w1) := p1 w in
    let '(r2, w2) := p2 w1 in
    match r1, r2 with
    | Resolved _, Resolved _ => (Resolved tt, w2)
    | Rejected e1, Resolved _ => (Rejected e1, w2)
    | Resolved _, Rejected e2 => (Rejected e2, w2)
    | Rejected e1, Rejected e2 =>
        (Rejected (if firstSettlesFirst w then e1 else e2), w2)
    end.

(** *** The query layer (the ORM calls the service makes) *)

Definition entriesOf (t : Tables) (id : Z) : list IManualJournalEntry :=
  List.map er_entry
    (List.filter (fun r => er_manualJournalId r =? id)
       (manualJournalEntries t)).

(** [.withGraphFetched('entries')]. *)
Definition withGraphFetched (t : Tables) (kv : Z * ManualJournalRow)
  : IManualJournal :=
  {| mj_id := kv.1; mj_row := kv.2; mj_entries := entriesOf t kv.1 |}.

(** [ManualJournal.query().findById(id).withGraphFetched('entries')]. *)
Definition findJournalById (tenantId id : Z)
  : Async (option IManualJournal) :=
  issue tenantId (QJournalById id);;
  t ← models tenantId;
  mret (match manualJournals t !! id with
        | Some row => Some (withGraphFetched t (id, row))
        | None => None
        end).

(** The rows of a table in the order a query without [orderBy] returns
    them: by ascending primary key. *)
Definition byId {A : Type} (x y : Z * A) : Prop := x.1 ≤ y.1.

#[global] Instance byId_dec {A : Type} : RelDecision (@byId A) :=
  fun x y => decide (x.1 ≤ y.1).

Definition rowsById {A : Type} (m : gmap Z A) : list (Z * A) :=
  merge_sort byId (map_to_list m).

(** [ManualJournal.query().whereIn('id', ids).withGraphFetched('entries')]. *)
Definition findJournalsWhereIn (tenantId : Z) (ids : list Z)
  : Async (list IManualJournal) :=
  issue tenantId (QJournalsWhereIn ids);;
  t ← models tenantId;
  mret (List.map (withGraphFetched t)
          (rowsById
             (filter (fun kv : Z * ManualJournalRow =>
                        Js.includes kv.1 ids = true)
                (manualJournals t)))).

(** The row filter of
      .where('journal_number', journalNumber)
      .onBuild((builder) => { if (notId) builder.whereNot('id', notId) }) *)
Definition journalNumberFilter (journalNumber : string) (notId : option Z)
  (kv : Z * ManualJournalRow) : bool :=
  Js.strictEqOptStr (row_journalNumber kv.2) (Some journalNumber)
  && match notId with
     | Some n => if Js.truthyNum n then negb (kv.1 =? n) else true
     | None => true
     end.

Definition findJournalsByNumber (tenantId : Z) (journalNumber : string)
  (notId : option Z) : Async (list (Z * ManualJournalRow)) :=
  issue tenantId (QJournalsByNumber journalNumber notId);;
  t ← models tenantId;
  mret (rowsById
          (filter (fun kv => journalNumberFilter journalNumber notId kv = true)
             (manualJournals t))).

(** [Account.query().whereIn('id', ids)]. *)
Definition findAccountsWhereIn (tenantId : Z) (ids : list Z)
  : Async (list Account) :=
  issue tenantId (QAccountsWhereIn ids);;
  t ← models tenantId;
  mret (List.filter (fun a => Js.includes (acc_id a) ids) (accounts t)).

(** [Account.query().findOne('slug', slug)]. *)
Definition findAccountBySlug (tenantId : Z) (slug : string)
  : Async (option Account) :=
  issue tenantId (QAccountBySlug slug);;
  t ← models tenantId;
  mret (List.find (fun a => String.eqb (acc_slug a) slug) (accounts t)).

(** [contactRepository.findWhereIn('id', ids)]. *)
Definition findContactsWhereIn (tenantId : Z) (ids : list Z)
  : Async (list Contact) :=
  issue tenantId (QContactsWhereIn ids);;
  t ← models tenantId;
  mret (List.filter (fun c => Js.includes (con_id c) ids) (contacts t)).

Definition setJournals (t : Tables) (js : gmap Z ManualJournalRow)
  (es : list ManualJournalEntryRow) (next : Z) : Tables :=
  {| manualJournals := js;
     manualJournalEntries := es;
     accounts := accounts t;
     contacts := contacts t;
     nextJournalId := next;
     nextTransactionNumber := nextTransactionNumber t |}.

(** The row an insert of [g] creates. *)
Definition insertedRow (g : ManualJournalGraph) : ManualJournalRow :=
  {| row_journalNumber := g_journalNumber g;
     row_date := g_date g;
     row_currencyCode := g_currencyCode g;
     row_amount := g_amount g;
     row_publishedAt := g_publishedAt g;
     row_userId := g_userId g |}.

(** The row an update by [g] leaves: a field absent from the graph keeps
    its stored value. *)
Definition patchedRow (old : ManualJournalRow) (g : ManualJournalGraph)
  : ManualJournalRow :=
  {| row_journalNumber :=
       match g_journalNumber g with
       | Some n => Some n
       | None => row_journalNumber old
       end;
     row_date := g_date g;
     row_currencyCode := g_currencyCode g;
     row_amount := g_amount g;
     row_publishedAt :=
       match g_publishedAt g with
       | Some d => Some d
       | None => row_publishedAt old
       end;
     row_userId :=
       match g_userId g with
       | Some u => Some u
       | None => row_userId old
       end |}.

(** [ManualJournal.query().upsertGraph(graph)]: parent row and entries in
    one transaction; on update the entries of the journal are replaced by
    the graph's. *)
Definition upsertGraph (tenantId : Z) (g : ManualJournalGraph)
  : Async IManualJournal :=
  issue tenantId (WUpsertGraph g);;
  t ← models tenantId;
  match g_id g with
  | None =>
      let id := nextJournalId t in
      let row := insertedRow g in
      storeModels tenantId
        (setJournals t (<[id := row]> (manualJournals t))
           (manualJournalEntries t ++ List.map (mkEntryRow id) (g_entries g))
           (id + 1));;
      mret {| mj_id := id; mj_row := row; mj_entries := g_entries g |}
  | Some id =>
      match manualJournals t !! id with
      | None => throw OrmError
      | Some old =>
          let row := patchedRow old g in
          storeModels tenantId
            (setJournals t (<[id := row]> (manualJournals t))
               (List.filter (fun r => negb (er_manualJournalId r =? id))
                  (manualJournalEntries t)
                ++ List.map (mkEntryRow id) (g_entries g))
               (nextJournalId t));;
          mret {| mj_id := id; mj_row := row; mj_entries := g_entries g |}
      end
  end.

(** [ManualJournalEntry.query().whereIn('manual_journal_id', ids).delete()]
    (and [.where('manual_journal_id', id)] with [ids = [id]]). *)
Definition deleteEntriesWhereIn (tenantId : Z) (ids : list Z) : Async unit :=
  issue tenantId (WDeleteEntries ids);;
  t ← models tenantId;
  storeModels tenantId
    (setJournals t (manualJournals t)
       (List.filter (fun r => negb (Js.includes (er_manualJournalId r) ids))
          (manualJournalEntries t))
       (nextJournalId t)).

(** [ManualJournal.query().whereIn('id', ids).delete()]
    (and [.findById(id).delete()] with [ids = [id]]). *)
Definition deleteJournalsWhereIn (tenantId : Z) (ids : list Z) : Async unit :=
  issue tenantId (WDeleteJournals ids);;
  t ← models tenantId;
  storeModels tenantId
    (setJournals t
       (filter (fun kv : Z * ManualJournalRow => Js.includes kv.1 ids = false)
          (manualJournals t))
       (manualJournalEntries t)
       (nextJournalId t)).

Definition setPublishedAt (row : ManualJournalRow) (d : DateTime)
  : ManualJournalRow :=
  {| row_journalNumber := row_journalNumber row;
     row_date := row_date row;
     row_currencyCode := row_currencyCode row;
     row_amount := row_amount row;
     row_publishedAt := Some d;
     row_userId := row_userId row |}.

(** [ManualJournal.query().whereIn('id', ids).patch({ publishedAt })]
    (and [.findById(id).patch(...)] with [ids = [id]]). *)
Definition patchPublishedAt (tenantId : Z) (ids : list Z) (d : DateTime)
  : Async unit :=
  issue tenantId (WPatchPublishedAt ids d);;
  t ← models tenantId;
  storeModels tenantId
    (setJournals t
       (map_imap
          (fun k row =>
             Some (if Js.includes k ids then setPublishedAt row d else row))
          (manualJournals t))
       (manualJournalEntries t)
       (nextJournalId t)).

(** *** ManualJournalsService *)

Definition getManualJournalOrThrowError (tenantId manualJournalId : Z)
  : Async IManualJournal :=
  manualJournal ← findJournalById tenantId manualJournalId;
  match manualJournal with
  | None => throw NOT_FOUND
  | Some j => mret j
  end.

Definition getManualJournalsOrThrowError (tenantId : Z)
  (manualJournalsIds : list Z) : Async (list IManualJournal) :=
  manualJournals ← findJournalsWhereIn tenantId manualJournalsIds;
  let notFoundManualJournals :=
    Lodash.difference manualJournalsIds (List.map mj_id manualJournals) in
  if (0 <? Z.of_nat (length notFoundManualJournals))
  then throw NOT_FOUND
  else mret manualJournals.

(** [if (v > 0) { total += v; }] for a possibly-undefined [v]. *)
Definition addWhenPositive (total : Z) (v : option Z) : Z :=
  match v with
  | Some n => if 0 <? n then total + n else total
  | None => total
  end.

(** The two running totals of [valdiateCreditDebitTotalEquals] after the
    [forEach] over the entries. *)
Definition creditDebitTotals (entries : list IManualJournalEntry) : Z * Z :=
  fold_left
    (fun '(totalCredit, totalDebit) entry =>
       (addWhenPositive totalCredit (e_credit entry),
        addWhenPositive totalDebit (e_debit entry)))
    entries (0, 0).

Definition valdiateCreditDebitTotalEquals (manualJournalDTO : IManualJournalDTO)
  : Outcome unit :=
  let '(totalCredit, totalDebit) :=
    creditDebitTotals (dto_entries manualJournalDTO) in
  if (totalCredit <=? 0) || (totalDebit <=? 0)
  then Rejected CREDIT_DEBIT_NOT_EQUAL_ZERO
  else if negb (totalCredit =? totalDebit)
  then Rejected CREDIT_DEBIT_NOT_EQUAL
  else Resolved tt.

Definition validateAccountsExistance (tenantId : Z)
  (manualJournalDTO : IManualJournalDTO) : Async unit :=
  let manualAccountsIds :=
    List.map e_accountId (dto_entries manualJournalDTO) in
  accounts ← findAccountsWhereIn tenantId manualAccountsIds;
  let storedAccountsIds := List.map acc_id accounts in
  if (0 <? Z.of_nat
             (length (Lodash.difference manualAccountsIds storedAccountsIds)))
  then throw ACCCOUNTS_IDS_NOT_FOUND
  else mret tt.

Definition validateManualJournalNoUnique (tenantId : Z)
  (journalNumber : string) (notId : option Z) : Async unit :=
  journals ← findJournalsByNumber tenantId journalNumber notId;
  if (0 <? Z.of_nat (length journals))
  then throw JOURNAL_NUMBER_EXISTS
  else mret tt.

(** [!entry.contactType || entry.contactType !== contactType]. *)
Definition hasNoValidContactType (contactType : string)
  (entry : IManualJournalEntry) : bool :=
  negb (Js.truthyOptStr (e_contactType entry))
  || negb (Js.strictEqOptStr (e_contactType entry) (Some contactType)).

Definition validateAccountWithContactType (tenantId : Z)
  (entriesDTO : list IManualJournalEntry)
  (accountBySlug : string) (contactType : string) : Async unit :=
  account ← findAccountBySlug tenantId accountBySlug;
  match account with
  | None =>
      (* [account.id] is read by the callback of [entriesDTO.filter]:
         it is a [TypeError] as soon as there is an entry to filter. *)
      match entriesDTO with
      | [] => mret tt
      | _ :: _ => throw TypeError
      end
  | Some account =>
      let accountEntries :=
        List.filter (fun entry => e_accountId entry =? acc_id account)
          entriesDTO in
      if (Z.of_nat (length accountEntries) =? 0) then mret tt
      else
        let entriesNoContact :=
          List.filter (hasNoValidContactType contactType) accountEntries in
        if (0 <? Z.of_nat (length entriesNoContact))
        then
          let indexes := List.map e_index entriesNoContact in
          throw (ENTRIES_SHOULD_ASSIGN_WITH_CONTACT
                   accountBySlug contactType indexes)
        else mret tt
  end.

Definition dynamicValidateAccountsWithContactType (tenantId : Z)
  (entriesDTO : list IManualJournalEntry) : Async unit :=
  promiseAll2
    (validateAccountWithContactType tenantId entriesDTO
       "accounts-receivable" "customer")
    (validateAccountWithContactType tenantId entriesDTO
       "accounts-payable" "vendor").

(** [new Map(storedContacts.map((contact) => [contact.id, contact]))]:
    a later pair overrides an earlier one with the same key. *)
Definition contactsMap (storedContacts : list Contact) : gmap Z Contact :=
  fold_left (fun m contact => <[con_id contact := contact]> m)
    storedContacts ∅.

(** The body of the [forEach] of [validateContactsExistance]: what the
    entry pushes on [notFoundContactsIds], if anything. *)
Definition notFoundContactOf (storedContactsMap : gmap Z Contact)
  (contactEntry : IManualJournalEntry) : list (option Contact) :=
  let storedContact :=
    match e_contactId contactEntry with
    | Some id => storedContactsMap !! id
    | None => None
    end in
  match storedContact with
  | None => [storedContact]
  | Some c =>
      if negb (Js.strictEqOptStr (Some (con_contactService c))
                 (e_contactType contactEntry))
      then [storedContact]
      else []
  end.

Definition validateContactsExistance (tenantId : Z)
  (manualJournalDTO : IManualJournalDTO) : Async unit :=
  let entriesContactPairs :=
    List.filter (fun entry => Js.truthyOptNum (e_contactId entry))
      (dto_entries manualJournalDTO) in
  if (0 <? Z.of_nat (length entriesContactPairs))
  then
    let entriesContactsIds := omap e_contactId entriesContactPairs in
    storedContacts ← findContactsWhereIn tenantId entriesContactsIds;
    let storedContactsMap := contactsMap storedContacts in
    let notFoundContactsIds :=
      List.flat_map (notFoundContactOf storedContactsMap)
        entriesContactPairs in
    if (0 <? Z.of_nat (length notFoundContactsIds))
    then throw (CONTACTS_NOT_FOUND notFoundContactsIds)
    else mret tt
  else mret tt.

Definition getNextJournalNumber (tenantId : Z) : Async (option string) :=
  issue tenantId QNextTransactionNumber;;
  t ← models tenantId;
  mret (nextTransactionNumber t).

Definition validateJournalNoRequire (journalNumber : option string)
  : Outcome unit :=
  if negb (Js.truthyOptStr journalNumber)
  then Rejected MANUAL_JOURNAL_NO_REQUIRED
  else Resolved tt.

(** [ISystemUser], of which the service reads the id. *)
Record ISystemUser : Type := mkUser { user_id : Z }.

Definition transformNewDTOToModel (tenantId : Z)
  (manualJournalDTO : IManualJournalDTO) (authorizedUser : ISystemUser)
  : Async ManualJournalGraph :=
  let amount :=
    Lodash.orZero (Lodash.sumBy (dto_entries manualJournalDTO) e_credit) in
  let date := formatYMD (dto_date manualJournalDTO) in
  autoNextNumber ← getNextJournalNumber tenantId;
  let journalNumber :=
    Js.orElseStr (dto_journalNumber manualJournalDTO) autoNextNumber in
  liftSync (validateJournalNoRequire journalNumber);;
  publishedAt ← momentNow;
  mret {| g_id := None;
          g_journalNumber := journalNumber;
          g_date := date;
          g_currencyCode := dto_currencyCode manualJournalDTO;
          g_publishedAt :=
            if dto_publish manualJournalDTO then Some publishedAt else None;
          g_amount := amount;
          g_userId := Some (user_id authorizedUser);
          g_entries := dto_entries manualJournalDTO |}.

Definition transformEditDTOToModel (manualJournalDTO : IManualJournalDTO)
  (oldManualJournal : IManualJournal) : Async ManualJournalGraph :=
  let amount :=
    Lodash.orZero (Lodash.sumBy (dto_entries manualJournalDTO) e_credit) in
  let date := formatYMD (dto_date manualJournalDTO) in
  publishedAt ← momentNow;
  mret {| g_id := Some (mj_id oldManualJournal);
          g_journalNumber := dto_journalNumber manualJournalDTO;
          g_date := date;
          g_currencyCode := dto_currencyCode manualJournalDTO;
          g_publishedAt :=
            if dto_publish manualJournalDTO
               && negb (truthyDateTime (mj_publishedAt oldManualJournal))
            then Some publishedAt else None;
          g_amount := amount;
          g_userId := None;
          g_entries := dto_entries manualJournalDTO |}.

Definition makeJournalEntries (tenantId : Z)
  (manualJournalDTO : IManualJournalDTO) (authorizedUser : ISystemUser)
  : Async IManualJournal :=
  manualJournalObj ←
    transformNewDTOToModel tenantId manualJournalDTO authorizedUser;
  liftSync (valdiateCreditDebitTotalEquals manualJournalDTO);;
  validateContactsExistance tenantId manualJournalDTO;;
  validateAccountsExistance tenantId manualJournalDTO;;
  match g_journalNumber manualJournalObj with
  | Some journalNumber =>
      validateManualJournalNoUnique tenantId journalNumber None
  | None => throw OrmError
  end;;
  dynamicValidateAccountsWithContactType tenantId
    (dto_entries manualJournalDTO);;
  manualJournal ← upsertGraph tenantId manualJournalObj;
  dispatch tenantId (onCreated (mj_id manualJournal));;
  mret manualJournal.

Definition editJournalEntries (tenantId manualJournalId : Z)
  (manualJournalDTO : IManualJournalDTO) (authorizedUser : ISystemUser)
  : Async (option IManualJournal * IManualJournal) :=
  oldManualJournal ← getManualJournalOrThrowError tenantId manualJournalId;
  manualJournalObj ←
    transformEditDTOToModel manualJournalDTO oldManualJournal;
  liftSync (valdiateCreditDebitTotalEquals manualJournalDTO);;
  validateContactsExistance tenantId manualJournalDTO;;
  validateAccountsExistance tenantId manualJournalDTO;;
  match dto_journalNumber manualJournalDTO with
  | Some journalNumber =>
      if Js.truthyStr journalNumber
      then validateManualJournalNoUnique tenantId journalNumber
             (Some manualJournalId)
      else mret tt
  | None => mret tt
  end;;
  dynamicValidateAccountsWithContactType tenantId
    (dto_entries manualJournalDTO);;
  upsertGraph tenantId manualJournalObj;;
  manualJournal ← findJournalById tenantId manualJournalId;
  dispatch tenantId (onEdited manualJournalId);;
  mret (manualJournal, oldManualJournal).

Definition deleteManualJournal (tenantId manualJournalId : Z)
  : Async IManualJournal :=
  oldManualJournal ← getManualJournalOrThrowError tenantId manualJournalId;
  deleteEntriesWhereIn tenantId [manualJournalId];;
  deleteJournalsWhereIn tenantId [manualJournalId];;
  dispatch tenantId (onDeleted manualJournalId);;
  mret oldManualJournal.

Definition deleteManualJournals (tenantId : Z) (manualJournalsIds : list Z)
  : Async (list IManualJournal) :=
  oldManualJournals ←
    getManualJournalsOrThrowError tenantId manualJournalsIds;
  deleteEntriesWhereIn tenantId manualJournalsIds;;
  deleteJournalsWhereIn tenantId manualJournalsIds;;
  dispatch tenantId (onDeletedBulk manualJournalsIds);;
  mret oldManualJournals.

Definition getNonePublishedManualJournals
  (manualJournals : list IManualJournal) : list IManualJournal :=
  List.filter
    (fun manualJournal => negb (truthyDateTime (mj_publishedAt manualJournal)))
    manualJournals.

Definition getPublishedManualJournals
  (manualJournals : list IManualJournal) : list IManualJournal :=
  List.filter (fun expense => truthyDateTime (mj_publishedAt expense))
    manualJournals.

(** The [meta] object [publishManualJournals] returns. *)
Record PublishMeta : Type := mkMeta {
  alreadyPublished : Z;
  published : Z;
  total : Z;
}.

Definition publishManualJournals (tenantId : Z) (manualJournalsIds : list Z)
  : Async PublishMeta :=
  oldManualJournals ←
    getManualJournalsOrThrowError tenantId manualJournalsIds;
  let notPublishedJournals :=
    getNonePublishedManualJournals oldManualJournals in
  let publishedJournals := getPublishedManualJournals oldManualJournals in
  let notPublishedJournalsIds := List.map mj_id notPublishedJournals in
  (if (0 <? Z.of_nat (length notPublishedJournals))
   then
     publishedAt ← momentNow;
     patchPublishedAt tenantId notPublishedJournalsIds publishedAt
   else mret tt);;
  dispatch tenantId (onPublishedBulk manualJournalsIds);;
  mret {| alreadyPublished := Z.of_nat (length publishedJournals);
          published := Z.of_nat (length notPublishedJournals);
          total := Z.of_nat (length oldManualJournals) |}.

Definition validateManualJournalIsNotPublished
  (manualJournal : IManualJournal) : Outcome unit :=
  if truthyDateTime (mj_publishedAt manualJournal)
  then Rejected MANUAL_JOURNAL_ALREADY_PUBLISHED
  else Resolved tt.

Definition publishManualJournal (tenantId manualJournalId : Z)
  : Async unit :=
  oldManualJournal ← getManualJournalOrThrowError tenantId manualJournalId;
  liftSync (validateManualJournalIsNotPublished oldManualJournal);;
  publishedAt ← momentNow;
  patchPublishedAt tenantId [manualJournalId] publishedAt;;
  manualJournal ← findJournalById tenantId manualJournalId;
  dispatch tenantId (onPublished manualJournalId);;
  mret tt.

Definition getManualJournal (tenantId manualJournalId : Z)
  : Async (option IManualJournal) :=
  getManualJournalOrThrowError tenantId manualJournalId;;
  findJournalById tenantId manualJournalId.

End ManualJournals.

(** ** The validation half and the persistence half of create and edit

  [makeJournalEntries] and [editJournalEntries] are each a chain of
  validations followed by one write; the two halves are named here so that
  properties can speak of them separately (the split is proved equal to the
  methods above). *)

Module Pipeline.
Import ManualJournals.

Definition validateNew (tenantId : Z) (manualJournalDTO : IManualJournalDTO)
  (authorizedUser : ISystemUser) : Async ManualJournalGraph :=
  manualJournalObj ←
    transformNewDTOToModel tenantId manualJournalDTO authorizedUser;
  liftSync (valdiateCreditDebitTotalEquals manualJournalDTO);;
  validateContactsExistance tenantId manualJournalDTO;;
  validateAccountsExistance tenantId manualJournalDTO;;
  match g_journalNumber manualJournalObj with
  | Some journalNumber =>
      validateManualJournalNoUnique tenantId journalNumber None
  | None => throw OrmError
  end;;
  dynamicValidateAccountsWithContactType tenantId
    (dto_entries manualJournalDTO);;
  mret manualJournalObj.

Definition persistNew (tenantId : Z) (manualJournalObj : ManualJournalGraph)
  : Async IManualJournal :=
  manualJournal ← upsertGraph tenantId manualJournalObj;
  dispatch tenantId (onCreated (mj_id manualJournal));;
  mret manualJournal.

Definition editUniqueRule (tenantId manualJournalId : Z)
  (manualJournalDTO : IManualJournalDTO) : Async unit :=
  match dto_journalNumber manualJournalDTO with
  | Some journalNumber =>
      if Js.truthyStr journalNumber
      then validateManualJournalNoUnique tenantId journalNumber
             (Some manualJournalId)
      else mret tt
  | None => mret tt
  end.

Definition validateEdit (tenantId manualJournalId : Z)
  (manualJournalDTO : IManualJournalDTO)
  : Async (ManualJournalGraph * IManualJournal) :=
  oldManualJournal ← getManualJournalOrThrowError tenantId manualJournalId;
  manualJournalObj ←
    transformEditDTOToModel manualJournalDTO oldManualJournal;
  liftSync (valdiateCreditDebitTotalEquals manualJournalDTO);;
  validateContactsExistance tenantId manualJournalDTO;;
  validateAccountsExistance tenantId manualJournalDTO;;
  editUniqueRule tenantId manualJournalId manualJournalDTO;;
  dynamicValidateAccountsWithContactType tenantId
    (dto_entries manualJournalDTO);;
  mret (manualJournalObj, oldManualJournal).

Definition persistEdit (tenantId manualJournalId : Z)
  (validated : ManualJournalGraph * IManualJournal)
  : Async (option IManualJournal * IManualJournal) :=
  upsertGraph tenantId validated.1;;
  manualJournal ← findJournalById tenantId manualJournalId;
  dispatch tenantId (onEdited manualJournalId);;
  mret (manualJournal, validated.2).

(** The journals [whereIn('id', ids)] returns. *)
Definition foundJournals (tables : Tables) (ids : list Z)
  : list IManualJournal :=
  List.map (withGraphFetched tables)
    (rowsById
       (filter (fun kv : Z * ManualJournalRow => Js.includes kv.1 ids = true)
          (manualJournals tables))).

(** The entries that reference [account] without declaring the contact
    type [contactType]. *)
Definition offendingEntries (account : Account) (contactType : string)
  (entries : list IManualJournalEntry) : list IManualJournalEntry :=
  List.filter
    (fun e =>
       (e_accountId e =? acc_id account)
       && negb (Js.strictEqOptStr (e_contactType e) (Some contactType)))
    entries.

(** A journal other than [notId] holds the number [n]. *)
Definition numberHeld (tables : Tables) (n : string) (notId : option Z)
  : Prop :=
  ∃ k row,
    manualJournals tables !! k = Some row
    ∧ row_journalNumber row = Some n
    ∧ ∀ x, notId = Some x → x ≠ 0 → k ≠ x.

(** Every validation rule, run on the world [w], passes; [unique] is the
    uniqueness rule as the operation runs it. *)
Definition allRulesPass (t : Z) (dto : IManualJournalDTO)
  (unique : Async unit) (w : World) : Prop :=
  valdiateCreditDebitTotalEquals dto = Resolved tt
  ∧ (validateContactsExistance t dto w).1 = Resolved tt
  ∧ (validateAccountsExistance t dto w).1 = Resolved tt
  ∧ (unique w).1 = Resolved tt
  ∧ (dynamicValidateAccountsWithContactType t (dto_entries dto) w).1
    = Resolved tt.

(** No call in [ops] writes to storage. *)
Definition noWrites (ops : list (Z * Op)) : bool :=
  forallb (fun p => negb (isWrite p.2)) ops.

(** Two worlds a read-only computation cannot tell apart for tenant [t]. *)
Definition agree (t : Z) (w1 w2 : World) : Prop :=
  tenancy w1 t = tenancy w2 t ∧ now w1 = now w2
  ∧ firstSettlesFirst w1 = firstSettlesFirst w2.

(** [m] only reads tenant [t]: it appends non-writing calls to the trace,
    and its outcome depends on nothing but that tenant's tables, the
    clock and the settling order. *)
Definition ReadOnly {A : Type} (t : Z) (m : Async A) : Prop :=
  ∀ w1 w2, agree t w1 w2 →
    ∃ r ops, m w1 = (r, addTrace w1 ops) ∧ m w2 = (r, addTrace w2 ops)
             ∧ noWrites ops = true.

(** The error of the first rule, in the order given, that rejects. *)
Fixpoint firstRejection (rules : list (Outcome unit))
  : option ServiceError :=
  match rules with
  | [] => None
  | Resolved _ :: rest => firstRejection rest
  | Rejected e :: _ => Some e
  end.

(** [m], run for tenant [t], leaves the tables of every other tenant as
    they were. *)
Definition Confined {A : Type} (t : Z) (m : Async A) : Prop :=
  ∀ w t', t' ≠ t → tenancy (m w).2 t' = tenancy w t'.

(** The tables after the entries, then the journals, of [ids] were
    deleted. *)
Definition deletedTables (tables : Tables) (ids : list Z) : Tables :=
  setJournals tables
    (filter (fun kv : Z * ManualJournalRow => Js.includes kv.1 ids = false)
       (manualJournals tables))
    (List.filter (fun r => negb (Js.includes (er_manualJournalId r) ids))
       (manualJournalEntries tables))
    (nextJournalId tables).

(** The tables after publishedAt was patched to [d] on the journals
    [ids]. *)
Definition stampedTables (tables : Tables) (ids : list Z) (d : DateTime)
  : Tables :=
  setJournals tables
    (map_imap
       (fun k row =>
          Some (if Js.includes k ids then setPublishedAt row d else row))
       (manualJournals tables))
    (manualJournalEntries tables)
    (nextJournalId tables).

End Pipeline.

(** ** The quantities the specification speaks of *)

Module Spec.
Import ManualJournals.

Fixpoint sumZ (l : list Z) : Z :=
  match l with
  | [] => 0
  | x :: rest => x + sumZ rest
  end.

(** An absent amount counts as zero. *)
Definition amountOf (v : option Z) : Z := default 0 v.

(** sum(entries[].credit) and sum(entries[].debit). *)
Definition sumCredits (entries : list IManualJournalEntry) : Z :=
  sumZ (List.map (fun e => amountOf (e_credit e)) entries).

Definition sumDebits (entries : list IManualJournalEntry) : Z :=
  sumZ (List.map (fun e => amountOf (e_debit e)) entries).

(** The sums of the strictly positive credits and debits alone. *)
Definition sumPositiveCredits (entries : list IManualJournalEntry) : Z :=
  sumZ (List.map (fun e => Z.max 0 (amountOf (e_credit e))) entries).

Definition sumPositiveDebits (entries : list IManualJournalEntry) : Z :=
  sumZ (List.map (fun e => Z.max 0 (amountOf (e_debit e))) entries).

(** Credit and debit are non-negative (or absent). *)
Definition nonNegativeEntry (e : IManualJournalEntry) : Prop :=
  0 ≤ amountOf (e_credit e) ∧ 0 ≤ amountOf (e_debit e).

End Spec.

(** ** A small tenant used to run the service on concrete requests *)

Module Samples.
Import ManualJournals.
Local Open Scope string_scope.

Definition receivableAccount : Account := mkAccount 10 "accounts-receivable".
Definition cashAccount : Account := mkAccount 11 "cash".
Definition payableAccount : Account := mkAccount 12 "accounts-payable".

Definition customer7 : Contact := mkContact 7 "customer".
Definition vendor8 : Contact := mkContact 8 "vendor".

Definition receivableLine (amount : Z) : IManualJournalEntry :=
  mkEntry 1 10 (Some amount) None (Some 7) (Some "customer").
Definition cashLine (amount : Z) : IManualJournalEntry :=
  mkEntry 2 11 None (Some amount) None None.

(** Journal 1 is a draft numbered J-1, journal 2 is published and
    numbered J-2. *)
Definition draftRow : ManualJournalRow :=
  mkRow (Some "J-1") (2024, 1, 15) "USD" 100 None (Some 5).
Definition publishedRow : ManualJournalRow :=
  mkRow (Some "J-2") (2024, 1, 16) "USD" 40 (Some (MkDateTime 500)) (Some 5).

Definition sampleTables : Tables :=
  {| manualJournals := <[1 := draftRow]> (<[2 := publishedRow]> ∅);
     manualJournalEntries :=
       [mkEntryRow 1 (receivableLine 100); mkEntryRow 1 (cashLine 100);
        mkEntryRow 2 (receivableLine 40); mkEntryRow 2 (cashLine 40)];
     accounts := [receivableAccount; cashAccount; payableAccount];
     contacts := [customer7; vendor8];
     nextJournalId := 3;
     nextTransactionNumber := Some "J-3" |}.

Definition sampleWorld : World :=
  {| tenancy := fun _ => sampleTables;
     now := MkDateTime 1000;
     firstSettlesFirst := true;
     trace := [] |}.

Definition sampleUser : ISystemUser := mkUser 5.

Definition sampleDate : Moment := mkMoment 2024 2 1 3600.

(** The specification's end-to-end example: 100 credited to the
    receivable account for customer 7, 100 debited to cash. *)
Definition balancedDTO (journalNumber : option string) (publish : bool)
  : IManualJournalDTO :=
  mkDTO journalNumber sampleDate "USD" publish
    [receivableLine 100; cashLine 100].

(** Credits 100, debits 60. *)
Definition unbalancedDTO : IManualJournalDTO :=
  mkDTO (Some "J-9") sampleDate "USD" false
    [receivableLine 100; cashLine 60].

(** No amount on either side. *)
Definition emptyDTO : IManualJournalDTO :=
  mkDTO (Some "J-9") sampleDate "USD" false [].


(** Contact 9 is not stored; contact 8 is a vendor declared as customer;
    contact 7 is a customer declared as such. *)
Definition danglingContactsDTO : IManualJournalDTO :=
  mkDTO (Some "J-9") sampleDate "USD" false
    [mkEntry 1 11 (Some 50) None (Some 9) (Some "customer");
     mkEntry 2 11 (Some 50) None (Some 8) (Some "customer");
     mkEntry 3 11 None (Some 100) (Some 7) (Some "customer")].

(** The receivable account referenced with contact type vendor (index 1)
    and with no contact type (index 2). *)
Definition misassignedEntries : list IManualJournalEntry :=
  [mkEntry 1 10 (Some 50) None (Some 8) (Some "vendor");
   mkEntry 2 10 (Some 50) None None None;
   mkEntry 3 11 None (Some 100) None None].

Definition sampleInvoice (i due : Z) : PaymentReceive.Entry :=
  {| PaymentReceive.index := i;
     PaymentReceive.invoice_id := 100 + i;
     PaymentReceive.entry_type := "invoice";
     PaymentReceive.due_amount := due;
     PaymentReceive.date := "2024-01-01";
     PaymentReceive.amount := due;
     PaymentReceive.currency_code := "USD";
     PaymentReceive.payment_amount := None;
     PaymentReceive.invoice_no := "INV";
     PaymentReceive.branch_id := None;
     PaymentReceive.total_payment_amount := 0 |}.

(** A tenant whose auto-increment service has no number to offer, and a
    balanced DTO that carries none either. *)
Definition unnumberedWorld : World :=
  {| tenancy := fun _ =>
       {| manualJournals := ∅;
          manualJournalEntries := [];
          accounts := [receivableAccount; cashAccount; payableAccount];
          contacts := [customer7; vendor8];
          nextJournalId := 1;
          nextTransactionNumber := None |};
     now := MkDateTime 1000;
     firstSettlesFirst := true;
     trace := [] |}.

Definition unnumberedDTO : IManualJournalDTO := balancedDTO None false.

(** A tenant whose chart of accounts lacks the accounts-payable
    account. *)
Definition bareWorld : World :=
  {| tenancy := fun _ =>
       {| manualJournals := ∅;
          manualJournalEntries := [];
          accounts := [receivableAccount; cashAccount];
          contacts := [customer7; vendor8];
          nextJournalId := 1;
          nextTransactionNumber := Some "J-1" |};
     now := MkDateTime 1000;
     firstSettlesFirst := true;
     trace := [] |}.

End Samples.

(** * The amounts as doubles

    A JavaScript [number] is an IEEE 754 binary64 double, Rocq's primitive
    [float]: on numbers, [+], [-], [<], [<=] and [===] are [PrimFloat.add],
    [sub], [ltb], [leb] and [eqb]. The balance rule of the service and the
    distribution of a payment over invoices are embedded here on doubles,
    with the data they read. *)

(** ** [Math.min], [Math.max] and the sign of a number *)

Module JsNumber.
Import Floats.
Local Open Scope float_scope.

(** [Math.min(x, y)]: [NaN] when an argument is, and [-0] below [+0]. *)
Definition min (x y : float) : float :=
  if is_nan x || is_nan y then nan
  else if x <? y then x
  else if y <? x then y
  else if Leibniz.eqb x neg_zero then x else y.

(** [Math.max(x, y)]: [NaN] when an argument is, and [+0] above [-0]. *)
Definition max (x y : float) : float :=
  if is_nan x || is_nan y then nan
  else if x <? y then y
  else if y <? x then x
  else if Leibniz.eqb x neg_zero then y else x.

(** [+0], a positive number or [+Infinity]. *)
Definition isNonNegative (x : float) : bool :=
  match classify x with
  | PZero | PSubn | PNormal | PInf => true
  | _ => false
  end.

(** [+0] or a positive number. *)
Definition isFiniteNonNegative (x : float) : bool :=
  match classify x with
  | PZero | PSubn | PNormal => true
  | _ => false
  end.

End JsNumber.

(** ** The balance rule of [ManualJournalsService.ts] *)

Module ManualJournalsFloat.
Import Floats.
Import ManualJournals.

(** [IManualJournalEntry], one line of a journal DTO; [credit] and [debit]
    are numbers or absent. *)
Record IManualJournalEntry : Type := mkEntry {
  e_index : Z;
  e_accountId : Z;
  e_credit : option float;
  e_debit : option float;
  e_contactId : option Z;
  e_contactType : option string;
}.

(** [IManualJournalDTO]. *)
Record IManualJournalDTO : Type := mkDTO {
  dto_journalNumber : option string;
  dto_date : Moment;
  dto_currencyCode : string;
  dto_publish : bool;
  dto_entries : list IManualJournalEntry;
}.

(** [if (v > 0) { total += v; }] for a possibly-undefined [v]
    ([undefined > 0] is [false]). *)
Definition addWhenPositive (total : float) (v : option float) : float :=
  match v with
  | Some n => if (0 <? n)%float then (total + n)%float else total
  | None => total
  end.

(** The two running totals of [valdiateCreditDebitTotalEquals] after the
    [forEach] over the entries. *)
Definition creditDebitTotals (entries : list IManualJournalEntry)
  : float * float :=
  fold_left
    (fun '(totalCredit, totalDebit) entry =>
       (addWhenPositive totalCredit (e_credit entry),
        addWhenPositive totalDebit (e_debit entry)))
    entries (0%float, 0%float).

(** [totalCredit <= 0 || totalDebit <= 0], then
    [totalCredit !== totalDebit]. *)
Definition valdiateCreditDebitTotalEquals (manualJournalDTO : IManualJournalDTO)
  : Outcome unit :=
  let '(totalCredit, totalDebit) :=
    creditDebitTotals (dto_entries manualJournalDTO) in
  if (totalCredit <=? 0)%float || (totalDebit <=? 0)%float
  then Rejected CREDIT_DEBIT_NOT_EQUAL_ZERO
  else if negb (totalCredit =? totalDebit)%float
  then Rejected CREDIT_DEBIT_NOT_EQUAL
  else Resolved tt.

End ManualJournalsFloat.

(** ** [amountPaymentEntries] of the payment-receive form *)

Module PaymentReceiveFloat.
Import Floats.

(** A receivable entry of the form; [payment_amount] is [''] (here [None])
    until an amount was assigned. *)
Record Entry : Type := mkEntry {
  index : Z;
  invoice_id : Z;
  entry_type : string;
  due_amount : float;
  date : string;
  amount : float;
  currency_code : string;
  payment_amount : option float;
  invoice_no : string;
  branch_id : option Z;
  total_payment_amount : float;
}.

(** [{ ...item, payment_amount: diff }]. *)
Definition withPaymentAmount (item : Entry) (diff : float) : Entry :=
  {| index := index item;
     invoice_id := invoice_id item;
     entry_type := entry_type item;
     due_amount := due_amount item;
     date := date item;
     amount := amount item;
     currency_code := currency_code item;
     payment_amount := Some diff;
     invoice_no := invoice_no item;
     branch_id := branch_id item;
     total_payment_amount := total_payment_amount item |}.

(** The callback of [entries.map] with the captured [total] made an
    explicit accumulator:
      const diff = Math.min(item.due_amount, total);
      total -= Math.max(diff, 0); *)
Fixpoint amountPaymentLoop (total : float) (entries : list Entry)
  : list Entry :=
  match entries with
  | [] => []
  | item :: rest =>
      let diff := JsNumber.min (due_amount item) total in
      let total' := (total - JsNumber.max diff 0)%float in
      withPaymentAmount item diff :: amountPaymentLoop total' rest
  end.

Definition amountPaymentEntries (amount : float) (entries : list Entry)
  : list Entry :=
  amountPaymentLoop amount entries.

End PaymentReceiveFloat.

(** ** The quantities the specification speaks of, on doubles *)

Module FloatSpec.
Import Floats.
Import ManualJournalsFloat.

(** The floats of a list added up from left to right, starting at 0. *)
Definition sumFloats (l : list float) : float :=
  fold_left PrimFloat.add l 0%float.

(** An absent amount counts as zero. *)
Definition amountOf (v : option float) : float :=
  match v with Some n => n | None => 0%float end.

(** sum(entries[].credit) and sum(entries[].debit), in entry order. *)
Definition sumCredits (entries : list IManualJournalEntry) : float :=
  sumFloats (List.map (fun e => amountOf (e_credit e)) entries).

Definition sumDebits (entries : list IManualJournalEntry) : float :=
  sumFloats (List.map (fun e => amountOf (e_debit e)) entries).

(** [0 <= v], for an amount that may be absent. *)
Definition nonNegativeAmount (v : option float) : Prop :=
  match v with
  | Some n => (0 <=? n)%float = true
  | None => True
  end.

Definition nonNegativeEntry (e : IManualJournalEntry) : Prop :=
  nonNegativeAmount (e_credit e) ∧ nonNegativeAmount (e_debit e).

(** The greedy distribution in the specification's words: each due
    amount, in order, receives the smaller of itself and what remains,
    and what remains decreases by it. *)
Fixpoint greedyPayments (remaining : float) (dues : list float)
  : list float :=
  match dues with
  | [] => []
  | due :: rest =>
      let paid := JsNumber.min due remaining in
      paid :: greedyPayments (remaining - paid)%float rest
  end.

(** The due amount of the entry is [+0] or a positive number. *)
Definition finiteDue (e : PaymentReceiveFloat.Entry) : Prop :=
  JsNumber.isFiniteNonNegative (PaymentReceiveFloat.due_amount e) = true.

(** The fields of an entry other than [payment_amount] are those of
    [item]. *)
Definition otherFieldsKept (item result : PaymentReceiveFloat.Entry) : Prop :=
  PaymentReceiveFloat.index result = PaymentReceiveFloat.index item
  ∧ PaymentReceiveFloat.invoice_id result
    = PaymentReceiveFloat.invoice_id item
  ∧ PaymentReceiveFloat.entry_type result
    = PaymentReceiveFloat.entry_type item
  ∧ PaymentReceiveFloat.due_amount result
    = PaymentReceiveFloat.due_amount item
  ∧ PaymentReceiveFloat.date result = PaymentReceiveFloat.date item
  ∧ PaymentReceiveFloat.amount result = PaymentReceiveFloat.amount item
  ∧ PaymentReceiveFloat.currency_code result
    = PaymentReceiveFloat.currency_code item
  ∧ PaymentReceiveFloat.invoice_no result
    = PaymentReceiveFloat.invoice_no item
  ∧ PaymentReceiveFloat.branch_id result
    = PaymentReceiveFloat.branch_id item
  ∧ PaymentReceiveFloat.total_payment_amount result
    = PaymentReceiveFloat.total_payment_amount item.

(** The value of a double as the IEEE 754 specification reads it is [+0],
    positive and finite, or [+Infinity]. *)
Definition signless (x : spec_float) : Prop :=
  match x with
  | S754_zero false | S754_finite false _ _ | S754_infinity false => True
  | _ => False
  end.

Definition signlessF (x : float) : Prop := signless (Prim2SF x).

End FloatSpec.

(** ** Sample journals and form entries with decimal amounts *)

Module FloatSamples.
Import Floats.
Local Open Scope float_scope.
Local Open Scope string_scope.
#[local] Set Warnings "-inexact-float".

Definition sampleDate : ManualJournals.Moment :=
  ManualJournals.mkMoment 2024 2 1 3600.

Definition creditLine (index : Z) (amount : float)
  : ManualJournalsFloat.IManualJournalEntry :=
  ManualJournalsFloat.mkEntry index 10 (Some amount) None (Some 7%Z)
    (Some "customer").

Definition debitLine (index : Z) (amount : float)
  : ManualJournalsFloat.IManualJournalEntry :=
  ManualJournalsFloat.mkEntry index 11 None (Some amount) None None.

Definition journalOf (entries : list ManualJournalsFloat.IManualJournalEntry)
  : ManualJournalsFloat.IManualJournalDTO :=
  ManualJournalsFloat.mkDTO None sampleDate "USD" false entries.


(** A credit of 100 against a debit of 100. *)
Definition balancedDTO : ManualJournalsFloat.IManualJournalDTO :=
  journalOf [creditLine 1 100; debitLine 2 100].

(** A form entry of an invoice with the given due amount. *)
Definition dueEntry (index : Z) (due : float) : PaymentReceiveFloat.Entry :=
  PaymentReceiveFloat.mkEntry index index "invoice" due "2024-02-01" due
    "USD" None "INV" None 0.

End FloatSamples.

(** * Properties *)

Module ManualJournalsProofs.
Import ManualJournals Pipeline Spec Samples.

Lemma rowsById_Permutation {A} (m : gmap Z A) :
  rowsById m ≡ₚ map_to_list m.
Proof. apply merge_sort_Permutation. Qed.

Lemma elem_of_rowsById {A} (m : gmap Z A) k v :
  (k, v) ∈ rowsById m ↔ m !! k = Some v.
Proof. by rewrite rowsById_Permutation, elem_of_map_to_list. Qed.

Lemma NoDup_fst_rowsById {A} (m : gmap Z A) : NoDup (rowsById m).*1.
Proof. rewrite rowsById_Permutation. apply NoDup_fst_map_to_list. Qed.

Lemma rowsById_empty {A} : rowsById (∅ : gmap Z A) = [].
Proof.
  apply Permutation_nil_r. rewrite rowsById_Permutation.
  by rewrite map_to_list_empty.
Qed.

Lemma addTrace_nil w : addTrace w [] = w.
Proof. destruct w; unfold addTrace; cbn. by rewrite app_nil_r. Qed.

Lemma addTrace_app w ops1 ops2 :
  addTrace (addTrace w ops1) ops2 = addTrace w (ops1 ++ ops2).
Proof. unfold addTrace; cbn. by rewrite app_assoc. Qed.

Lemma noWrites_app ops1 ops2 :
  noWrites (ops1 ++ ops2) = noWrites ops1 && noWrites ops2.
Proof. apply forallb_app. Qed.

Lemma agree_refl t w : agree t w w.
Proof. by repeat split. Qed.

Lemma agree_addTrace t w1 w2 ops1 ops2 :
  agree t w1 w2 → agree t (addTrace w1 ops1) (addTrace w2 ops2).
Proof. by intros (? & ? & ?). Qed.

Lemma bind_run {A B : Type} (m : Async A) (k : A → Async B) w :
  (m ≫= k) w
  = match m w with
    | (Resolved a, w') => k a w'
    | (Rejected e, w') => (Rejected e, w')
    end.
Proof. reflexivity. Qed.

Lemma ReadOnly_ret {A : Type} t (a : A) : ReadOnly t (mret a).
Proof.
  intros w1 w2 _. exists (Resolved a), []. by rewrite !addTrace_nil.
Qed.

Lemma ReadOnly_throw {A : Type} t e : ReadOnly t (@throw A e).
Proof.
  intros w1 w2 _. exists (Rejected e), []. by rewrite !addTrace_nil.
Qed.

Lemma ReadOnly_liftSync {A : Type} t (r : Outcome A) : ReadOnly t (liftSync r).
Proof. intros w1 w2 _. exists r, []. by rewrite !addTrace_nil. Qed.

Lemma ReadOnly_momentNow t : ReadOnly t momentNow.
Proof.
  intros w1 w2 (_ & Hnow & _). exists (Resolved (now w1)), [].
  rewrite !addTrace_nil. unfold momentNow. by rewrite Hnow.
Qed.

Lemma ReadOnly_models t : ReadOnly t (models t).
Proof.
  intros w1 w2 (Ht & _). exists (Resolved (tenancy w1 t)), [].
  rewrite !addTrace_nil. unfold models. by rewrite Ht.
Qed.

Lemma ReadOnly_issue t op : isWrite op = false → ReadOnly t (issue t op).
Proof.
  intros Hop w1 w2 _. exists (Resolved tt), [(t, op)].
  repeat split. cbn. by rewrite Hop.
Qed.

Lemma ReadOnly_bind {A B : Type} t (m : Async A) (k : A → Async B) :
  ReadOnly t m → (∀ a, ReadOnly t (k a)) → ReadOnly t (m ≫= k).
Proof.
  intros Hm Hk w1 w2 Hag.
  destruct (Hm w1 w2 Hag) as (r & ops & H1 & H2 & Hops).
  rewrite !bind_run, H1, H2. destruct r as [a|e].
  - destruct (Hk a _ _ (agree_addTrace t w1 w2 ops ops Hag))
      as (r' & ops' & H1' & H2' & Hops').
    exists r', (ops ++ ops'). rewrite H1', H2', !addTrace_app, noWrites_app.
    by rewrite Hops, Hops'.
  - by exists (Rejected e), ops.
Qed.

Lemma ReadOnly_promiseAll2 t (p1 p2 : Async unit) :
  ReadOnly t p1 → ReadOnly t p2 → ReadOnly t (promiseAll2 p1 p2).
Proof.
  intros Hp1 Hp2 w1 w2 Hag.
  destruct (Hp1 w1 w2 Hag) as (r1 & ops1 & H1 & H2 & Hops1).
  destruct (Hp2 _ _ (agree_addTrace t w1 w2 ops1 ops1 Hag))
    as (r2 & ops2 & H1' & H2' & Hops2).
  unfold promiseAll2. rewrite H1, H2, H1', H2', !addTrace_app.
  destruct Hag as (_ & _ & Hsched). rewrite Hsched.
  rewrite <- (andb_true_intro (conj Hops1 Hops2)), <- noWrites_app.
  destruct r1, r2; by eexists _, (ops1 ++ ops2).
Qed.

Create HintDb readonly.
#[local] Hint Resolve ReadOnly_ret ReadOnly_throw ReadOnly_liftSync
  ReadOnly_momentNow ReadOnly_models ReadOnly_promiseAll2 : readonly.

Ltac read_only :=
  repeat first
    [ solve [eauto with readonly]
    | apply ReadOnly_issue; reflexivity
    | progress cbv zeta
    | apply ReadOnly_bind; [|intros ?]
    | match goal with
      | |- ReadOnly _ (match ?x with _ => _ end) => destruct x
      | |- ReadOnly _ (if ?b then _ else _) => destruct b
      end ].

Lemma ReadOnly_findJournalById t id : ReadOnly t (findJournalById t id).
Proof. unfold findJournalById. read_only. Qed.
Lemma ReadOnly_findJournalsWhereIn t ids : ReadOnly t (findJournalsWhereIn t ids).
Proof. unfold findJournalsWhereIn. read_only. Qed.
Lemma ReadOnly_findJournalsByNumber t n notId : ReadOnly t (findJournalsByNumber t n notId).
Proof. unfold findJournalsByNumber. read_only. Qed.
Lemma ReadOnly_findAccountsWhereIn t ids : ReadOnly t (findAccountsWhereIn t ids).
Proof. unfold findAccountsWhereIn. read_only. Qed.
Lemma ReadOnly_findAccountBySlug t slug : ReadOnly t (findAccountBySlug t slug).
Proof. unfold findAccountBySlug. read_only. Qed.
Lemma ReadOnly_findContactsWhereIn t ids : ReadOnly t (findContactsWhereIn t ids).
Proof. unfold findContactsWhereIn. read_only. Qed.
Lemma ReadOnly_getNextJournalNumber t : ReadOnly t (getNextJournalNumber t).
Proof. unfold getNextJournalNumber. read_only. Qed.
#[local] Hint Resolve ReadOnly_findJournalById ReadOnly_findJournalsWhereIn
  ReadOnly_findJournalsByNumber ReadOnly_findAccountsWhereIn
  ReadOnly_findAccountBySlug ReadOnly_findContactsWhereIn
  ReadOnly_getNextJournalNumber : readonly.

Lemma ReadOnly_getManualJournalOrThrowError t id :
  ReadOnly t (getManualJournalOrThrowError t id).
Proof. unfold getManualJournalOrThrowError. read_only. Qed.
Lemma ReadOnly_getManualJournalsOrThrowError t ids :
  ReadOnly t (getManualJournalsOrThrowError t ids).
Proof. unfold getManualJournalsOrThrowError. read_only. Qed.
Lemma ReadOnly_validateAccountsExistance t dto :
  ReadOnly t (validateAccountsExistance t dto).
Proof. unfold validateAccountsExistance. read_only. Qed.
Lemma ReadOnly_validateManualJournalNoUnique t n notId :
  ReadOnly t (validateManualJournalNoUnique t n notId).
Proof. unfold validateManualJournalNoUnique. read_only. Qed.
Lemma ReadOnly_validateAccountWithContactType t entries slug ctype :
  ReadOnly t (validateAccountWithContactType t entries slug ctype).
Proof. unfold validateAccountWithContactType. read_only. Qed.
#[local] Hint Resolve ReadOnly_validateAccountWithContactType : readonly.
Lemma ReadOnly_dynamicValidateAccountsWithContactType t entries :
  ReadOnly t (dynamicValidateAccountsWithContactType t entries).
Proof. unfold dynamicValidateAccountsWithContactType. read_only. Qed.
Lemma ReadOnly_validateContactsExistance t dto :
  ReadOnly t (validateContactsExistance t dto).
Proof. unfold validateContactsExistance. read_only. Qed.
Lemma ReadOnly_transformNewDTOToModel t dto user :
  ReadOnly t (transformNewDTOToModel t dto user).
Proof. unfold transformNewDTOToModel. read_only. Qed.
Lemma ReadOnly_transformEditDTOToModel t dto old :
  ReadOnly t (transformEditDTOToModel dto old).
Proof. unfold transformEditDTOToModel. read_only. Qed.

Lemma ReadOnly_editUniqueRule t id dto : ReadOnly t (editUniqueRule t id dto).
Proof.
  unfold editUniqueRule. read_only; apply ReadOnly_validateManualJournalNoUnique.
Qed.
#[local] Hint Resolve ReadOnly_getManualJournalOrThrowError
  ReadOnly_getManualJournalsOrThrowError ReadOnly_validateAccountsExistance
  ReadOnly_validateManualJournalNoUnique
  ReadOnly_dynamicValidateAccountsWithContactType
  ReadOnly_validateContactsExistance ReadOnly_transformNewDTOToModel
  ReadOnly_transformEditDTOToModel ReadOnly_editUniqueRule : readonly.

Lemma ReadOnly_validateNew t dto user : ReadOnly t (validateNew t dto user).
Proof. unfold validateNew. read_only. Qed.

Lemma ReadOnly_validateEdit t id dto : ReadOnly t (validateEdit t id dto).
Proof. unfold validateEdit. read_only. Qed.

(** Stepping through a chain of binds: case on the outcome of the head. *)
Ltac step :=
  rewrite ?bind_run;
  match goal with
  | |- context [match ?m ?w with _ => _ end] =>
      let r := fresh "r" in let w' := fresh "w" in
      destruct (m w) as [r w'] eqn:?; destruct r; try reflexivity
  end.

Lemma makeJournalEntries_split t dto user w :
  makeJournalEntries t dto user w
  = (validateNew t dto user ≫= persistNew t) w.
Proof.
  unfold makeJournalEntries, validateNew, persistNew.
  do 6 step.
Qed.

Lemma editJournalEntries_split t id dto user w :
  editJournalEntries t id dto user w
  = (validateEdit t id dto ≫= persistEdit t id) w.
Proof.
  unfold editJournalEntries, validateEdit, persistEdit.
  fold (editUniqueRule t id dto).
  do 7 step.
Qed.

(** *** What the reads and the transforms compute *)

Lemma sameTables_addTrace w ops t : tenancy (addTrace w ops) t = tenancy w t.
Proof. reflexivity. Qed.

Lemma tenancy_setTables w t tables : tenancy (setTables w t tables) t = tables.
Proof. unfold setTables; cbn. by rewrite Z.eqb_refl. Qed.

Lemma findJournalById_run t id w :
  findJournalById t id w
  = (Resolved (match manualJournals (tenancy w t) !! id with
               | Some row => Some (withGraphFetched (tenancy w t) (id, row))
               | None => None
               end),
     addTrace w [(t, QJournalById id)]).
Proof. reflexivity. Qed.

Lemma getManualJournalOrThrowError_run t id w :
  getManualJournalOrThrowError t id w
  = (match manualJournals (tenancy w t) !! id with
     | Some row => Resolved (withGraphFetched (tenancy w t) (id, row))
     | None => Rejected NOT_FOUND
     end,
     addTrace w [(t, QJournalById id)]).
Proof.
  unfold getManualJournalOrThrowError.
  rewrite bind_run, findJournalById_run. cbn [tenancy addTrace].
  by destruct (manualJournals (tenancy w t) !! id).
Qed.

(** The graph [transformNewDTOToModel] builds once a journal number is
    resolved. *)
Lemma transformNewDTOToModel_run t dto user w :
  let journalNumber :=
    Js.orElseStr (dto_journalNumber dto)
      (nextTransactionNumber (tenancy w t)) in
  transformNewDTOToModel t dto user w
  = (if Js.truthyOptStr journalNumber
     then Resolved
            {| g_id := None;
               g_journalNumber := journalNumber;
               g_date := formatYMD (dto_date dto);
               g_currencyCode := dto_currencyCode dto;
               g_publishedAt :=
                 if dto_publish dto then Some (now w) else None;
               g_amount :=
                 Lodash.orZero (Lodash.sumBy (dto_entries dto) e_credit);
               g_userId := Some (user_id user);
               g_entries := dto_entries dto |}
     else Rejected MANUAL_JOURNAL_NO_REQUIRED,
     addTrace w [(t, QNextTransactionNumber)]).
Proof.
  intros journalNumber. unfold transformNewDTOToModel.
  rewrite bind_run. unfold getNextJournalNumber.
  change ((issue t QNextTransactionNumber;;
           t0 ← models t; mret (nextTransactionNumber t0)) w)
    with (Resolved (nextTransactionNumber (tenancy w t)),
          addTrace w [(t, QNextTransactionNumber)]).
  cbv beta iota zeta. fold journalNumber.
  rewrite bind_run. unfold liftSync, validateJournalNoRequire.
  by destruct (Js.truthyOptStr journalNumber).
Qed.

Lemma transformEditDTOToModel_run dto old w :
  transformEditDTOToModel dto old w
  = (Resolved
       {| g_id := Some (mj_id old);
          g_journalNumber := dto_journalNumber dto;
          g_date := formatYMD (dto_date dto);
          g_currencyCode := dto_currencyCode dto;
          g_publishedAt :=
            if dto_publish dto && negb (truthyDateTime (mj_publishedAt old))
            then Some (now w) else None;
          g_amount :=
            Lodash.orZero (Lodash.sumBy (dto_entries dto) e_credit);
          g_userId := None;
          g_entries := dto_entries dto |},
     w).
Proof. reflexivity. Qed.

(** An insert always goes through; the event follows the write. *)
Lemma persistNew_run t g w :
  g_id g = None →
  let tables := tenancy w t in
  let id := nextJournalId tables in
  persistNew t g w
  = (Resolved {| mj_id := id; mj_row := insertedRow g;
                 mj_entries := g_entries g |},
     addTrace
       (setTables (addTrace w [(t, WUpsertGraph g)]) t
          (setJournals tables (<[id := insertedRow g]> (manualJournals tables))
             (manualJournalEntries tables
              ++ List.map (mkEntryRow id) (g_entries g))
             (id + 1)))
       [(t, EDispatch (onCreated id))]).
Proof.
  intros Hid tables id. unfold persistNew, upsertGraph.
  rewrite !bind_run. cbn [issue models]. rewrite !bind_run.
  cbn [models tenancy addTrace]. rewrite Hid. reflexivity.
Qed.

(** An update of a stored journal goes through, and the journal read
    back is the patched row with the graph's entries. *)
Lemma persistEdit_run t id g old oldRow w :
  g_id g = Some id →
  manualJournals (tenancy w t) !! id = Some oldRow →
  let tables := tenancy w t in
  let tables' :=
    setJournals tables (<[id := patchedRow oldRow g]> (manualJournals tables))
      (List.filter (fun r => negb (er_manualJournalId r =? id))
         (manualJournalEntries tables)
       ++ List.map (mkEntryRow id) (g_entries g))
      (nextJournalId tables) in
  persistEdit t id (g, old) w
  = (Resolved (Some (withGraphFetched tables' (id, patchedRow oldRow g)), old),
     addTrace
       (setTables (addTrace w [(t, WUpsertGraph g)]) t tables')
       [(t, QJournalById id); (t, EDispatch (onEdited id))]).
Proof.
  intros Hid Hold tables tables'. unfold persistEdit, upsertGraph.
  rewrite !bind_run. cbn [issue models fst snd]. rewrite !bind_run.
  cbn [models tenancy addTrace]. rewrite Hid, Hold.
  unfold mbind, async_bind, mret, async_ret, storeModels; cbv beta iota.
  rewrite findJournalById_run, tenancy_setTables.
  cbn [manualJournals setJournals]. rewrite lookup_insert_eq.
  unfold dispatch, issue; cbv beta iota. by rewrite addTrace_app.
Qed.

(** *** The two halves of create and edit *)

Lemma ReadOnly_run {A : Type} t (m : Async A) w :
  ReadOnly t m → ∃ ops, (m w).2 = addTrace w ops ∧ noWrites ops = true.
Proof.
  intros Hm. destruct (Hm w w (agree_refl t w)) as (r & ops & H & _ & Hops).
  exists ops. by rewrite H.
Qed.

Lemma ReadOnly_outcome {A : Type} t (m : Async A) w ops0 :
  ReadOnly t m → (m (addTrace w ops0)).1 = (m w).1.
Proof.
  intros Hm.
  destruct (Hm w (addTrace w ops0)) as (r & ops & H1 & H2 & _).
  { by repeat split. }
  by rewrite H1, H2.
Qed.

Lemma bind_at_resolved {A B : Type} t (m : Async A) (k : A → Async B)
  w ops0 a :
  ReadOnly t m → (m w).1 = Resolved a →
  ∃ ops1, (m ≫= k) (addTrace w ops0) = k a (addTrace w ops1).
Proof.
  intros Hm Ha.
  destruct (Hm w (addTrace w ops0)) as (r & ops & H1 & H2 & _).
  { by repeat split. }
  rewrite H1 in Ha. cbn in Ha. subst r.
  exists (ops0 ++ ops). by rewrite bind_run, H2, addTrace_app.
Qed.

Lemma bind_at_rejected {A B : Type} t (m : Async A) (k : A → Async B)
  w ops0 e :
  ReadOnly t m → (m w).1 = Rejected e →
  ∃ ops1, (m ≫= k) (addTrace w ops0) = (Rejected e, addTrace w ops1).
Proof.
  intros Hm He.
  destruct (Hm w (addTrace w ops0)) as (r & ops & H1 & H2 & _).
  { by repeat split. }
  rewrite H1 in He. cbn in He. subst r.
  exists (ops0 ++ ops). by rewrite bind_run, H2, addTrace_app.
Qed.

(** Stepping over a read-only stage whose outcome at [w] is known. *)
Ltac pass_stage t Hro Hok :=
  match goal with
  | |- context [(?m ≫= ?k) (addTrace ?w ?ops0)] =>
      let ops := fresh "ops" in
      destruct (bind_at_resolved t m k w ops0 _ Hro Hok) as (ops & ->)
  end.

Ltac fail_stage t Hro Hko :=
  match goal with
  | |- context [(?m ≫= ?k) (addTrace ?w ?ops0)] =>
      let ops := fresh "ops" in
      destruct (bind_at_rejected t m k w ops0 _ Hro Hko) as (ops & ->)
  end.

(** The same inside a hypothesis about a run that resolved. *)
Ltac stage_in H t Hro :=
  match type of H with
  | (?m ≫= ?k) (addTrace ?w ?ops0) = _ =>
      let E := fresh "E" in
      let ops := fresh "ops" in
      let Heq := fresh "Heq" in
      destruct ((m w).1) as [[]|?] eqn:E;
      [ destruct (bind_at_resolved t m k w ops0 tt Hro E) as (ops & Heq);
        rewrite Heq in H; clear Heq
      | destruct (bind_at_rejected t m k w ops0 _ Hro E) as (ops & Heq);
        rewrite Heq in H; discriminate H ]
  end.

Ltac inv_step H :=
  rewrite bind_run in H;
  match type of H with
  | match ?m ?w with _ => _ end = _ =>
      let r := fresh "r" in
      let w' := fresh "w" in
      let E := fresh "E" in
      destruct (m w) as [r w'] eqn:E; destruct r; [|discriminate H]
  end.

Lemma validateNew_inv t dto user w g w1 :
  validateNew t dto user w = (Resolved g, w1) →
  transformNewDTOToModel t dto user w
  = (Resolved g, addTrace w [(t, QNextTransactionNumber)])
  ∧ valdiateCreditDebitTotalEquals dto = Resolved tt
  ∧ ∃ ops, w1 = addTrace w ops ∧ noWrites ops = true.
Proof.
  intros H. split; [|split].
  - unfold validateNew in H. inv_step H.
    pose proof (transformNewDTOToModel_run t dto user w) as Hrun.
    cbv zeta in Hrun. rewrite Hrun in E.
    do 5 inv_step H. injection H as <- _.
    destruct (Js.truthyOptStr _); [|discriminate E].
    by injection E as <- <-.
  - unfold validateNew in H. do 2 inv_step H.
    unfold liftSync in E0. injection E0 as E0 _.
    destruct (valdiateCreditDebitTotalEquals dto) as [[]|]; done.
  - destruct (ReadOnly_run t (validateNew t dto user) w) as (ops & Hw & Hops).
    { apply ReadOnly_validateNew. }
    rewrite H in Hw. by exists ops.
Qed.

Lemma validateEdit_inv t id dto w g old w1 :
  validateEdit t id dto w = (Resolved (g, old), w1) →
  (∃ row, manualJournals (tenancy w t) !! id = Some row
          ∧ old = withGraphFetched (tenancy w t) (id, row))
  ∧ transformEditDTOToModel dto old w = (Resolved g, w)
  ∧ valdiateCreditDebitTotalEquals dto = Resolved tt
  ∧ ∃ ops, w1 = addTrace w ((t, QJournalById id) :: ops)
           ∧ noWrites ops = true.
Proof.
  intros H. unfold validateEdit in H.
  rewrite bind_run, getManualJournalOrThrowError_run in H.
  destruct (manualJournals (tenancy w t) !! id) as [row|] eqn:Hrow;
    [|discriminate H].
  set (old0 := withGraphFetched (tenancy w t) (id, row)) in *.
  set (w0 := addTrace w [(t, QJournalById id)]) in *.
  pose proof H as H'.
  rewrite bind_run, transformEditDTOToModel_run in H.
  do 5 inv_step H. injection H as <- <- <-.
  split; [by exists row|]. split; [|split].
  - by rewrite !transformEditDTOToModel_run.
  - unfold liftSync in E. injection E as E _.
    destruct (valdiateCreditDebitTotalEquals dto) as [[]|]; done.
  - match type of H' with ?m w0 = _ =>
      destruct (ReadOnly_run t m w0) as (ops & Hw & Hops) end.
    { read_only. }
    rewrite H' in Hw. cbn in Hw. exists ops. split; [|done].
    rewrite Hw. unfold w0. by rewrite addTrace_app.
Qed.

(** A rejected create or edit was rejected by its validation half; the
    world then only gained non-writing calls on its trace. *)
Lemma makeJournalEntries_rejected t dto user w e w' :
  makeJournalEntries t dto user w = (Rejected e, w') →
  ∃ ops, w' = addTrace w ops ∧ noWrites ops = true.
Proof.
  rewrite makeJournalEntries_split, bind_run. intros H.
  destruct (validateNew t dto user w) as [[g|e0] w1] eqn:Hv.
  - apply validateNew_inv in Hv as (Ht & _ & _).
    rewrite transformNewDTOToModel_run in Ht. cbv zeta in Ht.
    destruct (Js.truthyOptStr _); [|discriminate Ht].
    injection Ht as <-. rewrite persistNew_run in H by done.
    discriminate H.
  - injection H as <- <-.
    destruct (ReadOnly_run t (validateNew t dto user) w) as (ops & Hw & Hops).
    { apply ReadOnly_validateNew. }
    rewrite Hv in Hw. by exists ops.
Qed.

Lemma editJournalEntries_rejected t id dto user w e w' :
  editJournalEntries t id dto user w = (Rejected e, w') →
  ∃ ops, w' = addTrace w ((t, QJournalById id) :: ops)
         ∧ noWrites ops = true.
Proof.
  rewrite editJournalEntries_split, bind_run. intros H.
  destruct (validateEdit t id dto w) as [[[g old]|e0] w1] eqn:Hv.
  - apply validateEdit_inv in Hv
      as ((row & Hrow & Hold) & Ht & _ & ops & -> & Hops).
    rewrite transformEditDTOToModel_run in Ht. injection Ht as <-.
    erewrite persistEdit_run in H; [discriminate H | by rewrite Hold |].
    exact Hrow.
  - injection H as <- <-. unfold validateEdit in Hv.
    rewrite bind_run, getManualJournalOrThrowError_run in Hv.
    destruct (manualJournals (tenancy w t) !! id) as [row|] eqn:Hrow.
    + match type of Hv with ?m ?w0 = _ =>
        destruct (ReadOnly_run t m w0) as (ops & Hw & Hops) end.
      { read_only. }
      rewrite Hv in Hw. cbn in Hw. exists ops. split; [|done].
      by rewrite Hw, addTrace_app.
    + injection Hv as <- <-. by exists [].
Qed.

(** A validation half that resolved had every rule pass. *)
Lemma validateNew_rules t dto user w g w1 :
  validateNew t dto user w = (Resolved g, w1) →
  ∃ n, g_journalNumber g = Some n
       ∧ allRulesPass t dto (validateManualJournalNoUnique t n None) w.
Proof.
  intros H. unfold validateNew in H.
  rewrite bind_run, transformNewDTOToModel_run in H. cbv zeta in H.
  destruct (Js.orElseStr (dto_journalNumber dto)
              (nextTransactionNumber (tenancy w t))) as [n|] eqn:Hn;
    [|discriminate H].
  destruct (Js.truthyOptStr (Some n)); [|discriminate H].
  rewrite bind_run in H. unfold liftSync in H.
  destruct (valdiateCreditDebitTotalEquals dto) as [[]|e] eqn:Hbal;
    [|discriminate H].
  stage_in H t (ReadOnly_validateContactsExistance t dto).
  stage_in H t (ReadOnly_validateAccountsExistance t dto).
  cbn [g_journalNumber] in H.
  stage_in H t (ReadOnly_validateManualJournalNoUnique t n None).
  stage_in H t (ReadOnly_dynamicValidateAccountsWithContactType t
                  (dto_entries dto)).
  injection H as <- _. exists n. by repeat split.
Qed.

Lemma validateEdit_rules t id dto w g old w1 :
  validateEdit t id dto w = (Resolved (g, old), w1) →
  allRulesPass t dto (editUniqueRule t id dto) w.
Proof.
  intros H. unfold validateEdit in H.
  rewrite bind_run, getManualJournalOrThrowError_run in H.
  destruct (manualJournals (tenancy w t) !! id) as [row|];
    [|discriminate H].
  rewrite bind_run, transformEditDTOToModel_run in H.
  rewrite bind_run in H. unfold liftSync in H.
  destruct (valdiateCreditDebitTotalEquals dto) as [[]|e] eqn:Hbal;
    [|discriminate H].
  stage_in H t (ReadOnly_validateContactsExistance t dto).
  stage_in H t (ReadOnly_validateAccountsExistance t dto).
  stage_in H t (ReadOnly_editUniqueRule t id dto).
  stage_in H t (ReadOnly_dynamicValidateAccountsWithContactType t
                  (dto_entries dto)).
  by repeat split.
Qed.

(** A create that resolved: what was written, and where. *)
Lemma makeJournalEntries_resolved t dto user w j w' :
  makeJournalEntries t dto user w = (Resolved j, w') →
  ∃ g ops,
    transformNewDTOToModel t dto user w
    = (Resolved g, addTrace w [(t, QNextTransactionNumber)])
    ∧ valdiateCreditDebitTotalEquals dto = Resolved tt
    ∧ noWrites ops = true
    ∧ j = {| mj_id := nextJournalId (tenancy w t);
             mj_row := insertedRow g;
             mj_entries := g_entries g |}
    ∧ w' = addTrace
             (setTables (addTrace w (ops ++ [(t, WUpsertGraph g)])) t
                (setJournals (tenancy w t)
                   (<[nextJournalId (tenancy w t) := insertedRow g]>
                      (manualJournals (tenancy w t)))
                   (manualJournalEntries (tenancy w t)
                    ++ List.map (mkEntryRow (nextJournalId (tenancy w t)))
                         (g_entries g))
                   (nextJournalId (tenancy w t) + 1)))
             [(t, EDispatch (onCreated (nextJournalId (tenancy w t))))].
Proof.
  rewrite makeJournalEntries_split, bind_run. intros H.
  destruct (validateNew t dto user w) as [[g|e0] w1] eqn:Hv;
    [|discriminate H].
  apply validateNew_inv in Hv as (Ht & Hbal & ops & -> & Hops).
  exists g, ops. repeat (split; [done|]).
  assert (Hid : g_id g = None).
  { rewrite transformNewDTOToModel_run in Ht. cbv zeta in Ht.
    destruct (Js.truthyOptStr _); [|discriminate Ht]. by injection Ht as <-. }
  rewrite persistNew_run in H by done. cbv zeta in H.
  rewrite addTrace_app, sameTables_addTrace in H.
  by injection H as <- <-.
Qed.

(** An edit that resolved. *)
Lemma editJournalEntries_resolved t id dto user w j old w' :
  editJournalEntries t id dto user w = (Resolved (j, old), w') →
  ∃ oldRow g ops tables',
    manualJournals (tenancy w t) !! id = Some oldRow
    ∧ old = withGraphFetched (tenancy w t) (id, oldRow)
    ∧ transformEditDTOToModel dto old w = (Resolved g, w)
    ∧ valdiateCreditDebitTotalEquals dto = Resolved tt
    ∧ noWrites ops = true
    ∧ tables'
      = setJournals (tenancy w t)
          (<[id := patchedRow oldRow g]> (manualJournals (tenancy w t)))
          (List.filter (fun r => negb (er_manualJournalId r =? id))
             (manualJournalEntries (tenancy w t))
           ++ List.map (mkEntryRow id) (g_entries g))
          (nextJournalId (tenancy w t))
    ∧ j = Some (withGraphFetched tables' (id, patchedRow oldRow g))
    ∧ w' = addTrace
             (setTables
                (addTrace w ((t, QJournalById id) :: ops
                             ++ [(t, WUpsertGraph g)])) t tables')
             [(t, QJournalById id); (t, EDispatch (onEdited id))].
Proof.
  rewrite editJournalEntries_split, bind_run. intros H.
  destruct (validateEdit t id dto w) as [[[g old0]|e0] w1] eqn:Hv;
    [|discriminate H].
  apply validateEdit_inv in Hv
    as ((row & Hrow & Hold) & Ht & Hbal & ops & -> & Hops).
  assert (Hid : g_id g = Some id).
  { rewrite transformEditDTOToModel_run in Ht. injection Ht as <-.
    by rewrite Hold. }
  erewrite persistEdit_run in H; [|exact Hid|exact Hrow].
  cbv zeta in H. rewrite addTrace_app, sameTables_addTrace in H.
  injection H as <- <- <-.
  exists row, g, ops. eexists. repeat (split; [done|]). done.
Qed.

Lemma makeJournalEntries_rules t dto user w j w' :
  makeJournalEntries t dto user w = (Resolved j, w') →
  ∃ n, mj_journalNumber j = Some n
       ∧ allRulesPass t dto (validateManualJournalNoUnique t n None) w.
Proof.
  intros H. pose proof H as Hres.
  apply makeJournalEntries_resolved in Hres
    as (g & _ & Ht & _ & _ & -> & _).
  rewrite makeJournalEntries_split, bind_run in H.
  destruct (validateNew t dto user w) as [[g'|e0] w1] eqn:Hv;
    [|discriminate H].
  pose proof (validateNew_inv _ _ _ _ _ _ Hv) as (Ht' & _).
  rewrite Ht in Ht'. injection Ht' as <-.
  by apply validateNew_rules in Hv.
Qed.

Lemma editJournalEntries_rules t id dto user w r w' :
  editJournalEntries t id dto user w = (Resolved r, w') →
  allRulesPass t dto (editUniqueRule t id dto) w.
Proof.
  rewrite editJournalEntries_split, bind_run. intros H.
  destruct (validateEdit t id dto w) as [[[g old]|e0] w1] eqn:Hv;
    [|discriminate H].
  by apply validateEdit_rules in Hv.
Qed.

(** *** Sums *)

Lemma fold_totals entries : ∀ totalCredit totalDebit,
  fold_left
    (fun '(totalCredit, totalDebit) entry =>
       (addWhenPositive totalCredit (e_credit entry),
        addWhenPositive totalDebit (e_debit entry)))
    entries (totalCredit, totalDebit)
  = (totalCredit + sumPositiveCredits entries,
     totalDebit + sumPositiveDebits entries).
Proof.
  induction entries as [|e es IH]; intros tc td; cbn [fold_left].
  - unfold sumPositiveCredits, sumPositiveDebits; cbn. f_equal; lia.
  - rewrite IH. unfold sumPositiveCredits, sumPositiveDebits; cbn.
    unfold addWhenPositive, amountOf.
    destruct (e_credit e) as [c|], (e_debit e) as [d|]; cbn;
      repeat case_match; f_equal; lia.
Qed.

Lemma creditDebitTotals_sums entries :
  creditDebitTotals entries
  = (sumPositiveCredits entries, sumPositiveDebits entries).
Proof. unfold creditDebitTotals. by rewrite fold_totals. Qed.


Lemma baseSum_acc entries : ∀ acc,
  default 0
    (fold_left
       (fun result item =>
          match e_credit item with
          | None => result
          | Some current =>
              match result with
              | None => Some current
              | Some r => Some (r + current)
              end
          end)
       entries acc)
  = default 0 acc + sumCredits entries.
Proof.
  unfold sumCredits.
  induction entries as [|e es IH]; intros acc; cbn [fold_left List.map sumZ].
  - lia.
  - rewrite IH. unfold amountOf.
    destruct (e_credit e), acc; cbn; lia.
Qed.

(** [sumBy(entries, 'credit') || 0] is the plain sum of the credits. *)
Lemma amount_is_sumCredits entries :
  Lodash.orZero (Lodash.sumBy entries e_credit) = sumCredits entries.
Proof.
  assert (Hor : ∀ v, Lodash.orZero v = default 0 v).
  { intros [n|]; cbn; [|done]. unfold Js.truthyNum.
    destruct (Z.eqb_spec n 0); cbn; lia. }
  rewrite Hor. destruct entries as [|e es]; [done|].
  unfold Lodash.sumBy, Lodash.baseSum. by rewrite baseSum_acc.
Qed.

Lemma balance_passed dto :
  valdiateCreditDebitTotalEquals dto = Resolved tt →
  0 < sumPositiveCredits (dto_entries dto)
  ∧ sumPositiveCredits (dto_entries dto) = sumPositiveDebits (dto_entries dto).
Proof.
  unfold valdiateCreditDebitTotalEquals. rewrite creditDebitTotals_sums.
  intros H. repeat case_match; try discriminate H. lia.
Qed.

Lemma entriesOf_replaced tables js id entries next :
  entriesOf
    (setJournals tables js
       (List.filter (fun r => negb (er_manualJournalId r =? id))
          (manualJournalEntries tables)
        ++ List.map (mkEntryRow id) entries)
       next) id
  = entries.
Proof.
  unfold entriesOf; cbn [manualJournalEntries setJournals].
  rewrite List.filter_app, List.map_app.
  replace (List.filter (fun r => er_manualJournalId r =? id)
             (List.filter (fun r => negb (er_manualJournalId r =? id))
                (manualJournalEntries tables)))
    with (@nil ManualJournalEntryRow).
  - cbn [List.map app]. induction entries as [|e es IH]; [done|].
    cbn. rewrite Z.eqb_refl. cbn. by rewrite IH.
  - induction (manualJournalEntries tables) as [|r rs IH]; [done|].
    cbn. destruct (er_manualJournalId r =? id) eqn:E; cbn; [done|].
    by rewrite E.
Qed.


(** C4. Editing a stored journal never clears or changes a publishedAt
    that is already set, whatever the DTO's publish flag; an edit that
    goes through stamps publishedAt with the current time exactly when the
    DTO requests publish and the stored journal was not yet published, and
    leaves it as stored otherwise (as does an edit that is rejected). *)
Theorem edit_preserves_publishedAt
  (t id : Z) (dto : IManualJournalDTO) (user : ISystemUser) (w : World)
  (oldRow : ManualJournalRow) :
  manualJournals (tenancy w t) !! id = Some oldRow →
  ∃ row',
    manualJournals (tenancy (editJournalEntries t id dto user w).2 t) !! id
    = Some row'
    ∧ row_publishedAt row'
      = match (editJournalEntries t id dto user w).1 with
        | Resolved _ =>
            if dto_publish dto
               && negb (truthyDateTime (row_publishedAt oldRow))
            then Some (now w)
            else row_publishedAt oldRow
        | Rejected _ => row_publishedAt oldRow
        end
    ∧ (is_Some (row_publishedAt oldRow) →
       row_publishedAt row' = row_publishedAt oldRow).
Proof.
  intros Hrow.
  destruct (editJournalEntries t id dto user w) as [[[j old]|e] w'] eqn:H.
  - apply editJournalEntries_resolved in H
      as (oldRow' & g & ops & tables' & Hrow' & Hold & Ht & _ & _
          & Htab & _ & ->).
    rewrite Hrow in Hrow'. injection Hrow' as <-.
    rewrite transformEditDTOToModel_run in Ht. injection Ht as <-.
    subst tables' old. exists (patchedRow oldRow
      {| g_id := Some id;
         g_journalNumber := dto_journalNumber dto;
         g_date := formatYMD (dto_date dto);
         g_currencyCode := dto_currencyCode dto;
         g_publishedAt :=
           if dto_publish dto
              && negb (truthyDateTime (row_publishedAt oldRow))
           then Some (now w) else None;
         g_amount := Lodash.orZero (Lodash.sumBy (dto_entries dto) e_credit);
         g_userId := None;
         g_entries := dto_entries dto |}).
    cbn [fst snd]. rewrite sameTables_addTrace, tenancy_setTables.
    cbn [manualJournals setJournals withGraphFetched mj_id fst snd].
    split; [apply lookup_insert_eq|].
    cbn [patchedRow row_publishedAt g_publishedAt].
    unfold mj_publishedAt; cbn [mj_row withGraphFetched snd].
    split.
    + by destruct (dto_publish dto), (row_publishedAt oldRow).
    + intros [d Hd]. rewrite Hd. cbn. by rewrite andb_false_r.
  - apply editJournalEntries_rejected in H as (ops & -> & _).
    exists oldRow. cbn [fst snd]. by rewrite sameTables_addTrace.
Qed.

(** C9. Within create and edit no write is issued before the whole
    validation has passed: a rejected operation leaves the tenants' tables
    as they were and its trace holds no write; in an operation that goes
    through, the write comes after every validation query and every
    validation rule passes on the world the operation started in. On edit
    the journal is looked up by id before anything else, and an absent
    journal ends the operation with NOT_FOUND, whatever the DTO, with no
    other call issued. *)
Theorem validation_precedes_persistence
  (t : Z) (dto : IManualJournalDTO) (user : ISystemUser) (w : World) :
  (∃ reads,
     noWrites reads = true
     ∧ match makeJournalEntries t dto user w with
       | (Rejected _, w') =>
           tenancy w' = tenancy w ∧ trace w' = trace w ++ reads
       | (Resolved j, w') =>
           (∃ g, trace w'
                 = trace w ++ reads
                   ++ [(t, WUpsertGraph g);
                       (t, EDispatch (onCreated (mj_id j)))])
           ∧ ∃ n, mj_journalNumber j = Some n
                  ∧ allRulesPass t dto
                      (validateManualJournalNoUnique t n None) w
       end)
  ∧ (∀ id, ∃ reads,
       noWrites reads = true
       ∧ match editJournalEntries t id dto user w with
         | (Rejected _, w') =>
             tenancy w' = tenancy w
             ∧ trace w' = trace w ++ (t, QJournalById id) :: reads
         | (Resolved _, w') =>
             (∃ g, trace w'
                   = trace w ++ (t, QJournalById id) :: reads
                     ++ [(t, WUpsertGraph g); (t, QJournalById id);
                         (t, EDispatch (onEdited id))])
             ∧ allRulesPass t dto (editUniqueRule t id dto) w
         end)
  ∧ (∀ id,
       manualJournals (tenancy w t) !! id = None →
       editJournalEntries t id dto user w
       = (Rejected NOT_FOUND, addTrace w [(t, QJournalById id)])).
Proof.
  split; [|split].
  - destruct (makeJournalEntries t dto user w) as [[j|e] w'] eqn:H.
    + pose proof (makeJournalEntries_rules _ _ _ _ _ _ H) as Hrules.
      apply makeJournalEntries_resolved in H
        as (g & ops & _ & _ & Hops & -> & ->).
      exists ops. split; [done|]. split; [|exact Hrules].
      exists g. cbn. by rewrite <- !app_assoc.
    + apply makeJournalEntries_rejected in H as (ops & -> & Hops).
      by exists ops.
  - intros id.
    destruct (editJournalEntries t id dto user w) as [[[j old]|e] w'] eqn:H.
    + pose proof (editJournalEntries_rules _ _ _ _ _ _ _ H) as Hrules.
      apply editJournalEntries_resolved in H
        as (oldRow & g & ops & tables' & _ & _ & _ & _ & Hops & _ & _ & ->).
      exists ops. split; [done|]. split; [|exact Hrules].
      exists g. cbn.
      repeat (rewrite <- app_assoc || rewrite <- app_comm_cons). done.
    + apply editJournalEntries_rejected in H as (ops & -> & Hops).
      by exists ops.
  - intros id Hnone. unfold editJournalEntries.
    by rewrite bind_run, getManualJournalOrThrowError_run, Hnone.
Qed.

(** *** Bulk resolution of journals *)

Lemma includes_spec x (l : list Z) : Js.includes x l = true ↔ x ∈ l.
Proof.
  unfold Js.includes. rewrite existsb_exists, list_elem_of_In. split.
  - intros (y & Hy & Heq). apply Z.eqb_eq in Heq. by subst.
  - intros Hx. exists x. by rewrite Z.eqb_refl.
Qed.

Lemma includes_false x (l : list Z) : Js.includes x l = false ↔ x ∉ l.
Proof.
  rewrite <- includes_spec. destruct (Js.includes x l); naive_solver.
Qed.

Lemma positive_length_false {A : Type} (l : list A) :
  (0 <? Z.of_nat (length l)) = false ↔ l = [].
Proof.
  destruct l; cbn [length]; [done|].
  split; [|done]. intros H. apply Z.ltb_ge in H. lia.
Qed.

Lemma difference_nil (array values : list Z) :
  Lodash.difference array values = []
  ↔ ∀ x, x ∈ array → Js.includes x values = true.
Proof.
  unfold Lodash.difference. induction array as [|a l IH]; cbn [List.filter].
  - split; [|done]. intros _ x Hx. by apply elem_of_nil in Hx.
  - destruct (Js.includes a values) eqn:Ha; cbn [negb].
    + rewrite IH. split.
      * intros H x Hx. apply elem_of_cons in Hx as [->|Hx]; auto.
      * intros H x Hx. apply H. by right.
    + split; [done|]. intros H. specialize (H a (list_elem_of_here a l)).
      congruence.
Qed.

Lemma elem_of_foundJournals tables ids j :
  j ∈ foundJournals tables ids
  ↔ ∃ id row, j = withGraphFetched tables (id, row)
              ∧ manualJournals tables !! id = Some row ∧ id ∈ ids.
Proof.
  unfold foundJournals.
  change (List.map (withGraphFetched tables)) with (fmap (M:=list) (withGraphFetched tables)).
  rewrite list_elem_of_fmap. split.
  - intros ([id row] & -> & Hin).
    apply elem_of_rowsById, map_lookup_filter_Some in Hin as [Hrow Hid].
    exists id, row. by rewrite <- includes_spec.
  - intros (id & row & -> & Hrow & Hid). exists (id, row). split; [done|].
    apply elem_of_rowsById, map_lookup_filter_Some.
    by rewrite <- includes_spec in Hid.
Qed.

Lemma foundJournals_ids tables ids x :
  Js.includes x (List.map mj_id (foundJournals tables ids)) = true
  ↔ x ∈ ids ∧ is_Some (manualJournals tables !! x).
Proof.
  rewrite includes_spec.
  change (List.map mj_id) with (fmap (M:=list) mj_id).
  rewrite list_elem_of_fmap. setoid_rewrite elem_of_foundJournals. split.
  - intros (j & -> & id & row & -> & Hrow & Hid). by cbn.
  - intros (Hid & row & Hrow).
    exists (withGraphFetched tables (x, row)). split; [done|]. by exists x, row.
Qed.

Lemma getManualJournalsOrThrowError_found t ids w :
  (∀ id, id ∈ ids → is_Some (manualJournals (tenancy w t) !! id)) →
  getManualJournalsOrThrowError t ids w
  = (Resolved (foundJournals (tenancy w t) ids),
     addTrace w [(t, QJournalsWhereIn ids)]).
Proof.
  intros Hall. unfold getManualJournalsOrThrowError.
  rewrite bind_run.
  change (findJournalsWhereIn t ids w)
    with (Resolved (foundJournals (tenancy w t) ids),
          addTrace w [(t, QJournalsWhereIn ids)]).
  cbv beta iota zeta.
  replace (Lodash.difference ids
             (List.map mj_id (foundJournals (tenancy w t) ids)))
    with (@nil Z); [done|].
  symmetry. apply difference_nil. intros x Hx.
  apply foundJournals_ids. auto.
Qed.

Lemma getManualJournalsOrThrowError_missing t ids w id :
  id ∈ ids → manualJournals (tenancy w t) !! id = None →
  getManualJournalsOrThrowError t ids w
  = (Rejected NOT_FOUND, addTrace w [(t, QJournalsWhereIn ids)]).
Proof.
  intros Hid Hnone. unfold getManualJournalsOrThrowError.
  rewrite bind_run.
  change (findJournalsWhereIn t ids w)
    with (Resolved (foundJournals (tenancy w t) ids),
          addTrace w [(t, QJournalsWhereIn ids)]).
  cbv beta iota zeta.
  destruct (0 <? Z.of_nat (length (Lodash.difference ids
              (List.map mj_id (foundJournals (tenancy w t) ids))))) eqn:E;
    [done|].
  apply positive_length_false in E.
  pose proof (proj1 (difference_nil _ _) E id Hid) as Hinc.
  apply foundJournals_ids in Hinc as [_ [row Hrow]]. congruence.
Qed.

(** C6. Bulk delete is all-or-nothing. If some id of the request does not
    resolve to a stored journal the operation is rejected with NOT_FOUND,
    no delete is issued and the tables are as before. If every id
    resolves, the entries of the journals are deleted first, then the
    journals; afterwards none of the requested journals nor any of their
    entries is stored, and every other journal is as before. *)
Theorem bulk_delete_all_or_nothing (t : Z) (ids : list Z) (w : World) :
  (∀ id,
     id ∈ ids → manualJournals (tenancy w t) !! id = None →
     ∃ w',
       deleteManualJournals t ids w = (Rejected NOT_FOUND, w')
       ∧ tenancy w' = tenancy w
       ∧ trace w' = trace w ++ [(t, QJournalsWhereIn ids)])
  ∧ ((∀ id, id ∈ ids → is_Some (manualJournals (tenancy w t) !! id)) →
     ∃ old w',
       deleteManualJournals t ids w = (Resolved old, w')
       ∧ trace w'
         = trace w
           ++ [(t, QJournalsWhereIn ids); (t, WDeleteEntries ids);
               (t, WDeleteJournals ids); (t, EDispatch (onDeletedBulk ids))]
       ∧ (∀ id, id ∈ ids →
            manualJournals (tenancy w' t) !! id = None
            ∧ entriesOf (tenancy w' t) id = [])
       ∧ (∀ id, id ∉ ids →
            manualJournals (tenancy w' t) !! id
            = manualJournals (tenancy w t) !! id
            ∧ entriesOf (tenancy w' t) id = entriesOf (tenancy w t) id)).
Proof.
  split.
  - intros id Hid Hnone. eexists. unfold deleteManualJournals.
    rewrite bind_run, (getManualJournalsOrThrowError_missing t ids w id)
      by done.
    by repeat split.
  - intros Hall. unfold deleteManualJournals.
    rewrite bind_run, getManualJournalsOrThrowError_found by done.
    eexists _, _. split; [reflexivity|].
    split; [cbn [trace addTrace setTables]; by rewrite <- !app_assoc|].
    repeat (rewrite sameTables_addTrace || rewrite tenancy_setTables).
    cbn [manualJournals manualJournalEntries setJournals].
    split; intros id Hid.
    + split.
      * apply map_lookup_filter_None. right. intros row _. cbn.
        apply includes_spec in Hid. by rewrite Hid.
      * unfold entriesOf. cbn [manualJournalEntries setJournals].
        apply includes_spec in Hid.
        induction (manualJournalEntries (tenancy w t)) as [|r rs IH];
          [done|].
        cbn. destruct (Js.includes (er_manualJournalId r) ids) eqn:E; cbn;
          [done|].
        destruct (Z.eqb_spec (er_manualJournalId r) id) as [<-|]; [|done].
        congruence.
    + apply includes_false in Hid. split.
      * rewrite map_lookup_filter.
        destruct (manualJournals (tenancy w t) !! id) as [row|]; [|done].
        cbn. by rewrite option_guard_True.
      * unfold entriesOf. cbn [manualJournalEntries setJournals].
        f_equal.
        induction (manualJournalEntries (tenancy w t)) as [|r rs IH];
          [done|].
        cbn. destruct (Js.includes (er_manualJournalId r) ids) eqn:E; cbn.
        -- destruct (Z.eqb_spec (er_manualJournalId r) id) as [Heq|Hne];
             [congruence|done].
        -- destruct (er_manualJournalId r =? id); by rewrite ?IH.
Qed.

(** *** Publishing *)

Lemma filter_complement_length {A : Type} (f : A → bool) (l : list A) :
  (length (List.filter f l) + length (List.filter (fun x => negb (f x)) l)
   = length l)%nat.
Proof.
  induction l as [|x xs IH]; [done|].
  cbn. destruct (f x); cbn; lia.
Qed.

Lemma notPublished_ids tables ids id row :
  manualJournals tables !! id = Some row →
  Js.includes id
    (List.map mj_id
       (getNonePublishedManualJournals (foundJournals tables ids)))
  = Js.includes id ids && negb (truthyDateTime (row_publishedAt row)).
Proof.
  intros Hrow. apply eq_true_iff_eq.
  rewrite andb_true_iff, !includes_spec.
  change (List.map mj_id) with (fmap (M:=list) mj_id).
  rewrite list_elem_of_fmap. unfold getNonePublishedManualJournals.
  setoid_rewrite list_elem_of_In. setoid_rewrite filter_In.
  setoid_rewrite <- list_elem_of_In.
  setoid_rewrite elem_of_foundJournals. split.
  - intros (j & -> & (id' & row' & -> & Hrow' & Hid) & Hnp).
    cbn in Hrow'. cbn [mj_id withGraphFetched fst] in *.
    rewrite Hrow in Hrow'. injection Hrow' as <-. done.
  - intros [Hid Hnp]. exists (withGraphFetched tables (id, row)).
    split; [done|]. split; [|done]. by exists id, row.
Qed.

(** C3. A journal whose publishedAt is already set: the single-journal
    publish is rejected with MANUAL_JOURNAL_ALREADY_PUBLISHED and leaves
    the tables as they were (no write is issued); the bulk publish goes
    through, leaves that journal's row as it was, stamps publishedAt with
    the current time on exactly the requested journals not yet published
    (a requested draft is stored afterwards with publishedAt = now and
    its other columns as before, a journal that was not requested is
    stored as before), and returns counts with
    alreadyPublished + published = total. *)
Theorem publish_already_published (t : Z) (w : World) :
  (∀ id row,
     manualJournals (tenancy w t) !! id = Some row →
     is_Some (row_publishedAt row) →
     ∃ w',
       publishManualJournal t id w
       = (Rejected MANUAL_JOURNAL_ALREADY_PUBLISHED, w')
       ∧ tenancy w' = tenancy w
       ∧ trace w' = trace w ++ [(t, QJournalById id)])
  ∧ (∀ ids,
       (∀ id, id ∈ ids → is_Some (manualJournals (tenancy w t) !! id)) →
       ∃ meta w',
         publishManualJournals t ids w = (Resolved meta, w')
         ∧ alreadyPublished meta + published meta = total meta
         ∧ alreadyPublished meta
           = Z.of_nat
               (length (getPublishedManualJournals
                          (foundJournals (tenancy w t) ids)))
         ∧ published meta
           = Z.of_nat
               (length (getNonePublishedManualJournals
                          (foundJournals (tenancy w t) ids)))
         ∧ (∀ id row,
              manualJournals (tenancy w t) !! id = Some row →
              manualJournals (tenancy w' t) !! id
              = Some (if Js.includes id ids
                         && negb (truthyDateTime (row_publishedAt row))
                      then setPublishedAt row (now w)
                      else row))
         ∧ (∀ id row,
              manualJournals (tenancy w t) !! id = Some row →
              is_Some (row_publishedAt row) →
              manualJournals (tenancy w' t) !! id = Some row)
         ∧ (∀ id row,
              manualJournals (tenancy w t) !! id = Some row →
              id ∈ ids →
              row_publishedAt row = None →
              ∃ row',
                manualJournals (tenancy w' t) !! id = Some row'
                ∧ row_publishedAt row' = Some (now w)
                ∧ row_journalNumber row' = row_journalNumber row
                ∧ row_date row' = row_date row
                ∧ row_currencyCode row' = row_currencyCode row
                ∧ row_amount row' = row_amount row
                ∧ row_userId row' = row_userId row)
         ∧ (∀ id row,
              manualJournals (tenancy w t) !! id = Some row →
              id ∉ ids →
              manualJournals (tenancy w' t) !! id = Some row)).
Proof.
  split.
  - intros id row Hrow [d Hd]. eexists. unfold publishManualJournal.
    rewrite bind_run, getManualJournalOrThrowError_run, Hrow.
    rewrite bind_run. unfold liftSync, validateManualJournalIsNotPublished.
    unfold mj_publishedAt; cbn [mj_row withGraphFetched snd].
    rewrite Hd. cbn [truthyDateTime]. by repeat split.
  - intros ids Hall. unfold publishManualJournals.
    rewrite bind_run, getManualJournalsOrThrowError_found by done.
    set (found := foundJournals (tenancy w t) ids).
    assert (Hcount :
      Z.of_nat (length (getPublishedManualJournals found))
      + Z.of_nat (length (getNonePublishedManualJournals found))
      = Z.of_nat (length found)).
    { unfold getPublishedManualJournals, getNonePublishedManualJournals.
      rewrite <- (filter_complement_length
                    (fun j => truthyDateTime (mj_publishedAt j)) found).
      lia. }
    assert (Hrows : ∀ id row,
      manualJournals (tenancy w t) !! id = Some row →
      (if 0 <? Z.of_nat (length (getNonePublishedManualJournals found))
       then map_imap
              (fun k r =>
                 Some (if Js.includes k
                            (List.map mj_id
                               (getNonePublishedManualJournals found))
                       then setPublishedAt r (now w) else r))
              (manualJournals (tenancy w t))
       else manualJournals (tenancy w t)) !! id
      = Some (if Js.includes id ids
                 && negb (truthyDateTime (row_publishedAt row))
              then setPublishedAt row (now w) else row)).
    { intros id row Hrow.
      rewrite <- (notPublished_ids (tenancy w t) ids id row Hrow).
      fold found.
      destruct (0 <? Z.of_nat (length (getNonePublishedManualJournals found)))
        eqn:E.
      - by rewrite map_lookup_imap, Hrow.
      - apply positive_length_false in E. by rewrite E, Hrow. }
    destruct (0 <? Z.of_nat (length (getNonePublishedManualJournals found)))
      eqn:E.
    + eexists _, _. split; [reflexivity|]. cbn [alreadyPublished published total].
      repeat (rewrite sameTables_addTrace || rewrite tenancy_setTables).
      cbn [manualJournals setJournals].
      split; [done|]. split; [done|]. split; [done|].
      split; [exact Hrows|]. split; [|split].
      * intros id row Hrow [d Hd].
        etransitivity; [exact (Hrows id row Hrow)|].
        rewrite Hd. cbn. by rewrite andb_false_r.
      * intros id row Hrow Hin%includes_spec Hdraft.
        eexists. split; [exact (Hrows id row Hrow)|].
        rewrite Hin, Hdraft. by cbn.
      * intros id row Hrow Hout%includes_false.
        etransitivity; [exact (Hrows id row Hrow)|].
        by rewrite Hout.
    + eexists _, _. split; [reflexivity|]. cbn [alreadyPublished published total].
      repeat (rewrite sameTables_addTrace || rewrite tenancy_setTables).
      split; [done|]. split; [done|]. split; [done|].
      split; [exact Hrows|]. split; [|split].
      * intros id row Hrow [d Hd].
        etransitivity; [exact (Hrows id row Hrow)|].
        rewrite Hd. cbn. by rewrite andb_false_r.
      * intros id row Hrow Hin%includes_spec Hdraft.
        eexists. split; [exact (Hrows id row Hrow)|].
        rewrite Hin, Hdraft. by cbn.
      * intros id row Hrow Hout%includes_false.
        etransitivity; [exact (Hrows id row Hrow)|].
        by rewrite Hout.
Qed.

(** *** Contact type by account classification *)

Lemma strictEqOptStr_Some (o : option string) (s : string) :
  Js.strictEqOptStr o (Some s) = true ↔ o = Some s.
Proof.
  destruct o as [x|]; cbn; [|done].
  rewrite String.eqb_eq. naive_solver.
Qed.

Lemma hasNoValidContactType_alt ctype e :
  Js.truthyStr ctype = true →
  hasNoValidContactType ctype e
  = negb (Js.strictEqOptStr (e_contactType e) (Some ctype)).
Proof.
  intros Hct. unfold hasNoValidContactType.
  destruct (e_contactType e) as [x|] eqn:Ex; cbn; [|done].
  unfold Js.truthyStr in *. destruct (String.eqb_spec x ""); cbn; [|done].
  subst x. destruct (String.eqb_spec "" ctype); [|done].
  subst ctype. done.
Qed.

Lemma filter_filter_andb {A : Type} (f g : A → bool) (l : list A) :
  List.filter g (List.filter f l) = List.filter (fun x => f x && g x) l.
Proof.
  induction l as [|x xs IH]; [done|].
  cbn. destruct (f x); cbn; [destruct (g x)|]; by rewrite IH.
Qed.

(** Outcome of one classification check when the account of that slug is
    in the chart of accounts. *)
Lemma validateAccountWithContactType_run t entries slug ctype w account :
  List.find (fun a => String.eqb (acc_slug a) slug) (accounts (tenancy w t))
  = Some account →
  Js.truthyStr ctype = true →
  validateAccountWithContactType t entries slug ctype w
  = (match offendingEntries account ctype entries with
     | [] => Resolved tt
     | bad =>
         Rejected (ENTRIES_SHOULD_ASSIGN_WITH_CONTACT slug ctype
                     (List.map e_index bad))
     end,
     addTrace w [(t, QAccountBySlug slug)]).
Proof.
  intros Hacc Hct. unfold validateAccountWithContactType.
  rewrite bind_run.
  change (findAccountBySlug t slug w)
    with (Resolved
            (List.find (fun a => String.eqb (acc_slug a) slug)
               (accounts (tenancy w t))),
          addTrace w [(t, QAccountBySlug slug)]).
  rewrite Hacc. cbv beta iota zeta.
  unfold offendingEntries. rewrite <- filter_filter_andb.
  set (accountEntries :=
         List.filter (fun e => e_accountId e =? acc_id account) entries).
  rewrite (List.filter_ext (fun e => negb (Js.strictEqOptStr (e_contactType e) (Some ctype)))
             (hasNoValidContactType ctype))
    by (intros e; by rewrite hasNoValidContactType_alt).
  destruct accountEntries as [|e es]; [done|].
  set (bad := List.filter (hasNoValidContactType ctype) (e :: es)).
  change (Z.of_nat (length (e :: es)) =? 0) with false. cbv iota.
  by destruct bad.
Qed.

Lemma offendingEntries_nil account ctype entries :
  (∀ e, e ∈ entries → e_accountId e = acc_id account →
        e_contactType e = Some ctype) →
  offendingEntries account ctype entries = [].
Proof.
  intros H. unfold offendingEntries.
  induction entries as [|e es IH]; [done|].
  cbn. rewrite IH by (intros; apply H; [by right|done]).
  destruct (Z.eqb_spec (e_accountId e) (acc_id account)) as [Heq|]; [|done].
  rewrite (H e (list_elem_of_here e es) Heq). cbn.
  by rewrite String.eqb_refl.
Qed.

Lemma promiseAll2_outcome t (p1 p2 : Async unit) w :
  ReadOnly t p1 → ReadOnly t p2 →
  (promiseAll2 p1 p2 w).1
  = match (p1 w).1, (p2 w).1 with
    | Resolved _, Resolved _ => Resolved tt
    | Rejected e1, Resolved _ => Rejected e1
    | Resolved _, Rejected e2 => Rejected e2
    | Rejected e1, Rejected e2 =>
        Rejected (if firstSettlesFirst w then e1 else e2)
    end.
Proof.
  intros Hp1 Hp2. unfold promiseAll2.
  destruct (Hp1 w w (agree_refl t w)) as (r1 & ops1 & H1 & _ & _).
  destruct (Hp2 w (addTrace w ops1)) as (r2 & ops2 & H2 & H2' & _).
  { by repeat split. }
  rewrite H1, H2, H2'. cbn [fst]. by destruct r1, r2.
Qed.

(** C8. With the accounts-receivable and accounts-payable accounts in the
    chart of accounts: every entry that references the receivable account
    must declare contactType "customer" (the payable account: "vendor");
    the entries that do not are reported together, by their indexes, in a
    single ENTRIES_SHOULD_ASSIGN_WITH_CONTACT error carrying the account
    slug and the expected contact type; entries declaring the expected
    type pass; and the two checks are independent: the rule passes exactly
    when both pass, and a rejection is the rejection of one of the two. *)
Theorem contact_type_by_account_classification
  (t : Z) (entries : list IManualJournalEntry) (w : World)
  (receivable payable : Account) :
  List.find (fun a => String.eqb (acc_slug a) "accounts-receivable")
    (accounts (tenancy w t)) = Some receivable →
  List.find (fun a => String.eqb (acc_slug a) "accounts-payable")
    (accounts (tenancy w t)) = Some payable →
  let receivableCheck :=
    (validateAccountWithContactType t entries
       "accounts-receivable" "customer" w).1 in
  let payableCheck :=
    (validateAccountWithContactType t entries
       "accounts-payable" "vendor" w).1 in
  receivableCheck
  = match offendingEntries receivable "customer" entries with
    | [] => Resolved tt
    | bad =>
        Rejected (ENTRIES_SHOULD_ASSIGN_WITH_CONTACT
                    "accounts-receivable" "customer" (List.map e_index bad))
    end
  ∧ payableCheck
    = match offendingEntries payable "vendor" entries with
      | [] => Resolved tt
      | bad =>
          Rejected (ENTRIES_SHOULD_ASSIGN_WITH_CONTACT
                      "accounts-payable" "vendor" (List.map e_index bad))
      end
  ∧ ((∀ e, e ∈ entries → e_accountId e = acc_id receivable →
           e_contactType e = Some "customer") →
     receivableCheck = Resolved tt)
  ∧ ((∀ e, e ∈ entries → e_accountId e = acc_id payable →
           e_contactType e = Some "vendor") →
     payableCheck = Resolved tt)
  ∧ ((dynamicValidateAccountsWithContactType t entries w).1 = Resolved tt
     ↔ receivableCheck = Resolved tt ∧ payableCheck = Resolved tt)
  ∧ (∀ e,
       (dynamicValidateAccountsWithContactType t entries w).1 = Rejected e →
       receivableCheck = Rejected e ∨ payableCheck = Rejected e).
Proof.
  intros Hrec Hpay receivableCheck payableCheck.
  assert (H1 : receivableCheck
    = match offendingEntries receivable "customer" entries with
      | [] => Resolved tt
      | bad =>
          Rejected (ENTRIES_SHOULD_ASSIGN_WITH_CONTACT
                      "accounts-receivable" "customer" (List.map e_index bad))
      end).
  { unfold receivableCheck.
    by rewrite (validateAccountWithContactType_run _ _ _ _ _ receivable). }
  assert (H2 : payableCheck
    = match offendingEntries payable "vendor" entries with
      | [] => Resolved tt
      | bad =>
          Rejected (ENTRIES_SHOULD_ASSIGN_WITH_CONTACT
                      "accounts-payable" "vendor" (List.map e_index bad))
      end).
  { unfold payableCheck.
    by rewrite (validateAccountWithContactType_run _ _ _ _ _ payable). }
  assert (Hdyn : (dynamicValidateAccountsWithContactType t entries w).1
    = match receivableCheck, payableCheck with
      | Resolved _, Resolved _ => Resolved tt
      | Rejected e1, Resolved _ => Rejected e1
      | Resolved _, Rejected e2 => Rejected e2
      | Rejected e1, Rejected e2 =>
          Rejected (if firstSettlesFirst w then e1 else e2)
      end).
  { unfold dynamicValidateAccountsWithContactType.
    apply (promiseAll2_outcome t);
      apply ReadOnly_validateAccountWithContactType. }
  split; [exact H1|]. split; [exact H2|]. split; [|split; [|split]].
  - intros Hok. rewrite H1. by rewrite offendingEntries_nil.
  - intros Hok. rewrite H2. by rewrite offendingEntries_nil.
  - rewrite Hdyn.
    destruct receivableCheck as [[]|], payableCheck as [[]|];
      intuition congruence.
  - intros e. rewrite Hdyn.
    destruct receivableCheck as [[]|], payableCheck as [[]|];
      try destruct (firstSettlesFirst w); intuition congruence.
Qed.

(** *** Journal-number uniqueness *)

Lemma positive_length_rowsById
  (P : Z * ManualJournalRow → Prop) `{!∀ kv, Decision (P kv)}
  (m : gmap Z ManualJournalRow) :
  (0 <? Z.of_nat (length (rowsById (filter P m)))) = true
  ↔ ∃ k row, m !! k = Some row ∧ P (k, row).
Proof.
  split.
  - intros Hpos.
    destruct (rowsById (filter P m)) as [|[k row] l] eqn:E;
      [discriminate Hpos|].
    exists k, row. apply (map_lookup_filter_Some P m k row).
    apply elem_of_rowsById. rewrite E. apply list_elem_of_here.
  - intros (k & row & Hrow & HP).
    assert (Hin : (k, row) ∈ rowsById (filter P m)).
    { by apply elem_of_rowsById, map_lookup_filter_Some. }
    destruct (rowsById (filter P m)); [by apply elem_of_nil in Hin|].
    cbn [length]. apply Z.ltb_lt. lia.
Qed.

Lemma journalNumberFilter_spec n notId k row :
  journalNumberFilter n notId (k, row) = true
  ↔ row_journalNumber row = Some n
    ∧ ∀ x, notId = Some x → x ≠ 0 → k ≠ x.
Proof.
  unfold journalNumberFilter. cbn [fst snd].
  rewrite andb_true_iff, strictEqOptStr_Some.
  apply and_iff_compat_l.
  destruct notId as [x|]; [|naive_solver].
  unfold Js.truthyNum. destruct (Z.eqb_spec x 0) as [->|Hx]; cbn.
  - naive_solver.
  - rewrite negb_true_iff, Z.eqb_neq. naive_solver.
Qed.

Lemma validateManualJournalNoUnique_outcome t n notId w :
  ((validateManualJournalNoUnique t n notId w).1
   = Rejected JOURNAL_NUMBER_EXISTS
   ↔ numberHeld (tenancy w t) n notId)
  ∧ ((validateManualJournalNoUnique t n notId w).1 = Resolved tt
     ↔ ¬ numberHeld (tenancy w t) n notId).
Proof.
  unfold validateManualJournalNoUnique. rewrite bind_run.
  change (findJournalsByNumber t n notId w)
    with (Resolved
            (rowsById
               (filter
                  (fun kv => journalNumberFilter n notId kv = true)
                  (manualJournals (tenancy w t)))),
          addTrace w [(t, QJournalsByNumber n notId)]).
  cbv beta iota.
  assert (Hlen :
    (0 <? Z.of_nat
            (length
               (rowsById
                  (filter (fun kv => journalNumberFilter n notId kv = true)
                     (manualJournals (tenancy w t)))))) = true
    ↔ numberHeld (tenancy w t) n notId).
  { rewrite positive_length_rowsById. unfold numberHeld.
    split; intros (k & row & Hrow & HP); exists k, row; (split; [done|]).
    - by apply journalNumberFilter_spec in HP.
    - by apply journalNumberFilter_spec. }
  destruct (0 <? Z.of_nat (length _)); cbn [fst throw mret async_ret].
  - split; split; try done.
    + intros _. by apply Hlen.
    + intros Hno. destruct Hno. by apply Hlen.
  - split; split; try done.
    + intros Hheld. apply Hlen in Hheld. discriminate Hheld.
    + intros _ Hheld. apply Hlen in Hheld. discriminate Hheld.
Qed.

Lemma validateAccountWithContactType_errors t entries slug ctype w e :
  (validateAccountWithContactType t entries slug ctype w).1 = Rejected e →
  e ≠ JOURNAL_NUMBER_EXISTS.
Proof.
  unfold validateAccountWithContactType. rewrite bind_run.
  change (findAccountBySlug t slug w)
    with (Resolved
            (List.find (fun a => String.eqb (acc_slug a) slug)
               (accounts (tenancy w t))),
          addTrace w [(t, QAccountBySlug slug)]).
  cbv beta iota zeta.
  destruct (List.find _ _) as [account|]; cbn.
  - repeat case_match; cbn; intros Hrej; try discriminate Hrej;
      by injection Hrej as <-.
  - destruct entries; cbn; intros Hrej; [discriminate Hrej|].
    by injection Hrej as <-.
Qed.

Lemma dynamicValidate_errors t entries w e :
  (dynamicValidateAccountsWithContactType t entries w).1 = Rejected e →
  e ≠ JOURNAL_NUMBER_EXISTS.
Proof.
  unfold dynamicValidateAccountsWithContactType.
  rewrite (promiseAll2_outcome t)
    by apply ReadOnly_validateAccountWithContactType.
  pose proof (validateAccountWithContactType_errors t entries
                "accounts-receivable" "customer" w) as H1.
  pose proof (validateAccountWithContactType_errors t entries
                "accounts-payable" "vendor" w) as H2.
  destruct (validateAccountWithContactType t entries
              "accounts-receivable" "customer" w).1 as [[]|e1],
           (validateAccountWithContactType t entries
              "accounts-payable" "vendor" w).1 as [[]|e2];
    try destruct (firstSettlesFirst w); intros H;
    try discriminate H; injection H as <-; auto.
Qed.

(** Once the rules before it have passed, create fails with
    JOURNAL_NUMBER_EXISTS exactly when the uniqueness rule does. *)
Lemma makeJournalEntries_unique t dto user w n :
  Js.orElseStr (dto_journalNumber dto) (nextTransactionNumber (tenancy w t))
  = Some n →
  Js.truthyStr n = true →
  valdiateCreditDebitTotalEquals dto = Resolved tt →
  (validateContactsExistance t dto w).1 = Resolved tt →
  (validateAccountsExistance t dto w).1 = Resolved tt →
  (makeJournalEntries t dto user w).1 = Rejected JOURNAL_NUMBER_EXISTS
  ↔ numberHeld (tenancy w t) n None.
Proof.
  intros Hn Htruthy Hbal Hcon Hacc.
  unfold makeJournalEntries.
  rewrite bind_run, transformNewDTOToModel_run. cbv zeta.
  rewrite Hn. cbn [Js.truthyOptStr]. rewrite Htruthy.
  rewrite bind_run, Hbal. cbn [liftSync].
  pass_stage t (ReadOnly_validateContactsExistance t dto) Hcon.
  pass_stage t (ReadOnly_validateAccountsExistance t dto) Hacc.
  cbn [g_journalNumber].
  destruct (validateManualJournalNoUnique_outcome t n None w)
    as [Hrej Hres].
  destruct (validateManualJournalNoUnique t n None w).1 as [[]|e] eqn:E.
  - pass_stage t (ReadOnly_validateManualJournalNoUnique t n None) E.
    destruct (dynamicValidateAccountsWithContactType t (dto_entries dto) w).1
      as [[]|e] eqn:Ed.
    + pass_stage t (ReadOnly_dynamicValidateAccountsWithContactType t
                      (dto_entries dto)) Ed.
      match goal with
      | |- context [(upsertGraph t ?g ≫= ?k) ?w0] =>
          change ((upsertGraph t g ≫= k) w0) with (persistNew t g w0);
          rewrite (persistNew_run t g w0 eq_refl)
      end.
      cbn [fst]. split; [intros Hx; discriminate Hx|]. intros Hheld.
      assert (Hno : ¬ numberHeld (tenancy w t) n None) by by apply Hres.
      done.
    + fail_stage t (ReadOnly_dynamicValidateAccountsWithContactType t
                      (dto_entries dto)) Ed.
      cbn [fst]. split.
      * intros Heq. injection Heq as ->.
        by apply dynamicValidate_errors in Ed.
      * intros Hheld.
        assert (Hno : ¬ numberHeld (tenancy w t) n None) by by apply Hres.
        done.
  - fail_stage t (ReadOnly_validateManualJournalNoUnique t n None) E.
    cbn [fst]. rewrite <- Hrej.
    split; intros Heq; injection Heq as ->; done.
Qed.

(** The tail of an edit after the uniqueness rule never fails with
    JOURNAL_NUMBER_EXISTS. *)
Lemma edit_tail_outcome t id dto (old : IManualJournal) oldRow g w ops0 :
  g_id g = Some id →
  manualJournals (tenancy w t) !! id = Some oldRow →
  ((dynamicValidateAccountsWithContactType t (dto_entries dto);;
    upsertGraph t g;;
    manualJournal ← findJournalById t id;
    dispatch t (onEdited id);;
    mret (manualJournal, old)) (addTrace w ops0)).1
  ≠ Rejected JOURNAL_NUMBER_EXISTS.
Proof.
  intros Hid Hrow.
  destruct (dynamicValidateAccountsWithContactType t (dto_entries dto) w).1
    as [[]|e] eqn:Ed.
  - pass_stage t (ReadOnly_dynamicValidateAccountsWithContactType t
                    (dto_entries dto)) Ed.
    match goal with
    | |- context [(upsertGraph t g ≫= ?k) ?w0] =>
        change ((upsertGraph t g ≫= k) w0)
          with (persistEdit t id (g, old) w0);
        rewrite (persistEdit_run t id g old oldRow w0 Hid Hrow)
    end.
    done.
  - fail_stage t (ReadOnly_dynamicValidateAccountsWithContactType t
                    (dto_entries dto)) Ed.
    cbn [fst]. intros Heq. injection Heq as ->.
    by apply dynamicValidate_errors in Ed.
Qed.

(** Once the rules before it have passed, an edit whose DTO carries a
    non-empty journal number fails with JOURNAL_NUMBER_EXISTS exactly when
    the uniqueness rule, told to leave the edited journal out, does. *)
Lemma editJournalEntries_unique t id dto user w n :
  is_Some (manualJournals (tenancy w t) !! id) →
  dto_journalNumber dto = Some n →
  Js.truthyStr n = true →
  valdiateCreditDebitTotalEquals dto = Resolved tt →
  (validateContactsExistance t dto w).1 = Resolved tt →
  (validateAccountsExistance t dto w).1 = Resolved tt →
  (editJournalEntries t id dto user w).1 = Rejected JOURNAL_NUMBER_EXISTS
  ↔ numberHeld (tenancy w t) n (Some id).
Proof.
  intros [oldRow Hrow] Hn Htruthy Hbal Hcon Hacc.
  unfold editJournalEntries.
  rewrite bind_run, getManualJournalOrThrowError_run, Hrow.
  rewrite bind_run, transformEditDTOToModel_run.
  rewrite bind_run, Hbal. cbn [liftSync].
  pass_stage t (ReadOnly_validateContactsExistance t dto) Hcon.
  pass_stage t (ReadOnly_validateAccountsExistance t dto) Hacc.
  rewrite Hn, Htruthy.
  destruct (validateManualJournalNoUnique_outcome t n (Some id) w)
    as [Hrej Hres].
  destruct (validateManualJournalNoUnique t n (Some id) w).1
    as [[]|e] eqn:E.
  - pass_stage t (ReadOnly_validateManualJournalNoUnique t n (Some id)) E.
    split.
    + intros Hx. by eapply edit_tail_outcome in Hx.
    + intros Hheld.
      assert (Hno : ¬ numberHeld (tenancy w t) n (Some id))
        by by apply Hres.
      done.
  - fail_stage t (ReadOnly_validateManualJournalNoUnique t n (Some id)) E.
    cbn [fst]. rewrite <- Hrej.
    split; intros Heq; injection Heq as ->; done.
Qed.

(** An edit whose DTO carries no journal number (absent or empty) skips
    the uniqueness rule. *)
Lemma editJournalEntries_skips_unique t id dto user w :
  Js.truthyOptStr (dto_journalNumber dto) = false →
  (editJournalEntries t id dto user w).1 ≠ Rejected JOURNAL_NUMBER_EXISTS.
Proof.
  intros Hn. unfold editJournalEntries.
  rewrite bind_run, getManualJournalOrThrowError_run.
  destruct (manualJournals (tenancy w t) !! id) as [oldRow|] eqn:Hrow;
    [|done].
  rewrite bind_run, transformEditDTOToModel_run.
  rewrite bind_run. unfold liftSync.
  destruct (valdiateCreditDebitTotalEquals dto) as [[]|e] eqn:Hbal.
  2:{ cbn [fst]. intros Heq; injection Heq as ->.
      unfold valdiateCreditDebitTotalEquals in Hbal.
      repeat case_match; discriminate Hbal. }
  destruct (validateContactsExistance t dto w).1 as [[]|e] eqn:Hcon.
  2:{ fail_stage t (ReadOnly_validateContactsExistance t dto) Hcon.
      cbn [fst]. intros Heq; injection Heq as ->.
      unfold validateContactsExistance in Hcon.
      repeat (case_match; try discriminate Hcon).
      rewrite bind_run in Hcon.
      change (findContactsWhereIn t ?ids w)
        with (Resolved
                (List.filter (fun c => Js.includes (con_id c) ids)
                   (contacts (tenancy w t))),
              addTrace w [(t, QContactsWhereIn ids)]) in Hcon.
      cbv beta iota zeta in Hcon.
      repeat (case_match; try discriminate Hcon). }
  pass_stage t (ReadOnly_validateContactsExistance t dto) Hcon.
  destruct (validateAccountsExistance t dto w).1 as [[]|e] eqn:Hacc.
  2:{ fail_stage t (ReadOnly_validateAccountsExistance t dto) Hacc.
      cbn [fst]. intros Heq; injection Heq as ->.
      unfold validateAccountsExistance in Hacc.
      rewrite bind_run in Hacc.
      change (findAccountsWhereIn t ?ids w)
        with (Resolved
                (List.filter (fun a => Js.includes (acc_id a) ids)
                   (accounts (tenancy w t))),
              addTrace w [(t, QAccountsWhereIn ids)]) in Hacc.
      cbv beta iota zeta in Hacc.
      repeat (case_match; try discriminate Hacc). }
  pass_stage t (ReadOnly_validateAccountsExistance t dto) Hacc.
  assert (Hskip :
    match dto_journalNumber dto with
    | Some journalNumber =>
        if Js.truthyStr journalNumber
        then validateManualJournalNoUnique t journalNumber (Some id)
        else mret tt
    | None => mret tt
    end = mret tt).
  { destruct (dto_journalNumber dto) as [n|]; [|done].
    cbn in Hn. by rewrite Hn. }
  rewrite Hskip.
  match goal with
  | |- context [(mret tt ≫= ?k) ?w0] =>
      change ((mret tt ≫= k) w0) with (k tt w0)
  end.
  cbv beta.
  by eapply edit_tail_outcome.
Qed.

(** C5 (as amended). The uniqueness rule fails with JOURNAL_NUMBER_EXISTS
    exactly when a journal of the tenant, other than the one it is told to
    leave out, holds the given journal number, and passes otherwise.
    Create always runs it, on the resolved journal number and leaving no
    journal out: once the earlier rules have passed, create fails with
    JOURNAL_NUMBER_EXISTS exactly when some journal holds the number. Edit
    runs it only when the DTO carries a non-empty journal number, leaving
    out the edited journal: once the earlier rules have passed, such an
    edit fails with JOURNAL_NUMBER_EXISTS exactly when another journal
    holds the number, so reusing another journal's number fails and
    keeping the journal's own number does not. An edit whose DTO carries
    no journal number, or an empty one, skips the rule and never fails
    with JOURNAL_NUMBER_EXISTS. *)
Theorem journal_number_uniqueness (t : Z) (n : string) (w : World) :
  (∀ notId,
     ((validateManualJournalNoUnique t n notId w).1
      = Rejected JOURNAL_NUMBER_EXISTS
      ↔ numberHeld (tenancy w t) n notId)
     ∧ ((validateManualJournalNoUnique t n notId w).1 = Resolved tt
        ↔ ¬ numberHeld (tenancy w t) n notId))
  ∧ (∀ dto user,
       Js.orElseStr (dto_journalNumber dto)
         (nextTransactionNumber (tenancy w t)) = Some n →
       Js.truthyStr n = true →
       valdiateCreditDebitTotalEquals dto = Resolved tt →
       (validateContactsExistance t dto w).1 = Resolved tt →
       (validateAccountsExistance t dto w).1 = Resolved tt →
       (makeJournalEntries t dto user w).1 = Rejected JOURNAL_NUMBER_EXISTS
       ↔ ∃ k row,
           manualJournals (tenancy w t) !! k = Some row
           ∧ row_journalNumber row = Some n)
  ∧ (∀ id dto user,
       id ≠ 0 →
       is_Some (manualJournals (tenancy w t) !! id) →
       dto_journalNumber dto = Some n →
       Js.truthyStr n = true →
       valdiateCreditDebitTotalEquals dto = Resolved tt →
       (validateContactsExistance t dto w).1 = Resolved tt →
       (validateAccountsExistance t dto w).1 = Resolved tt →
       ((editJournalEntries t id dto user w).1
        = Rejected JOURNAL_NUMBER_EXISTS
        ↔ ∃ k row,
            k ≠ id
            ∧ manualJournals (tenancy w t) !! k = Some row
            ∧ row_journalNumber row = Some n)
       ∧ ((∀ k row,
             manualJournals (tenancy w t) !! k = Some row →
             row_journalNumber row = Some n → k = id) →
          (editJournalEntries t id dto user w).1
          ≠ Rejected JOURNAL_NUMBER_EXISTS))
  ∧ (∀ id dto user,
       Js.truthyOptStr (dto_journalNumber dto) = false →
       (editJournalEntries t id dto user w).1
       ≠ Rejected JOURNAL_NUMBER_EXISTS).
Proof.
  split; [|split; [|split]].
  - intros notId. apply validateManualJournalNoUnique_outcome.
  - intros dto user Hn Htruthy Hbal Hcon Hacc.
    rewrite (makeJournalEntries_unique t dto user w n) by done.
    unfold numberHeld. split.
    + intros (k & row & Hrow & Hnum & _). by exists k, row.
    + intros (k & row & Hrow & Hnum). exists k, row. by repeat split.
  - intros id dto user Hid Hold Hn Htruthy Hbal Hcon Hacc.
    assert (Hiff :
      (editJournalEntries t id dto user w).1 = Rejected JOURNAL_NUMBER_EXISTS
      ↔ ∃ k row,
          k ≠ id
          ∧ manualJournals (tenancy w t) !! k = Some row
          ∧ row_journalNumber row = Some n).
    { rewrite (editJournalEntries_unique t id dto user w n) by done.
      unfold numberHeld. split.
      - intros (k & row & Hrow & Hnum & Hne). exists k, row.
        split; [by apply Hne|done].
      - intros (k & row & Hne & Hrow & Hnum). exists k, row.
        repeat split; try done. intros x Hx _. by injection Hx as <-. }
    split; [exact Hiff|].
    intros Hown Hrej. apply Hiff in Hrej as (k & row & Hne & Hrow & Hnum).
    apply Hne. by eapply Hown.
  - intros id dto user Hn. by apply editJournalEntries_skips_unique.
Qed.

(** C7. At a DTO whose entries reference contact 9 (not stored), contact
    8 (a vendor, declared as customer) and contact 7 (a customer, declared
    as such), the contact rule fails once, with one CONTACTS_NOT_FOUND
    error for the two offending entries; what the error carries for them
    is the stored contact, and nothing ([undefined]) for the contact that
    is not stored: the identifiers 9 and 8 of the offending contacts are
    not what is reported. *)
Theorem contacts_not_found_carries_stored_contacts :
  (validateContactsExistance 1 danglingContactsDTO sampleWorld).1
  = Rejected (CONTACTS_NOT_FOUND [None; Some vendor8])
  ∧ omap e_contactId
      (List.filter
         (fun e =>
            match notFoundContactOf (contactsMap (contacts sampleTables)) e
            with
            | [] => false
            | _ => true
            end)
         (dto_entries danglingContactsDTO))
    = [9; 8].
Proof. split; reflexivity. Qed.

(** *** The claims at concrete requests *)


Lemma sample_lookup_draft :
  manualJournals (tenancy sampleWorld 1) !! 1 = Some draftRow.
Proof. reflexivity. Qed.

Lemma sample_lookup_published :
  manualJournals (tenancy sampleWorld 1) !! 2 = Some publishedRow.
Proof. reflexivity. Qed.

Lemma sample_lookup_missing :
  manualJournals (tenancy sampleWorld 1) !! 99 = None.
Proof. reflexivity. Qed.

Lemma sample_both_stored id :
  id ∈ [1; 2] → is_Some (manualJournals (tenancy sampleWorld 1) !! id).
Proof.
  rewrite !elem_of_cons, elem_of_nil. intros [->|[->|[]]]; by eexists.
Qed.


Lemma publish_already_published_witness :
  (∃ w',
     publishManualJournal 1 2 sampleWorld
     = (Rejected MANUAL_JOURNAL_ALREADY_PUBLISHED, w')
     ∧ tenancy w' = tenancy sampleWorld)
  ∧ (∃ meta w',
       publishManualJournals 1 [1; 2] sampleWorld = (Resolved meta, w')
       ∧ alreadyPublished meta + published meta = total meta
       ∧ manualJournals (tenancy w' 1) !! 2 = Some publishedRow
       ∧ ∃ row',
           manualJournals (tenancy w' 1) !! 1 = Some row'
           ∧ row_publishedAt row' = Some (MkDateTime 1000)
           ∧ row_journalNumber row' = Some "J-1"
           ∧ row_amount row' = 100).
Proof.
  destruct (publish_already_published 1 sampleWorld) as [Hsingle Hbulk].
  split.
  - destruct (Hsingle 2 publishedRow sample_lookup_published)
      as (w' & Hrun & Hsame & _); [by eexists|].
    by exists w'.
  - destruct (Hbulk [1; 2] sample_both_stored)
      as (meta & w' & Hrun & Hcount & _ & _ & _ & Hkept & Hstamp & _).
    exists meta, w'. split; [exact Hrun|]. split; [exact Hcount|].
    split; [apply Hkept; [exact sample_lookup_published | by eexists]|].
    destruct (Hstamp 1 draftRow sample_lookup_draft)
      as (row' & Hrow' & Hat & Hnumber & _ & _ & Hamount & _).
    + apply list_elem_of_here.
    + reflexivity.
    + exists row'. split; [exact Hrow'|]. split; [exact Hat|].
      split; [exact Hnumber | exact Hamount].
Defined.

Lemma edit_preserves_publishedAt_witness :
  ∃ row',
    manualJournals
      (tenancy
         (editJournalEntries 1 2 (balancedDTO None true) sampleUser
            sampleWorld).2 1) !! 2 = Some row'
    ∧ row_publishedAt row' = Some (MkDateTime 500).
Proof.
  destruct (edit_preserves_publishedAt 1 2 (balancedDTO None true)
              sampleUser sampleWorld publishedRow sample_lookup_published)
    as (row' & Hstored & _ & Hkept).
  exists row'. split; [exact Hstored|]. apply Hkept. by eexists.
Defined.

Lemma bulk_delete_all_or_nothing_witness :
  (∃ w',
     deleteManualJournals 1 [1; 99] sampleWorld = (Rejected NOT_FOUND, w')
     ∧ tenancy w' = tenancy sampleWorld)
  ∧ (∃ old w',
       deleteManualJournals 1 [1; 2] sampleWorld = (Resolved old, w')
       ∧ trace w'
         = [(1, QJournalsWhereIn [1; 2]); (1, WDeleteEntries [1; 2]);
            (1, WDeleteJournals [1; 2]);
            (1, EDispatch (onDeletedBulk [1; 2]))]).
Proof.
  split.
  - destruct (bulk_delete_all_or_nothing 1 [1; 99] sampleWorld)
      as [Hmissing _].
    destruct (Hmissing 99) as (w' & Hrun & Hsame & _).
    + apply elem_of_cons. right. apply list_elem_of_here.
    + exact sample_lookup_missing.
    + by exists w'.
  - destruct (bulk_delete_all_or_nothing 1 [1; 2] sampleWorld)
      as [_ Hall].
    destruct (Hall sample_both_stored) as (old & w' & Hrun & Htrace & _).
    by exists old, w'.
Defined.

Lemma contact_type_by_account_classification_witness :
  (validateAccountWithContactType 1 misassignedEntries
     "accounts-receivable" "customer" sampleWorld).1
  = Rejected (ENTRIES_SHOULD_ASSIGN_WITH_CONTACT
                "accounts-receivable" "customer" [1; 2])
  ∧ (validateAccountWithContactType 1 [receivableLine 100; cashLine 100]
       "accounts-receivable" "customer" sampleWorld).1
    = Resolved tt.
Proof.
  split.
  - exact (proj1 (contact_type_by_account_classification 1
                    misassignedEntries sampleWorld
                    receivableAccount payableAccount eq_refl eq_refl)).
  - destruct (contact_type_by_account_classification 1
                [receivableLine 100; cashLine 100] sampleWorld
                receivableAccount payableAccount eq_refl eq_refl)
      as (_ & _ & Hpass & _).
    apply Hpass. intros e. rewrite !elem_of_cons, elem_of_nil.
    intros [->|[->|[]]]; [reflexivity|]. vm_compute. discriminate.
Defined.

Lemma validation_precedes_persistence_witness :
  editJournalEntries 1 99 unbalancedDTO sampleUser sampleWorld
  = (Rejected NOT_FOUND, addTrace sampleWorld [(1, QJournalById 99)]).
Proof.
  destruct (validation_precedes_persistence 1 unbalancedDTO sampleUser
              sampleWorld) as (_ & _ & Habsent).
  apply Habsent. exact sample_lookup_missing.
Defined.

Lemma journal_number_uniqueness_witness :
  (makeJournalEntries 1 (balancedDTO (Some "J-1") false) sampleUser
     sampleWorld).1
  = Rejected JOURNAL_NUMBER_EXISTS
  ∧ (editJournalEntries 1 2 (balancedDTO (Some "J-1") false) sampleUser
       sampleWorld).1
    = Rejected JOURNAL_NUMBER_EXISTS
  ∧ (editJournalEntries 1 1 (balancedDTO (Some "J-1") false) sampleUser
       sampleWorld).1
    ≠ Rejected JOURNAL_NUMBER_EXISTS
  ∧ (editJournalEntries 1 1 (balancedDTO None false) sampleUser
       sampleWorld).1
    ≠ Rejected JOURNAL_NUMBER_EXISTS.
Proof.
  destruct (journal_number_uniqueness 1 "J-1" sampleWorld)
    as (_ & Hcreate & Hedit & Hskip).
  split; [|split; [|split]].
  - apply (Hcreate (balancedDTO (Some "J-1") false) sampleUser);
      try reflexivity.
    exists 1, draftRow. by split.
  - unshelve epose proof
      (Hedit 2 (balancedDTO (Some "J-1") false) sampleUser _ _
         eq_refl eq_refl eq_refl eq_refl eq_refl) as [Hiff _];
      [lia | by eexists |].
    apply Hiff. exists 1, draftRow. split; [lia|].
    split; [exact sample_lookup_draft | reflexivity].
  - unshelve epose proof
      (Hedit 1 (balancedDTO (Some "J-1") false) sampleUser _ _
         eq_refl eq_refl eq_refl eq_refl eq_refl) as [_ Hown];
      [lia | by eexists |].
    apply Hown. intros k row Hrow Hnum.
    destruct (decide (k = 1)) as [|Hne]; [done|].
    destruct (decide (k = 2)) as [->|Hne2].
    + rewrite sample_lookup_published in Hrow. injection Hrow as <-.
      discriminate Hnum.
    + cbn in Hrow. rewrite !lookup_insert_ne in Hrow by done.
      rewrite lookup_empty in Hrow. discriminate Hrow.
  - apply Hskip. reflexivity.
Defined.

(** Two edits whose DTO carries the empty journal number: after the
    first, journal 1 holds the number of the DTO; the second, of journal
    2, still goes through; both journals then hold the same number, and no
    uniqueness query was issued along the way. *)
Lemma uniqueness_rule_skipped_on_edit_with_empty_number :
  let dto := balancedDTO (Some "") false in
  let w1 := (editJournalEntries 1 1 dto sampleUser sampleWorld).2 in
  let w2 := (editJournalEntries 1 2 dto sampleUser w1).2 in
  row_journalNumber <$> manualJournals (tenancy w1 1) !! 1
  = Some (dto_journalNumber dto)
  ∧ (editJournalEntries 1 2 dto sampleUser w1).1
    ≠ Rejected JOURNAL_NUMBER_EXISTS
  ∧ row_journalNumber <$> manualJournals (tenancy w2 1) !! 1
    = row_journalNumber <$> manualJournals (tenancy w2 1) !! 2
  ∧ noWrites (trace w2) = false
  ∧ ∀ number notId, (1, QJournalsByNumber number notId) ∉ trace w2.
Proof.
  cbv zeta. split; [reflexivity|]. split; [by vm_compute|].
  split; [reflexivity|]. split; [reflexivity|].
  intros number notId Hin. vm_compute in Hin.
  repeat (apply elem_of_cons in Hin as [Hin|Hin]; [discriminate Hin|]).
  by apply elem_of_nil in Hin.
Qed.

(** ** Further properties of the service *)

(** *** The account and contact existence rules *)

Lemma elem_of_difference x (array values : list Z) :
  x ∈ Lodash.difference array values
  ↔ x ∈ array ∧ Js.includes x values = false.
Proof.
  unfold Lodash.difference.
  rewrite list_elem_of_In, filter_In, <- list_elem_of_In, negb_true_iff.
  done.
Qed.

Lemma stored_account_ids tables ids x :
  Js.includes x
    (List.map acc_id
       (List.filter (fun a => Js.includes (acc_id a) ids) (accounts tables)))
  = true
  ↔ x ∈ ids ∧ ∃ a, a ∈ accounts tables ∧ acc_id a = x.
Proof.
  rewrite includes_spec.
  change (List.map acc_id) with (fmap (M:=list) acc_id).
  rewrite list_elem_of_fmap.
  setoid_rewrite list_elem_of_In. setoid_rewrite filter_In.
  setoid_rewrite <- list_elem_of_In. setoid_rewrite includes_spec.
  split.
  - intros (a & -> & Ha & Hin). split; [done|]. by exists a.
  - intros (Hin & a & Ha & <-). by exists a.
Qed.

Lemma validateAccountsExistance_run t dto w :
  validateAccountsExistance t dto w
  = (if 0 <? Z.of_nat
               (length
                  (Lodash.difference (List.map e_accountId (dto_entries dto))
                     (List.map acc_id
                        (List.filter
                           (fun a =>
                              Js.includes (acc_id a)
                                (List.map e_accountId (dto_entries dto)))
                           (accounts (tenancy w t))))))
     then Rejected ACCCOUNTS_IDS_NOT_FOUND
     else Resolved tt,
     addTrace w [(t, QAccountsWhereIn (List.map e_accountId (dto_entries dto)))]).
Proof.
  unfold validateAccountsExistance. rewrite bind_run.
  change (findAccountsWhereIn t ?ids w)
    with (Resolved
            (List.filter (fun a => Js.includes (acc_id a) ids)
               (accounts (tenancy w t))),
          addTrace w [(t, QAccountsWhereIn ids)]).
  cbv beta iota zeta. by destruct (0 <? _).
Qed.

(** X1. The account rule passes exactly when every entry's accountId is
    the id of an account of the tenant's chart (so it passes on a DTO
    without entries), and fails with ACCCOUNTS_IDS_NOT_FOUND exactly when
    some entry references an account that is not there; either way it
    issues the one query for the referenced accounts and nothing else. *)
Theorem accounts_rule_outcome
  (t : Z) (dto : IManualJournalDTO) (w : World) :
  ((validateAccountsExistance t dto w).1 = Resolved tt
   ↔ ∀ e, e ∈ dto_entries dto →
          ∃ a, a ∈ accounts (tenancy w t) ∧ acc_id a = e_accountId e)
  ∧ ((validateAccountsExistance t dto w).1
     = Rejected ACCCOUNTS_IDS_NOT_FOUND
     ↔ ∃ e, e ∈ dto_entries dto
            ∧ ∀ a, a ∈ accounts (tenancy w t) → acc_id a ≠ e_accountId e)
  ∧ (validateAccountsExistance t dto w).2
    = addTrace w
        [(t, QAccountsWhereIn (List.map e_accountId (dto_entries dto)))].
Proof.
  rewrite validateAccountsExistance_run. cbn [fst snd].
  set (ids := List.map e_accountId (dto_entries dto)).
  set (stored := List.map acc_id _).
  assert (Hmem : ∀ x, x ∈ ids ↔ ∃ e, e ∈ dto_entries dto ∧ e_accountId e = x).
  { intros x. unfold ids.
    change (List.map e_accountId) with (fmap (M:=list) e_accountId).
    rewrite list_elem_of_fmap. split.
    - intros (e & -> & He). by exists e.
    - intros (e & He & <-). by exists e. }
  assert (Hinc : ∀ x, x ∈ ids →
    (Js.includes x stored = true
     ↔ ∃ a, a ∈ accounts (tenancy w t) ∧ acc_id a = x)).
  { intros x Hx. unfold stored. rewrite stored_account_ids.
    split; [by intros [_ Ha]|done]. }
  destruct (0 <? Z.of_nat (length (Lodash.difference ids stored))) eqn:E.
  - assert (Hbad : ∃ x, x ∈ ids ∧ Js.includes x stored = false).
    { destruct (Lodash.difference ids stored) as [|x l] eqn:Ed;
        [discriminate E|].
      exists x. apply elem_of_difference. rewrite Ed.
      apply list_elem_of_here. }
    destruct Hbad as (x & Hx & Hno).
    pose proof (proj1 (Hmem x) Hx) as (e & He & Heq). subst x.
    split; [|split; [|done]].
    + split; [done|]. intros Hall.
      destruct (Hall e He) as (a & Ha & Heq).
      assert (Js.includes (e_accountId e) stored = true)
        by (apply Hinc; eauto).
      congruence.
    + split; [|done]. intros _. exists e. split; [done|].
      intros a Ha Heq.
      assert (Js.includes (e_accountId e) stored = true)
        by (apply Hinc; eauto).
      congruence.
  - apply positive_length_false in E.
    pose proof (proj1 (difference_nil _ _) E) as Hall.
    split; [|split; [|done]].
    + split; [|done]. intros _ e He.
      assert (Hx : e_accountId e ∈ ids).
      { apply Hmem. by exists e. }
      apply (proj1 (Hinc _ Hx) (Hall _ Hx)).
    + split; [done|]. intros (e & He & Hno).
      assert (Hx : e_accountId e ∈ ids).
      { apply Hmem. by exists e. }
      destruct (proj1 (Hinc _ Hx) (Hall _ Hx)) as (a & Ha & Heq).
      by destruct (Hno a Ha).
Qed.

Lemma contactsMap_acc (l : list Contact) :
  ∀ (m : gmap Z Contact) id c,
    NoDup (List.map con_id l) →
    fold_left (fun m contact => <[con_id contact := contact]> m) l m !! id
    = Some c
    ↔ (c ∈ l ∧ con_id c = id)
      ∨ ((∀ c', c' ∈ l → con_id c' ≠ id) ∧ m !! id = Some c).
Proof.
  induction l as [|x xs IH]; intros m id c Hnd; cbn [fold_left].
  - split; [intros H; right; split; [|done]|].
    + intros c' Hc'. by apply elem_of_nil in Hc'.
    + intros [[Hc _]|[_ H]]; [by apply elem_of_nil in Hc|done].
  - cbn in Hnd. apply NoDup_cons in Hnd as [Hx Hnd].
    rewrite (IH _ id c Hnd). split.
    + intros [[Hc Hid]|[Hno Hm]].
      * left. split; [by right|done].
      * destruct (decide (con_id x = id)) as [Heq|Hne].
        -- rewrite Heq, lookup_insert_eq in Hm. injection Hm as <-.
           left. split; [apply list_elem_of_here|done].
        -- rewrite lookup_insert_ne in Hm by done. right. split; [|done].
           intros c' Hc'. apply elem_of_cons in Hc' as [->|Hc']; auto.
    + intros [[Hc Hid]|[Hno Hm]].
      * apply elem_of_cons in Hc as [->|Hc].
        -- right. split.
           ++ intros c' Hc' Heq. apply Hx.
              change (List.map con_id) with (fmap (M:=list) con_id).
              rewrite Hid, <- Heq. by apply list_elem_of_fmap_2.
           ++ by rewrite Hid, lookup_insert_eq.
        -- left. done.
      * right. split.
        -- intros c' Hc'. apply Hno. by right.
        -- rewrite lookup_insert_ne; [done|].
           apply Hno. apply list_elem_of_here.
Qed.

Lemma NoDup_map_filter {A B : Type} (f : A → B) (p : A → bool) l :
  NoDup (List.map f l) → NoDup (List.map f (List.filter p l)).
Proof.
  induction l as [|x xs IH]; [done|]. cbn. intros Hnd.
  apply NoDup_cons in Hnd as [Hx Hnd]. destruct (p x); [|by apply IH].
  cbn. apply NoDup_cons. split; [|by apply IH].
  intros Hin. apply Hx.
  change (List.map f) with (fmap (M:=list) f) in *.
  apply list_elem_of_fmap in Hin as (y & -> & Hy).
  apply list_elem_of_fmap_2.
  apply list_elem_of_In in Hy. apply filter_In in Hy as [Hy _].
  by apply list_elem_of_In.
Qed.

Lemma contactsMap_lookup tables ids id c :
  NoDup (List.map con_id (contacts tables)) →
  contactsMap
    (List.filter (fun c => Js.includes (con_id c) ids) (contacts tables))
  !! id = Some c
  ↔ c ∈ contacts tables ∧ con_id c = id ∧ id ∈ ids.
Proof.
  intros Hnd. unfold contactsMap.
  rewrite contactsMap_acc by by apply NoDup_map_filter.
  rewrite lookup_empty, list_elem_of_In, filter_In, <- list_elem_of_In.
  rewrite includes_spec. split.
  - intros [[[Hc Hin] Hid]|[_ H]]; [|done]. by subst.
  - intros (Hc & Hid & Hin). left. by subst.
Qed.

Lemma validateContactsExistance_run t dto w :
  let pairs :=
    List.filter (fun e => Js.truthyOptNum (e_contactId e)) (dto_entries dto)
  in
  let ids := omap e_contactId pairs in
  let stored :=
    contactsMap
      (List.filter (fun c => Js.includes (con_id c) ids)
         (contacts (tenancy w t))) in
  validateContactsExistance t dto w
  = match pairs with
    | [] => (Resolved tt, w)
    | _ =>
        (match List.flat_map (notFoundContactOf stored) pairs with
         | [] => Resolved tt
         | bad => Rejected (CONTACTS_NOT_FOUND bad)
         end,
         addTrace w [(t, QContactsWhereIn ids)])
    end.
Proof.
  intros pairs ids stored. unfold validateContactsExistance.
  fold pairs. destruct pairs as [|e es] eqn:Hpairs; [done|].
  change (0 <? Z.of_nat (length (e :: es))) with true. cbv iota.
  rewrite bind_run.
  change (findContactsWhereIn t ?i w)
    with (Resolved
            (List.filter (fun c => Js.includes (con_id c) i)
               (contacts (tenancy w t))),
          addTrace w [(t, QContactsWhereIn i)]).
  cbv beta iota zeta. fold ids. fold stored.
  by destruct (List.flat_map (notFoundContactOf stored) (e :: es)).
Qed.

Lemma notFoundContactOf_nil m e :
  notFoundContactOf m e = []
  ↔ ∃ id c, e_contactId e = Some id ∧ m !! id = Some c
            ∧ e_contactType e = Some (con_contactService c).
Proof.
  unfold notFoundContactOf.
  destruct (e_contactId e) as [id|]; cbv zeta.
  2:{ split; [intros H; discriminate H|].
      intros (? & ? & H & _). discriminate H. }
  destruct (m !! id) as [c|] eqn:Hm.
  2:{ split; [intros H; discriminate H|].
      intros (? & ? & H1 & H2 & _). congruence. }
  destruct (e_contactType e) as [ct|]; cbn [Js.strictEqOptStr].
  - destruct (String.eqb_spec (con_contactService c) ct) as [Heq|Hne];
      [subst ct|]; cbn [negb].
    + split; [|done]. intros _. by exists id, c.
    + split; [intros H; discriminate H|].
      intros (? & ? & Hid & Hc & Hct). congruence.
  - split; [intros H; discriminate H|].
    intros (? & ? & _ & _ & H). discriminate H.
Qed.

Lemma flat_map_nil {A B : Type} (f : A → list B) (l : list A) :
  List.flat_map f l = [] ↔ ∀ x, x ∈ l → f x = [].
Proof.
  induction l as [|x xs IH]; cbn.
  - split; [|done]. intros _ y Hy. by apply elem_of_nil in Hy.
  - split.
    + intros H. apply app_eq_nil in H as [Hx Hxs].
      intros y Hy. apply elem_of_cons in Hy as [->|Hy]; [done|].
      by apply IH.
    + intros H. rewrite (H x (list_elem_of_here x xs)). cbn.
      apply IH. intros y Hy. apply H. by right.
Qed.

Lemma flat_map_notFound_length m (l : list IManualJournalEntry) :
  (length (List.flat_map (notFoundContactOf m) l) ≤ length l)%nat.
Proof.
  induction l as [|x xs IH]; cbn; [done|].
  rewrite length_app.
  assert ((length (notFoundContactOf m x) ≤ 1)%nat).
  { unfold notFoundContactOf. repeat case_match; cbn; lia. }
  lia.
Qed.

(** X2. With contacts identified by their id, the contact rule passes
    exactly when every entry that carries a non-zero contactId references
    a stored contact whose contactService is the entry's declared
    contactType; entries without a contactId are not looked at, and when
    no entry carries one the rule passes without issuing any query.
    Otherwise it fails once, with a single CONTACTS_NOT_FOUND error that
    carries at least one and at most one item per entry. *)
Theorem contacts_rule_outcome
  (t : Z) (dto : IManualJournalDTO) (w : World) :
  NoDup (List.map con_id (contacts (tenancy w t))) →
  ((validateContactsExistance t dto w).1 = Resolved tt
   ↔ ∀ e id,
       e ∈ dto_entries dto → e_contactId e = Some id → id ≠ 0 →
       ∃ c, c ∈ contacts (tenancy w t) ∧ con_id c = id
            ∧ e_contactType e = Some (con_contactService c))
  ∧ ((validateContactsExistance t dto w).1 = Resolved tt
     ∨ ∃ bad,
         (validateContactsExistance t dto w).1
         = Rejected (CONTACTS_NOT_FOUND bad)
         ∧ (0 < length bad ≤ length (dto_entries dto))%nat)
  ∧ ((∀ e, e ∈ dto_entries dto → Js.truthyOptNum (e_contactId e) = false) →
     validateContactsExistance t dto w = (Resolved tt, w)).
Proof.
  intros Hnd. rewrite validateContactsExistance_run. cbv zeta.
  set (pairs := List.filter (fun e => Js.truthyOptNum (e_contactId e))
                  (dto_entries dto)).
  set (ids := omap e_contactId pairs).
  set (stored := contactsMap _).
  assert (Hpairs : ∀ e, e ∈ pairs
    ↔ e ∈ dto_entries dto ∧ ∃ id, e_contactId e = Some id ∧ id ≠ 0).
  { intros e. unfold pairs.
    rewrite list_elem_of_In, filter_In, <- list_elem_of_In.
    apply and_iff_compat_l. unfold Js.truthyOptNum, Js.truthyNum.
    destruct (e_contactId e) as [id|].
    - rewrite negb_true_iff, Z.eqb_neq. split.
      + intros Hne. by exists id.
      + intros (id' & Heq & Hne). by injection Heq as ->.
    - split; [done|]. by intros (? & ? & _). }
  assert (Hids : ∀ e id, e ∈ pairs → e_contactId e = Some id → id ∈ ids).
  { intros e id He Hid. unfold ids. apply list_elem_of_omap. by exists e. }
  assert (Hok : List.flat_map (notFoundContactOf stored) pairs = []
    ↔ ∀ e id,
        e ∈ dto_entries dto → e_contactId e = Some id → id ≠ 0 →
        ∃ c, c ∈ contacts (tenancy w t) ∧ con_id c = id
             ∧ e_contactType e = Some (con_contactService c)).
  { rewrite flat_map_nil. split.
    - intros H e id He Hid Hne.
      assert (Hp : e ∈ pairs) by (apply Hpairs; split; [done|by exists id]).
      apply H, notFoundContactOf_nil in Hp as (id' & c & Hid' & Hc & Hct).
      rewrite Hid in Hid'. injection Hid' as <-.
      apply contactsMap_lookup in Hc as (Hc & Hcid & _); [|done].
      by exists c.
    - intros H e He. apply Hpairs in He as He'.
      destruct He' as (Hin & id & Hid & Hne).
      destruct (H e id Hin Hid Hne) as (c & Hc & Hcid & Hct).
      apply notFoundContactOf_nil. exists id, c. split; [done|].
      split; [|done]. apply contactsMap_lookup; [done|].
      split; [done|]. split; [done|]. by eapply Hids. }
  assert (Hlen : (length pairs ≤ length (dto_entries dto))%nat).
  { unfold pairs. clear. induction (dto_entries dto) as [|x xs IH]; [done|].
    cbn. destruct (Js.truthyOptNum _); cbn; lia. }
  pose proof (flat_map_notFound_length stored pairs) as Hlen'.
  destruct pairs as [|p ps] eqn:Epairs.
  - cbn [fst]. split; [|split].
    + split; [|done]. intros _. apply Hok. done.
    + by left.
    + done.
  - cbn [fst]. fold ids. fold stored.
    destruct (List.flat_map (notFoundContactOf stored) (p :: ps))
      as [|b bs] eqn:Ebad.
    + split; [|split].
      * split; [|done]. intros _. by apply Hok.
      * by left.
      * intros Hnone.
        assert (Hp : p ∈ dto_entries dto ∧
                     ∃ id, e_contactId p = Some id ∧ id ≠ 0)
          by (apply Hpairs, list_elem_of_here).
        destruct Hp as (Hin & id & Hid & Hne).
        specialize (Hnone p Hin). rewrite Hid in Hnone. cbn in Hnone.
        unfold Js.truthyNum in Hnone. apply negb_false_iff in Hnone.
        apply Z.eqb_eq in Hnone. done.
    + split; [|split].
      * split; [done|]. intros H. apply Hok in H. discriminate H.
      * right. exists (b :: bs). split; [done|]. cbn in *. lia.
      * intros Hnone.
        assert (Hp : p ∈ dto_entries dto ∧
                     ∃ id, e_contactId p = Some id ∧ id ≠ 0)
          by (apply Hpairs, list_elem_of_here).
        destruct Hp as (Hin & id & Hid & Hne).
        specialize (Hnone p Hin). rewrite Hid in Hnone. cbn in Hnone.
        unfold Js.truthyNum in Hnone. apply negb_false_iff in Hnone.
        apply Z.eqb_eq in Hnone. done.
Qed.

Lemma contacts_rule_outcome_witness :
  (validateContactsExistance 1 (balancedDTO None false) sampleWorld).1
  = Resolved tt.
Proof.
  destruct (contacts_rule_outcome 1 (balancedDTO None false) sampleWorld)
    as [Hiff _].
  - repeat constructor; rewrite ?elem_of_cons, ?elem_of_nil; cbn; intuition lia.
  - apply Hiff. intros e id He Hid Hne.
    cbn in He. rewrite !elem_of_cons, elem_of_nil in He.
    destruct He as [->|[->|[]]]; [|discriminate Hid].
    injection Hid as <-. exists customer7.
    split; [apply list_elem_of_here|]. by split.
Defined.

(** *** Create and edit as a whole *)

(** X3. A create whose DTO carries no journal number (absent or empty)
    while the auto-increment service has none to offer fails with
    MANUAL_JOURNAL_NO_REQUIRED before any validation rule runs: the only
    call issued is the read of the next number, whatever the entries. *)
Theorem create_requires_journal_number
  (t : Z) (dto : IManualJournalDTO) (user : ISystemUser) (w : World) :
  Js.truthyOptStr (dto_journalNumber dto) = false →
  Js.truthyOptStr (nextTransactionNumber (tenancy w t)) = false →
  makeJournalEntries t dto user w
  = (Rejected MANUAL_JOURNAL_NO_REQUIRED,
     addTrace w [(t, QNextTransactionNumber)]).
Proof.
  intros Hdto Hauto. unfold makeJournalEntries.
  rewrite bind_run, transformNewDTOToModel_run. cbv zeta.
  unfold Js.orElseStr. by rewrite Hdto, Hauto.
Qed.

Lemma create_requires_journal_number_witness :
  (makeJournalEntries 1 unnumberedDTO sampleUser unnumberedWorld).1
  = Rejected MANUAL_JOURNAL_NO_REQUIRED.
Proof.
  rewrite (create_requires_journal_number 1 unnumberedDTO sampleUser
             unnumberedWorld); reflexivity.
Defined.

(** X4. What a create that goes through commits: the journal takes the
    next id of the table and is stored under it, the row stored being the
    row returned and the entries added to the entries table being the
    DTO's; its number is the DTO's when the DTO carries a non-empty one
    and the auto-increment number otherwise; it is published at the
    current time exactly when the DTO asks for it and is a draft
    otherwise; it belongs to the acting user; the id counter advances by
    one; one onCreated event is dispatched, last; and every row stored
    under another id is as before. *)
Theorem create_commits_row
  (t : Z) (dto : IManualJournalDTO) (user : ISystemUser) (w : World)
  (j : IManualJournal) (w' : World) :
  makeJournalEntries t dto user w = (Resolved j, w') →
  mj_id j = nextJournalId (tenancy w t)
  ∧ manualJournals (tenancy w' t) !! mj_id j = Some (mj_row j)
  ∧ mj_entries j = dto_entries dto
  ∧ manualJournalEntries (tenancy w' t)
    = manualJournalEntries (tenancy w t)
      ++ List.map (mkEntryRow (mj_id j)) (dto_entries dto)
  ∧ mj_journalNumber j
    = (if Js.truthyOptStr (dto_journalNumber dto)
       then dto_journalNumber dto
       else nextTransactionNumber (tenancy w t))
  ∧ Js.truthyOptStr (mj_journalNumber j) = true
  ∧ mj_publishedAt j = (if dto_publish dto then Some (now w) else None)
  ∧ row_userId (mj_row j) = Some (user_id user)
  ∧ row_date (mj_row j) = formatYMD (dto_date dto)
  ∧ nextJournalId (tenancy w' t) = nextJournalId (tenancy w t) + 1
  ∧ last (trace w') = Some (t, EDispatch (onCreated (mj_id j)))
  ∧ ∀ id, id ≠ mj_id j →
      manualJournals (tenancy w' t) !! id
      = manualJournals (tenancy w t) !! id.
Proof.
  intros H.
  apply makeJournalEntries_resolved in H
    as (g & ops & Ht & _ & _ & -> & ->).
  rewrite transformNewDTOToModel_run in Ht. cbv zeta in Ht.
  destruct (Js.truthyOptStr (Js.orElseStr _ _)) eqn:Htruthy;
    [|discriminate Ht].
  injection Ht as <-.
  unfold mj_journalNumber, mj_publishedAt.
  cbn [mj_id mj_row insertedRow g_journalNumber g_publishedAt g_userId
       g_date row_journalNumber row_publishedAt row_userId row_date].
  rewrite sameTables_addTrace, tenancy_setTables.
  cbn [nextJournalId manualJournals manualJournalEntries setJournals
       mj_entries g_entries].
  repeat split; try done.
  - apply lookup_insert_eq.
  - cbn [trace addTrace]. by rewrite last_snoc.
  - intros id Hne. by rewrite lookup_insert_ne.
Qed.

Lemma create_commits_row_witness :
  match makeJournalEntries 1 (balancedDTO None true) sampleUser sampleWorld
  with
  | (Resolved j, w') =>
      mj_id j = 3 ∧ mj_journalNumber j = Some "J-3"
      ∧ mj_publishedAt j = Some (MkDateTime 1000)
      ∧ manualJournals (tenancy w' 1) !! 3 = Some (mj_row j)
      ∧ length (manualJournalEntries (tenancy w' 1)) = 6%nat
  | (Rejected _, _) => False
  end.
Proof.
  destruct (makeJournalEntries 1 (balancedDTO None true) sampleUser
              sampleWorld) as [[j|e] w'] eqn:Hrun.
  - destruct (create_commits_row _ _ _ _ _ _ Hrun)
      as (Hid & Hstored & _ & Hentries & Hnum & _ & Hpub & _).
    rewrite Hid in Hstored. rewrite Hentries, Hid, Hnum, Hpub.
    by repeat split.
  - vm_compute in Hrun. discriminate Hrun.
Defined.

(** X5. Create fails fast, in a fixed order. Once a journal number is
    resolved, the rules are the balance rule, the contact rule, the
    account rule, the uniqueness rule on the resolved number and the
    contact-type rule; create is rejected with the error of the first of
    them that fails on the starting world, and goes through when none
    does. *)
Theorem create_fails_with_first_failing_rule
  (t : Z) (dto : IManualJournalDTO) (user : ISystemUser) (w : World)
  (n : string) :
  Js.orElseStr (dto_journalNumber dto) (nextTransactionNumber (tenancy w t))
  = Some n →
  Js.truthyStr n = true →
  match
    firstRejection
      [valdiateCreditDebitTotalEquals dto;
       (validateContactsExistance t dto w).1;
       (validateAccountsExistance t dto w).1;
       (validateManualJournalNoUnique t n None w).1;
       (dynamicValidateAccountsWithContactType t (dto_entries dto) w).1]
  with
  | Some e => (makeJournalEntries t dto user w).1 = Rejected e
  | None => ∃ j, (makeJournalEntries t dto user w).1 = Resolved j
  end.
Proof.
  intros Hn Htruthy. unfold makeJournalEntries.
  rewrite bind_run, transformNewDTOToModel_run. cbv zeta.
  rewrite Hn. cbn [Js.truthyOptStr]. rewrite Htruthy.
  rewrite bind_run. unfold liftSync. cbn [firstRejection].
  destruct (valdiateCreditDebitTotalEquals dto) as [[]|e]; [|done].
  destruct (validateContactsExistance t dto w).1 as [[]|e] eqn:Hcon.
  2:{ fail_stage t (ReadOnly_validateContactsExistance t dto) Hcon. done. }
  pass_stage t (ReadOnly_validateContactsExistance t dto) Hcon.
  destruct (validateAccountsExistance t dto w).1 as [[]|e] eqn:Hacc.
  2:{ fail_stage t (ReadOnly_validateAccountsExistance t dto) Hacc. done. }
  pass_stage t (ReadOnly_validateAccountsExistance t dto) Hacc.
  cbn [g_journalNumber].
  destruct (validateManualJournalNoUnique t n None w).1 as [[]|e] eqn:Huni.
  2:{ fail_stage t (ReadOnly_validateManualJournalNoUnique t n None) Huni.
      done. }
  pass_stage t (ReadOnly_validateManualJournalNoUnique t n None) Huni.
  destruct (dynamicValidateAccountsWithContactType t (dto_entries dto) w).1
    as [[]|e] eqn:Hdyn.
  2:{ fail_stage t (ReadOnly_dynamicValidateAccountsWithContactType t
                      (dto_entries dto)) Hdyn. done. }
  pass_stage t (ReadOnly_dynamicValidateAccountsWithContactType t
                  (dto_entries dto)) Hdyn.
  match goal with
  | |- context [(upsertGraph t ?g ≫= ?k) ?w0] =>
      change ((upsertGraph t g ≫= k) w0) with (persistNew t g w0);
      rewrite (persistNew_run t g w0 eq_refl)
  end.
  by eexists.
Qed.

Lemma create_fails_with_first_failing_rule_witness :
  (makeJournalEntries 1 danglingContactsDTO sampleUser sampleWorld).1
  = Rejected (CONTACTS_NOT_FOUND [None; Some vendor8]).
Proof.
  exact (create_fails_with_first_failing_rule 1 danglingContactsDTO
           sampleUser sampleWorld "J-9" eq_refl eq_refl).
Defined.

(** X6. Edit fails fast in the same order. Once the journal is found,
    the rules are the balance rule, the contact rule, the account rule,
    the uniqueness rule as edit runs it (skipped for a DTO without a
    journal number) and the contact-type rule; edit is rejected with the
    error of the first of them that fails on the starting world, and goes
    through, returning the journal as it was before, when none does. *)
Theorem edit_fails_with_first_failing_rule
  (t id : Z) (dto : IManualJournalDTO) (user : ISystemUser) (w : World)
  (oldRow : ManualJournalRow) :
  manualJournals (tenancy w t) !! id = Some oldRow →
  match
    firstRejection
      [valdiateCreditDebitTotalEquals dto;
       (validateContactsExistance t dto w).1;
       (validateAccountsExistance t dto w).1;
       (editUniqueRule t id dto w).1;
       (dynamicValidateAccountsWithContactType t (dto_entries dto) w).1]
  with
  | Some e => (editJournalEntries t id dto user w).1 = Rejected e
  | None =>
      ∃ j, (editJournalEntries t id dto user w).1
           = Resolved (j, withGraphFetched (tenancy w t) (id, oldRow))
  end.
Proof.
  intros Hrow. unfold editJournalEntries.
  fold (editUniqueRule t id dto).
  rewrite bind_run, getManualJournalOrThrowError_run, Hrow.
  rewrite bind_run, transformEditDTOToModel_run.
  rewrite bind_run. unfold liftSync. cbn [firstRejection].
  destruct (valdiateCreditDebitTotalEquals dto) as [[]|e]; [|done].
  destruct (validateContactsExistance t dto w).1 as [[]|e] eqn:Hcon.
  2:{ fail_stage t (ReadOnly_validateContactsExistance t dto) Hcon. done. }
  pass_stage t (ReadOnly_validateContactsExistance t dto) Hcon.
  destruct (validateAccountsExistance t dto w).1 as [[]|e] eqn:Hacc.
  2:{ fail_stage t (ReadOnly_validateAccountsExistance t dto) Hacc. done. }
  pass_stage t (ReadOnly_validateAccountsExistance t dto) Hacc.
  destruct (editUniqueRule t id dto w).1 as [[]|e] eqn:Huni.
  2:{ fail_stage t (ReadOnly_editUniqueRule t id dto) Huni. done. }
  pass_stage t (ReadOnly_editUniqueRule t id dto) Huni.
  destruct (dynamicValidateAccountsWithContactType t (dto_entries dto) w).1
    as [[]|e] eqn:Hdyn.
  2:{ fail_stage t (ReadOnly_dynamicValidateAccountsWithContactType t
                      (dto_entries dto)) Hdyn. done. }
  pass_stage t (ReadOnly_dynamicValidateAccountsWithContactType t
                  (dto_entries dto)) Hdyn.
  match goal with
  | |- context [(upsertGraph t ?g ≫= ?k) ?w0] =>
      change ((upsertGraph t g ≫= k) w0)
        with (persistEdit t id
                (g, withGraphFetched (tenancy w t) (id, oldRow)) w0);
      rewrite (persistEdit_run t id g _ oldRow w0 eq_refl Hrow)
  end.
  by eexists.
Qed.

Lemma edit_fails_with_first_failing_rule_witness :
  (editJournalEntries 1 1 unbalancedDTO sampleUser sampleWorld).1
  = Rejected CREDIT_DEBIT_NOT_EQUAL.
Proof.
  exact (edit_fails_with_first_failing_rule 1 1 unbalancedDTO sampleUser
           sampleWorld draftRow sample_lookup_draft).
Defined.

(** *** Delete, publish and read back *)

Lemma lookup_deleted (m : gmap Z ManualJournalRow) ids k :
  filter (fun kv : Z * ManualJournalRow => Js.includes kv.1 ids = false) m
  !! k
  = if Js.includes k ids then None else m !! k.
Proof.
  rewrite map_lookup_filter.
  destruct (m !! k) as [row|] eqn:Hk; cbn -[Js.includes].
  - destruct (Js.includes k ids) eqn:E.
    + by rewrite option_guard_False.
    + by rewrite option_guard_True.
  - by destruct (Js.includes k ids).
Qed.

Lemma lookup_patched (m : gmap Z ManualJournalRow) ids d k :
  map_imap
    (fun k row =>
       Some (if Js.includes k ids then setPublishedAt row d else row)) m
  !! k
  = (fun row => if Js.includes k ids then setPublishedAt row d else row)
    <$> m !! k.
Proof. rewrite map_lookup_imap. by destruct (m !! k). Qed.

Lemma entriesOf_deleted tables ids k :
  entriesOf (deletedTables tables ids) k
  = if Js.includes k ids then [] else entriesOf tables k.
Proof.
  unfold entriesOf, deletedTables. cbn [manualJournalEntries setJournals].
  rewrite filter_filter_andb.
  destruct (Js.includes k ids) eqn:E.
  - induction (manualJournalEntries tables) as [|r rs IH]; [done|].
    cbn. destruct (Z.eqb_spec (er_manualJournalId r) k) as [Heq|Hne].
    + rewrite Heq, E. cbn. exact IH.
    + rewrite andb_false_r. exact IH.
  - f_equal. apply List.filter_ext_in. intros r _.
    destruct (Z.eqb_spec (er_manualJournalId r) k) as [Heq|Hne].
    + by rewrite Heq, E.
    + by rewrite andb_false_r.
Qed.

Lemma includes_singleton k id : Js.includes k [id] = (k =? id).
Proof. cbn. apply orb_false_r. Qed.

(** X7. Deleting one journal. An id that is not stored ends the
    operation with NOT_FOUND after the lookup, with nothing deleted. For a
    stored journal the operation returns the journal as it was, with its
    entries; it deletes the journal's entries first and the journal
    second, then dispatches onDeleted; afterwards the journal and its
    entries are gone, every other journal and its entries are as before,
    and reading the deleted journal fails with NOT_FOUND. *)
Theorem delete_one_journal (t id : Z) (w : World) :
  (manualJournals (tenancy w t) !! id = None →
   deleteManualJournal t id w
   = (Rejected NOT_FOUND, addTrace w [(t, QJournalById id)]))
  ∧ (∀ row,
       manualJournals (tenancy w t) !! id = Some row →
       ∃ w',
         deleteManualJournal t id w
         = (Resolved (withGraphFetched (tenancy w t) (id, row)), w')
         ∧ trace w'
           = trace w
             ++ [(t, QJournalById id); (t, WDeleteEntries [id]);
                 (t, WDeleteJournals [id]); (t, EDispatch (onDeleted id))]
         ∧ manualJournals (tenancy w' t) !! id = None
         ∧ entriesOf (tenancy w' t) id = []
         ∧ (∀ k, k ≠ id →
              manualJournals (tenancy w' t) !! k
              = manualJournals (tenancy w t) !! k
              ∧ entriesOf (tenancy w' t) k = entriesOf (tenancy w t) k)
         ∧ (getManualJournal t id w').1 = Rejected NOT_FOUND).
Proof.
  split.
  - intros Hnone. unfold deleteManualJournal.
    by rewrite bind_run, getManualJournalOrThrowError_run, Hnone.
  - intros row Hrow. unfold deleteManualJournal.
    rewrite bind_run, getManualJournalOrThrowError_run, Hrow.
    eexists. split; [reflexivity|].
    match goal with
    | |- trace ?W = _ ∧ _ =>
        assert (Htab : tenancy W t = deletedTables (tenancy w t) [id])
          by (repeat (rewrite sameTables_addTrace
                      || rewrite tenancy_setTables); reflexivity);
        assert (Htrace :
          trace W
          = trace w
            ++ [(t, QJournalById id); (t, WDeleteEntries [id]);
                (t, WDeleteJournals [id]); (t, EDispatch (onDeleted id))])
          by (cbn [trace addTrace setTables]; by rewrite <- !app_assoc);
        generalize dependent W; intros w' Htab Htrace
    end.
    split; [exact Htrace|]. rewrite Htab.
    assert (Hgone : manualJournals (deletedTables (tenancy w t) [id]) !! id
                    = None).
    { unfold deletedTables. cbn [manualJournals setJournals].
      by rewrite lookup_deleted, includes_singleton, Z.eqb_refl. }
    split; [exact Hgone|]. split; [|split].
    + by rewrite entriesOf_deleted, includes_singleton, Z.eqb_refl.
    + intros k Hne.
      assert (Hk : Js.includes k [id] = false).
      { rewrite includes_singleton. by apply Z.eqb_neq. }
      split.
      * unfold deletedTables. cbn [manualJournals setJournals].
        by rewrite lookup_deleted, Hk.
      * by rewrite entriesOf_deleted, Hk.
    + unfold getManualJournal.
      rewrite bind_run, getManualJournalOrThrowError_run.
      by rewrite Htab, Hgone.
Qed.

Lemma delete_one_journal_witness :
  deleteManualJournal 1 99 sampleWorld
  = (Rejected NOT_FOUND, addTrace sampleWorld [(1, QJournalById 99)])
  ∧ ∃ w',
      deleteManualJournal 1 1 sampleWorld
      = (Resolved (withGraphFetched sampleTables (1, draftRow)), w')
      ∧ (getManualJournal 1 1 w').1 = Rejected NOT_FOUND.
Proof.
  destruct (delete_one_journal 1 99 sampleWorld) as [Habsent _].
  destruct (delete_one_journal 1 1 sampleWorld) as [_ Hstored].
  split; [exact (Habsent sample_lookup_missing)|].
  destruct (Hstored draftRow sample_lookup_draft)
    as (w' & Hrun & _ & _ & _ & _ & Hget).
  by exists w'.
Defined.

(** X8. Publishing a draft. The single-journal publish of a stored
    journal without publishedAt goes through: it stamps publishedAt with
    the current time and changes nothing else of the journal, leaves
    every other journal and all entries as they were, issues the patch
    between the two lookups and dispatches onPublished last; publishing
    the same journal again then fails with
    MANUAL_JOURNAL_ALREADY_PUBLISHED. *)
Theorem publish_draft
  (t id : Z) (w : World) (row : ManualJournalRow) :
  manualJournals (tenancy w t) !! id = Some row →
  row_publishedAt row = None →
  ∃ w',
    publishManualJournal t id w = (Resolved tt, w')
    ∧ manualJournals (tenancy w' t) !! id
      = Some (setPublishedAt row (now w))
    ∧ (∀ k, k ≠ id →
         manualJournals (tenancy w' t) !! k
         = manualJournals (tenancy w t) !! k)
    ∧ manualJournalEntries (tenancy w' t)
      = manualJournalEntries (tenancy w t)
    ∧ trace w'
      = trace w
        ++ [(t, QJournalById id); (t, WPatchPublishedAt [id] (now w));
            (t, QJournalById id); (t, EDispatch (onPublished id))]
    ∧ (publishManualJournal t id w').1
      = Rejected MANUAL_JOURNAL_ALREADY_PUBLISHED.
Proof.
  intros Hrow Hdraft. unfold publishManualJournal at 1.
  rewrite bind_run, getManualJournalOrThrowError_run, Hrow.
  rewrite bind_run. unfold liftSync, validateManualJournalIsNotPublished.
  unfold mj_publishedAt; cbn [mj_row withGraphFetched snd].
  rewrite Hdraft. cbn [truthyDateTime].
  eexists. split; [reflexivity|].
  match goal with
  | |- manualJournals (tenancy ?W t) !! id = _ ∧ _ =>
      assert (Htab : tenancy W t = stampedTables (tenancy w t) [id] (now w))
        by (repeat (rewrite sameTables_addTrace
                    || rewrite tenancy_setTables); reflexivity);
      assert (Htrace :
        trace W
        = trace w
          ++ [(t, QJournalById id); (t, WPatchPublishedAt [id] (now w));
              (t, QJournalById id); (t, EDispatch (onPublished id))])
        by (cbn [trace addTrace setTables]; by rewrite <- !app_assoc);
      generalize dependent W; intros w' Htab Htrace
  end.
  rewrite Htab.
  assert (Hstamped :
    manualJournals (stampedTables (tenancy w t) [id] (now w)) !! id
    = Some (setPublishedAt row (now w))).
  { unfold stampedTables. cbn [manualJournals setJournals].
    by rewrite lookup_patched, includes_singleton, Z.eqb_refl, Hrow. }
  split; [exact Hstamped|]. split; [|split; [|split]].
  - intros k Hne. unfold stampedTables. cbn [manualJournals setJournals].
    rewrite lookup_patched, includes_singleton.
    rewrite (proj2 (Z.eqb_neq k id) Hne).
    by destruct (manualJournals (tenancy w t) !! k).
  - done.
  - exact Htrace.
  - unfold publishManualJournal.
    rewrite bind_run, getManualJournalOrThrowError_run, Htab, Hstamped.
    reflexivity.
Qed.

Lemma publish_draft_witness :
  ∃ w',
    publishManualJournal 1 1 sampleWorld = (Resolved tt, w')
    ∧ manualJournals (tenancy w' 1) !! 1
      = Some (setPublishedAt draftRow (MkDateTime 1000))
    ∧ (publishManualJournal 1 1 w').1
      = Rejected MANUAL_JOURNAL_ALREADY_PUBLISHED.
Proof.
  destruct (publish_draft 1 1 sampleWorld draftRow sample_lookup_draft
              eq_refl) as (w' & Hrun & Hrow & _ & _ & _ & Hagain).
  by exists w'.
Defined.

Lemma filter_none {A : Type} (f : A → bool) (l : list A) :
  (∀ x, x ∈ l → f x = false) → List.filter f l = [].
Proof.
  induction l as [|x xs IH]; [done|]. intros H. cbn.
  rewrite (H x (list_elem_of_here x xs)). apply IH.
  intros y Hy. apply H. by right.
Qed.

(** What a bulk publish whose ids all resolve leaves behind. *)
Lemma publishManualJournals_world t ids w :
  (∀ id, id ∈ ids → is_Some (manualJournals (tenancy w t) !! id)) →
  let found := foundJournals (tenancy w t) ids in
  let drafts := getNonePublishedManualJournals found in
  ∃ w',
    publishManualJournals t ids w
    = (Resolved
         {| alreadyPublished :=
              Z.of_nat (length (getPublishedManualJournals found));
            published := Z.of_nat (length drafts);
            total := Z.of_nat (length found) |},
       w')
    ∧ tenancy w' t
      = (if 0 <? Z.of_nat (length drafts)
         then stampedTables (tenancy w t) (List.map mj_id drafts) (now w)
         else tenancy w t)
    ∧ trace w'
      = trace w
        ++ (t, QJournalsWhereIn ids)
           :: (if 0 <? Z.of_nat (length drafts)
               then [(t, WPatchPublishedAt (List.map mj_id drafts) (now w))]
               else [])
           ++ [(t, EDispatch (onPublishedBulk ids))].
Proof.
  intros Hall found drafts. unfold publishManualJournals.
  rewrite bind_run, getManualJournalsOrThrowError_found by done.
  fold found. cbv zeta. fold drafts.
  destruct (0 <? Z.of_nat (length drafts)) eqn:E.
  - eexists. split; [reflexivity|]. split.
    + repeat (rewrite sameTables_addTrace || rewrite tenancy_setTables).
      reflexivity.
    + cbn [trace addTrace setTables]. by rewrite <- !app_assoc.
  - eexists. split; [reflexivity|]. split; [done|].
    cbn [trace addTrace]. by rewrite <- !app_assoc.
Qed.

Lemma publishManualJournals_lookup t ids w w' k :
  tenancy w' t
  = (if 0 <? Z.of_nat
               (length (getNonePublishedManualJournals
                          (foundJournals (tenancy w t) ids)))
     then stampedTables (tenancy w t)
            (List.map mj_id
               (getNonePublishedManualJournals
                  (foundJournals (tenancy w t) ids)))
            (now w)
     else tenancy w t) →
  manualJournals (tenancy w' t) !! k
  = (fun row =>
       if Js.includes k ids && negb (truthyDateTime (row_publishedAt row))
       then setPublishedAt row (now w) else row)
    <$> manualJournals (tenancy w t) !! k.
Proof.
  intros ->.
  destruct (manualJournals (tenancy w t) !! k) as [row|] eqn:Hk.
  - cbn [fmap option_fmap option_map].
    rewrite <- (notPublished_ids (tenancy w t) ids k row Hk).
    destruct (0 <? Z.of_nat (length _)) eqn:E.
    + unfold stampedTables. cbn [manualJournals setJournals].
      by rewrite lookup_patched, Hk.
    + apply positive_length_false in E. by rewrite E, Hk.
  - destruct (0 <? Z.of_nat (length _)); [|by rewrite Hk].
    unfold stampedTables. cbn [manualJournals setJournals].
    by rewrite lookup_patched, Hk.
Qed.

(** X9. A bulk publish in which some id does not resolve to a stored
    journal is rejected with NOT_FOUND after the one lookup: no journal
    of the batch is stamped, and the tables are as before. *)
Theorem bulk_publish_missing_id (t : Z) (ids : list Z) (w : World) (id : Z) :
  id ∈ ids →
  manualJournals (tenancy w t) !! id = None →
  publishManualJournals t ids w
  = (Rejected NOT_FOUND, addTrace w [(t, QJournalsWhereIn ids)]).
Proof.
  intros Hid Hnone. unfold publishManualJournals.
  by rewrite bind_run, (getManualJournalsOrThrowError_missing t ids w id).
Qed.

Lemma bulk_publish_missing_id_witness :
  publishManualJournals 1 [1; 99] sampleWorld
  = (Rejected NOT_FOUND, addTrace sampleWorld [(1, QJournalsWhereIn [1; 99])]).
Proof.
  apply (bulk_publish_missing_id 1 [1; 99] sampleWorld 99).
  - apply elem_of_cons. right. apply list_elem_of_here.
  - exact sample_lookup_missing.
Defined.

(** X10. Bulk publish is idempotent. After a bulk publish whose ids all
    resolve, a second bulk publish of the same ids goes through, reports
    published = 0 and alreadyPublished = total, issues no patch (only the
    lookup and the event) and leaves the tables as the first one left
    them. *)
Theorem bulk_publish_twice (t : Z) (ids : list Z) (w : World) :
  (∀ id, id ∈ ids → is_Some (manualJournals (tenancy w t) !! id)) →
  ∃ meta1 w1 meta2 w2,
    publishManualJournals t ids w = (Resolved meta1, w1)
    ∧ publishManualJournals t ids w1 = (Resolved meta2, w2)
    ∧ published meta2 = 0
    ∧ alreadyPublished meta2 = total meta2
    ∧ tenancy w2 t = tenancy w1 t
    ∧ trace w2
      = trace w1
        ++ [(t, QJournalsWhereIn ids); (t, EDispatch (onPublishedBulk ids))].
Proof.
  intros Hall.
  destruct (publishManualJournals_world t ids w Hall)
    as (w1 & Hrun1 & Htab1 & _).
  pose proof (fun k => publishManualJournals_lookup t ids w w1 k Htab1)
    as Hlook.
  assert (Hall1 : ∀ id, id ∈ ids →
            is_Some (manualJournals (tenancy w1 t) !! id)).
  { intros id Hid. rewrite Hlook. destruct (Hall id Hid) as [row ->].
    by eexists. }
  assert (Hnone : getNonePublishedManualJournals
                    (foundJournals (tenancy w1 t) ids) = []).
  { apply filter_none. intros j Hj.
    apply elem_of_foundJournals in Hj as (id & row' & -> & Hrow' & Hid).
    unfold mj_publishedAt. cbn [mj_row withGraphFetched snd].
    rewrite Hlook in Hrow'.
    destruct (manualJournals (tenancy w t) !! id) as [row|];
      [|discriminate Hrow'].
    cbn in Hrow'. injection Hrow' as <-.
    apply includes_spec in Hid. rewrite Hid. cbn [andb].
    destruct (row_publishedAt row) eqn:Epub; cbn; by rewrite ?Epub. }
  destruct (publishManualJournals_world t ids w1 Hall1)
    as (w2 & Hrun2 & Htab2 & Htrace2).
  cbv zeta in Hrun2, Htab2, Htrace2. rewrite Hnone in Hrun2, Htab2, Htrace2.
  eexists _, w1, _, w2. split; [exact Hrun1|]. split; [exact Hrun2|].
  cbn [published alreadyPublished total length].
  repeat split; try done.
  pose proof (filter_complement_length
                (fun j => truthyDateTime (mj_publishedAt j))
                (foundJournals (tenancy w1 t) ids)) as Hcount.
  cbv beta in Hcount.
  unfold getNonePublishedManualJournals in Hnone. rewrite Hnone in Hcount.
  unfold getPublishedManualJournals. cbn [length] in Hcount. lia.
Qed.

Lemma bulk_publish_twice_witness :
  ∃ meta1 w1 meta2 w2,
    publishManualJournals 1 [1; 2] sampleWorld = (Resolved meta1, w1)
    ∧ publishManualJournals 1 [1; 2] w1 = (Resolved meta2, w2)
    ∧ published meta2 = 0.
Proof.
  destruct (bulk_publish_twice 1 [1; 2] sampleWorld sample_both_stored)
    as (meta1 & w1 & meta2 & w2 & H1 & H2 & Hzero & _).
  by exists meta1, w1, meta2, w2.
Defined.

(** X11. Create then read back. When no stored entry already carries
    the id the table hands out next, reading the journal a create returned
    gives back that same journal: the submitted entries, in order, and an
    amount equal to the sum of their credits. Reading an id that is not
    stored fails with NOT_FOUND. *)
Theorem get_after_create
  (t : Z) (dto : IManualJournalDTO) (user : ISystemUser) (w : World) :
  (∀ j w',
     (∀ r, r ∈ manualJournalEntries (tenancy w t) →
           er_manualJournalId r ≠ nextJournalId (tenancy w t)) →
     makeJournalEntries t dto user w = (Resolved j, w') →
     (getManualJournal t (mj_id j) w').1 = Resolved (Some j)
     ∧ mj_entries j = dto_entries dto
     ∧ mj_amount j = sumCredits (dto_entries dto))
  ∧ (∀ id,
       manualJournals (tenancy w t) !! id = None →
       (getManualJournal t id w).1 = Rejected NOT_FOUND).
Proof.
  split.
  - intros j w' Hfresh H.
    apply makeJournalEntries_resolved in H
      as (g & ops & Ht & _ & _ & -> & ->).
    rewrite transformNewDTOToModel_run in Ht. cbv zeta in Ht.
    destruct (Js.truthyOptStr _); [|discriminate Ht]. injection Ht as <-.
    cbn [mj_id mj_entries g_entries]. split; [|split; [done|]].
    + unfold getManualJournal.
      rewrite bind_run, getManualJournalOrThrowError_run.
      rewrite sameTables_addTrace, tenancy_setTables.
      cbn [manualJournals setJournals]. rewrite lookup_insert_eq.
      rewrite findJournalById_run.
      rewrite !sameTables_addTrace, tenancy_setTables.
      cbn [manualJournals setJournals fst]. rewrite lookup_insert_eq.
      do 3 f_equal. unfold withGraphFetched. cbn [fst snd]. f_equal.
      unfold entriesOf. cbn [manualJournalEntries setJournals g_entries].
      rewrite List.filter_app, List.map_app.
      rewrite filter_none.
      * cbn [List.map app].
        induction (dto_entries dto) as [|e es IH]; [done|].
        cbn. rewrite Z.eqb_refl. cbn. by rewrite IH.
      * intros r Hr. apply Z.eqb_neq. by apply Hfresh.
    + unfold mj_amount. cbn. apply amount_is_sumCredits.
  - intros id Hnone. unfold getManualJournal.
    by rewrite bind_run, getManualJournalOrThrowError_run, Hnone.
Qed.

Lemma get_after_create_witness :
  match makeJournalEntries 1 (balancedDTO None false) sampleUser sampleWorld
  with
  | (Resolved j, w') =>
      (getManualJournal 1 (mj_id j) w').1 = Resolved (Some j)
      ∧ mj_amount j = 100
  | (Rejected _, _) => False
  end
  ∧ (getManualJournal 1 99 sampleWorld).1 = Rejected NOT_FOUND.
Proof.
  destruct (get_after_create 1 (balancedDTO None false) sampleUser
              sampleWorld) as [Hget Habsent].
  split; [|exact (Habsent 99 sample_lookup_missing)].
  destruct (makeJournalEntries 1 (balancedDTO None false) sampleUser
              sampleWorld) as [[j|e] w'] eqn:Hrun.
  - destruct (Hget j w') as (Hread & _ & Hamount); [|done|].
    + intros r. cbn. rewrite !elem_of_cons, elem_of_nil.
      intros [->|[->|[->|[->|[]]]]]; cbn; lia.
    + split; [exact Hread|]. rewrite Hamount. reflexivity.
  - vm_compute in Hrun. discriminate Hrun.
Defined.

(** *** What an edit commits, and what no operation touches *)

Lemma entriesOf_other tables js id k entries next :
  k ≠ id →
  entriesOf
    (setJournals tables js
       (List.filter (fun r => negb (er_manualJournalId r =? id))
          (manualJournalEntries tables)
        ++ List.map (mkEntryRow id) entries)
       next) k
  = entriesOf tables k.
Proof.
  intros Hne. unfold entriesOf. cbn [manualJournalEntries setJournals].
  rewrite List.filter_app, List.map_app.
  rewrite (filter_none _ (List.map (mkEntryRow id) entries)).
  - cbn [List.map]. rewrite app_nil_r. f_equal.
    rewrite filter_filter_andb. apply List.filter_ext. intros r.
    destruct (Z.eqb_spec (er_manualJournalId r) k) as [Heq|];
      [|by rewrite andb_false_r].
    rewrite Heq, (proj2 (Z.eqb_neq k id) Hne). done.
  - intros r Hr.
    change (List.map (mkEntryRow id)) with (fmap (M:=list) (mkEntryRow id))
      in Hr.
    apply list_elem_of_fmap in Hr as (e & -> & _). cbn.
    apply Z.eqb_neq. congruence.
Qed.

(** X12. What an edit that goes through commits: the journal found under
    the id is returned as it was before; the stored row keeps its id and
    its user, takes the DTO's date and currency, takes the DTO's journal
    number when the DTO carries one and keeps the stored number when it
    carries none; the journal read back is that row with the DTO's
    entries; the id counter does not move; and every other journal and
    its entries are as before. *)
Theorem edit_commits_row
  (t id : Z) (dto : IManualJournalDTO) (user : ISystemUser) (w : World)
  (j : option IManualJournal) (old : IManualJournal) (w' : World) :
  editJournalEntries t id dto user w = (Resolved (j, old), w') →
  ∃ oldRow row',
    manualJournals (tenancy w t) !! id = Some oldRow
    ∧ old = withGraphFetched (tenancy w t) (id, oldRow)
    ∧ manualJournals (tenancy w' t) !! id = Some row'
    ∧ j = Some {| mj_id := id; mj_row := row';
                  mj_entries := dto_entries dto |}
    ∧ row_userId row' = row_userId oldRow
    ∧ row_journalNumber row'
      = match dto_journalNumber dto with
        | Some n => Some n
        | None => row_journalNumber oldRow
        end
    ∧ row_date row' = formatYMD (dto_date dto)
    ∧ row_currencyCode row' = dto_currencyCode dto
    ∧ nextJournalId (tenancy w' t) = nextJournalId (tenancy w t)
    ∧ ∀ k, k ≠ id →
        manualJournals (tenancy w' t) !! k
        = manualJournals (tenancy w t) !! k
        ∧ entriesOf (tenancy w' t) k = entriesOf (tenancy w t) k.
Proof.
  intros H.
  apply editJournalEntries_resolved in H
    as (oldRow & g & ops & tables' & Hrow & Hold & Ht & _ & _
        & Htab & -> & ->).
  rewrite transformEditDTOToModel_run in Ht. injection Ht as <-.
  subst tables'. eexists oldRow, _.
  rewrite !sameTables_addTrace, !tenancy_setTables.
  cbn [manualJournals setJournals nextJournalId g_entries].
  split; [done|]. split; [done|].
  split; [apply lookup_insert_eq|].
  split.
  { unfold withGraphFetched. cbn [fst snd]. do 2 f_equal.
    apply entriesOf_replaced. }
  cbn [patchedRow row_userId row_journalNumber row_date row_currencyCode
       g_userId g_journalNumber g_date g_currencyCode].
  repeat split; try done.
  - by rewrite lookup_insert_ne.
  - by apply entriesOf_other.
Qed.

Lemma edit_commits_row_witness :
  match editJournalEntries 1 1 (balancedDTO None false) sampleUser
          sampleWorld
  with
  | (Resolved (_, old), w') =>
      old = withGraphFetched sampleTables (1, draftRow)
      ∧ row_journalNumber <$> manualJournals (tenancy w' 1) !! 1
        = Some (Some "J-1")
  | (Rejected _, _) => False
  end.
Proof.
  destruct (editJournalEntries 1 1 (balancedDTO None false) sampleUser
              sampleWorld) as [[[j old]|e] w'] eqn:Hrun.
  - destruct (edit_commits_row _ _ _ _ _ _ _ _ Hrun)
      as (oldRow & row' & Hold & -> & Hnew & _ & _ & Hnum & _).
    rewrite sample_lookup_draft in Hold. injection Hold as <-.
    split; [done|]. rewrite Hnew. cbn. by rewrite Hnum.
  - vm_compute in Hrun. discriminate Hrun.
Defined.

Lemma Confined_ret {A : Type} t (a : A) : Confined t (mret a).
Proof. by intros w t' _. Qed.

Lemma Confined_throw {A : Type} t e : Confined t (@throw A e).
Proof. by intros w t' _. Qed.

Lemma Confined_liftSync {A : Type} t (r : Outcome A) :
  Confined t (liftSync r).
Proof. by intros w t' _. Qed.

Lemma Confined_momentNow t : Confined t momentNow.
Proof. by intros w t' _. Qed.

Lemma Confined_models t : Confined t (models t).
Proof. by intros w t' _. Qed.

Lemma Confined_issue t op : Confined t (issue t op).
Proof. by intros w t' _. Qed.

Lemma Confined_storeModels t tables : Confined t (storeModels t tables).
Proof.
  intros w t' Hne. cbn. by rewrite (proj2 (Z.eqb_neq t' t) Hne).
Qed.

Lemma Confined_bind {A B : Type} t (m : Async A) (k : A → Async B) :
  Confined t m → (∀ a, Confined t (k a)) → Confined t (m ≫= k).
Proof.
  intros Hm Hk w t' Hne. rewrite bind_run.
  specialize (Hm w t' Hne). destruct (m w) as [[a|e] w1]; cbn in Hm.
  - by rewrite (Hk a w1 t' Hne).
  - done.
Qed.

Lemma Confined_promiseAll2 t (p1 p2 : Async unit) :
  Confined t p1 → Confined t p2 → Confined t (promiseAll2 p1 p2).
Proof.
  intros Hp1 Hp2 w t' Hne. unfold promiseAll2.
  specialize (Hp1 w t' Hne). destruct (p1 w) as [r1 w1]; cbn in Hp1.
  specialize (Hp2 w1 t' Hne). destruct (p2 w1) as [r2 w2]; cbn in Hp2.
  destruct r1, r2; cbn; congruence.
Qed.

Create HintDb confined.
#[local] Hint Resolve Confined_ret Confined_throw Confined_liftSync
  Confined_momentNow Confined_models Confined_issue Confined_storeModels
  Confined_promiseAll2 : confined.

Ltac confined :=
  repeat first
    [ solve [eauto with confined]
    | progress cbv zeta
    | apply Confined_promiseAll2
    | apply Confined_bind; [|intros ?]
    | match goal with
      | |- Confined _ (match ?x with _ => _ end) => destruct x
      | |- Confined _ (if ?b then _ else _) => destruct b
      end ].

Lemma Confined_reads t :
  (∀ id, Confined t (findJournalById t id))
  ∧ (∀ ids, Confined t (findJournalsWhereIn t ids))
  ∧ (∀ n notId, Confined t (findJournalsByNumber t n notId))
  ∧ (∀ ids, Confined t (findAccountsWhereIn t ids))
  ∧ (∀ slug, Confined t (findAccountBySlug t slug))
  ∧ (∀ ids, Confined t (findContactsWhereIn t ids))
  ∧ Confined t (getNextJournalNumber t).
Proof.
  repeat split; intros;
    unfold findJournalById, findJournalsWhereIn, findJournalsByNumber,
      findAccountsWhereIn, findAccountBySlug, findContactsWhereIn,
      getNextJournalNumber; confined.
Qed.

Lemma Confined_writes t :
  (∀ g, Confined t (upsertGraph t g))
  ∧ (∀ ids, Confined t (deleteEntriesWhereIn t ids))
  ∧ (∀ ids, Confined t (deleteJournalsWhereIn t ids))
  ∧ (∀ ids d, Confined t (patchPublishedAt t ids d)).
Proof.
  repeat split; intros;
    unfold upsertGraph, deleteEntriesWhereIn, deleteJournalsWhereIn,
      patchPublishedAt; confined.
Qed.

Lemma Confined_rules t :
  (∀ id, Confined t (getManualJournalOrThrowError t id))
  ∧ (∀ ids, Confined t (getManualJournalsOrThrowError t ids))
  ∧ (∀ dto, Confined t (validateContactsExistance t dto))
  ∧ (∀ dto, Confined t (validateAccountsExistance t dto))
  ∧ (∀ n notId, Confined t (validateManualJournalNoUnique t n notId))
  ∧ (∀ entries, Confined t (dynamicValidateAccountsWithContactType t entries))
  ∧ (∀ dto user, Confined t (transformNewDTOToModel t dto user))
  ∧ (∀ dto old, Confined t (transformEditDTOToModel dto old)).
Proof.
  destruct (Confined_reads t) as (? & ? & ? & ? & ? & ? & ?).
  repeat split; intros;
    unfold getManualJournalOrThrowError, getManualJournalsOrThrowError,
      validateContactsExistance, validateAccountsExistance,
      validateManualJournalNoUnique,
      dynamicValidateAccountsWithContactType,
      validateAccountWithContactType, transformNewDTOToModel,
      transformEditDTOToModel; confined.
Qed.

(** X13. Tenant isolation. Whatever the request and whether it goes
    through or is rejected, create, edit, delete (one or many) and publish
    (one or many) run for one tenant leave the tables of every other
    tenant exactly as they were. *)
Theorem other_tenants_untouched (t t' : Z) (w : World) :
  t' ≠ t →
  (∀ dto user,
     tenancy (makeJournalEntries t dto user w).2 t' = tenancy w t')
  ∧ (∀ id dto user,
       tenancy (editJournalEntries t id dto user w).2 t' = tenancy w t')
  ∧ (∀ id, tenancy (deleteManualJournal t id w).2 t' = tenancy w t')
  ∧ (∀ ids, tenancy (deleteManualJournals t ids w).2 t' = tenancy w t')
  ∧ (∀ id, tenancy (publishManualJournal t id w).2 t' = tenancy w t')
  ∧ (∀ ids, tenancy (publishManualJournals t ids w).2 t' = tenancy w t').
Proof.
  intros Hne.
  destruct (Confined_reads t) as (? & ? & ? & ? & ? & ? & ?).
  destruct (Confined_writes t) as (? & ? & ? & ?).
  destruct (Confined_rules t) as (? & ? & ? & ? & ? & ? & ? & ?).
  assert (Hdispatch : ∀ ev, Confined t (dispatch t ev))
    by (intros; apply Confined_issue).
  repeat split; intros.
  - assert (Hc : Confined t (makeJournalEntries t dto user))
      by (unfold makeJournalEntries; confined).
    by apply Hc.
  - assert (Hc : Confined t (editJournalEntries t id dto user))
      by (unfold editJournalEntries; confined).
    by apply Hc.
  - assert (Hc : Confined t (deleteManualJournal t id))
      by (unfold deleteManualJournal; confined).
    by apply Hc.
  - assert (Hc : Confined t (deleteManualJournals t ids))
      by (unfold deleteManualJournals; confined).
    by apply Hc.
  - assert (Hc : Confined t (publishManualJournal t id))
      by (unfold publishManualJournal; confined).
    by apply Hc.
  - assert (Hc : Confined t (publishManualJournals t ids))
      by (unfold publishManualJournals; confined).
    by apply Hc.
Qed.

Lemma other_tenants_untouched_witness :
  tenancy (deleteManualJournals 1 [1; 2] sampleWorld).2 2
  = tenancy sampleWorld 2.
Proof.
  destruct (other_tenants_untouched 1 2 sampleWorld) as (_ & _ & _ & H & _).
  - lia.
  - apply H.
Defined.

(** *** Bulk requests: repeated ids, empty requests *)

Lemma foundJournals_length tables ids :
  (∀ id, id ∈ ids → is_Some (manualJournals tables !! id)) →
  length (foundJournals tables ids) = length (remove_dups ids).
Proof.
  intros Hall. unfold foundJournals. rewrite length_map.
  rewrite <- (length_fmap fst).
  apply Permutation_length, NoDup_Permutation.
  - apply NoDup_fst_rowsById.
  - apply NoDup_remove_dups.
  - intros k. rewrite elem_of_remove_dups, list_elem_of_fmap. split.
    + intros ([k' row] & -> & Hin).
      apply elem_of_rowsById, map_lookup_filter_Some in Hin as [_ Hk].
      by apply includes_spec.
    + intros Hk. destruct (Hall k Hk) as [row Hrow].
      exists (k, row). split; [done|].
      apply elem_of_rowsById, map_lookup_filter_Some.
      split; [done|]. by apply includes_spec.
Qed.

(** X14. An id repeated in a bulk request counts once. When every id
    resolves, bulk publish reports total = the number of distinct ids,
    and bulk delete returns exactly one journal per distinct id: the
    journals found under the requested ids, each as it was stored, with
    its entries, before the deletion. *)
Theorem bulk_requests_count_distinct_ids
  (t : Z) (ids : list Z) (w : World) :
  (∀ id, id ∈ ids → is_Some (manualJournals (tenancy w t) !! id)) →
  (∃ meta w',
     publishManualJournals t ids w = (Resolved meta, w')
     ∧ total meta = Z.of_nat (length (remove_dups ids)))
  ∧ (∃ old w',
       deleteManualJournals t ids w = (Resolved old, w')
       ∧ length old = length (remove_dups ids)
       ∧ ∀ j, j ∈ old
              ↔ ∃ id row,
                  j = withGraphFetched (tenancy w t) (id, row)
                  ∧ manualJournals (tenancy w t) !! id = Some row
                  ∧ id ∈ ids).
Proof.
  intros Hall. split.
  - destruct (publishManualJournals_world t ids w Hall)
      as (w' & Hrun & _).
    eexists _, w'. split; [exact Hrun|]. cbn [total].
    by rewrite foundJournals_length.
  - unfold deleteManualJournals.
    rewrite bind_run, getManualJournalsOrThrowError_found by done.
    eexists _, _. split; [reflexivity|].
    split; [by apply foundJournals_length|].
    intros j. apply elem_of_foundJournals.
Qed.

Lemma bulk_requests_count_distinct_ids_witness :
  ∃ meta w',
    publishManualJournals 1 [1; 2; 1; 1] sampleWorld = (Resolved meta, w')
    ∧ total meta = 2.
Proof.
  destruct (bulk_requests_count_distinct_ids 1 [1; 2; 1; 1] sampleWorld)
    as [(meta & w' & Hrun & Htotal) _].
  - intros id. rewrite !elem_of_cons, elem_of_nil.
    intros [->|[->|[->|[->|[]]]]]; by eexists.
  - exists meta, w'. split; [exact Hrun|]. rewrite Htotal. reflexivity.
Defined.

Lemma foundJournals_nil tables : foundJournals tables [] = [].
Proof.
  unfold foundJournals.
  replace (filter (fun kv : Z * ManualJournalRow => Js.includes kv.1 [] = true)
             (manualJournals tables))
    with (∅ : gmap Z ManualJournalRow); [by rewrite rowsById_empty|].
  symmetry. apply map_empty. intros k.
  apply map_lookup_filter_None. right. intros row _. cbn. discriminate.
Qed.

(** X15. Empty bulk requests go through. A bulk publish of no ids
    reports 0 already published, 0 published and total 0, issues the
    lookup and the event and no patch; a bulk delete of no ids returns no
    journal, still issues both deletes (on the empty id list) and the
    event, and leaves every journal and every entry as stored. *)
Theorem empty_bulk_requests (t : Z) (w : World) :
  publishManualJournals t [] w
  = (Resolved {| alreadyPublished := 0; published := 0; total := 0 |},
     addTrace w
       [(t, QJournalsWhereIn []); (t, EDispatch (onPublishedBulk []))])
  ∧ ∃ w',
      deleteManualJournals t [] w = (Resolved [], w')
      ∧ trace w'
        = trace w
          ++ [(t, QJournalsWhereIn []); (t, WDeleteEntries []);
              (t, WDeleteJournals []); (t, EDispatch (onDeletedBulk []))]
      ∧ ∀ k,
          manualJournals (tenancy w' t) !! k
          = manualJournals (tenancy w t) !! k
          ∧ entriesOf (tenancy w' t) k = entriesOf (tenancy w t) k.
Proof.
  assert (Hall : ∀ id, id ∈ @nil Z →
            is_Some (manualJournals (tenancy w t) !! id)).
  { intros id Hid. by apply elem_of_nil in Hid. }
  split.
  - unfold publishManualJournals.
    rewrite bind_run, getManualJournalsOrThrowError_found by done.
    rewrite foundJournals_nil. cbv zeta.
    change (getNonePublishedManualJournals []) with (@nil IManualJournal).
    change (getPublishedManualJournals []) with (@nil IManualJournal).
    cbn [length List.map Z.of_nat]. change (0 <? 0) with false. cbv iota.
    unfold mbind, async_bind, mret, async_ret, dispatch, issue.
    change (Z.of_nat 0) with 0. change (0 <? 0) with false.
    cbv beta iota. by rewrite addTrace_app.
  - unfold deleteManualJournals.
    rewrite bind_run, getManualJournalsOrThrowError_found by done.
    rewrite foundJournals_nil.
    eexists. split; [reflexivity|].
    match goal with
    | |- trace ?W = _ ∧ _ =>
        assert (Htab : tenancy W t = deletedTables (tenancy w t) [])
          by (repeat (rewrite sameTables_addTrace
                      || rewrite tenancy_setTables); reflexivity);
        assert (Htrace :
          trace W
          = trace w
            ++ [(t, QJournalsWhereIn []); (t, WDeleteEntries []);
                (t, WDeleteJournals []);
                (t, EDispatch (onDeletedBulk []))])
          by (cbn [trace addTrace setTables]; by rewrite <- !app_assoc);
        generalize dependent W; intros w' Htab Htrace
    end.
    split; [exact Htrace|]. intros k. rewrite Htab. split.
    + unfold deletedTables. cbn [manualJournals setJournals].
      by rewrite lookup_deleted.
    + by rewrite entriesOf_deleted.
Qed.

(** *** Numbers, amounts and the seeded accounts *)

Lemma validateContactsExistance_same_contacts t dto w w' :
  contacts (tenancy w' t) = contacts (tenancy w t) →
  (validateContactsExistance t dto w').1
  = (validateContactsExistance t dto w).1.
Proof.
  intros Hsame. rewrite !validateContactsExistance_run. cbv zeta.
  rewrite Hsame. by destruct (List.filter _ (dto_entries dto)).
Qed.

Lemma validateAccountsExistance_same_accounts t dto w w' :
  accounts (tenancy w' t) = accounts (tenancy w t) →
  (validateAccountsExistance t dto w').1
  = (validateAccountsExistance t dto w).1.
Proof.
  intros Hsame. rewrite !validateAccountsExistance_run. cbn [fst].
  by rewrite Hsame.
Qed.

(** X16. Creating twice under the same explicit number. After a create
    that went through with a DTO carrying a non-empty journal number, a
    second create with the same DTO, by any user, fails with
    JOURNAL_NUMBER_EXISTS. *)
Theorem create_same_number_twice
  (t : Z) (dto : IManualJournalDTO) (user user2 : ISystemUser) (w : World)
  (n : string) (j : IManualJournal) (w' : World) :
  dto_journalNumber dto = Some n →
  Js.truthyStr n = true →
  makeJournalEntries t dto user w = (Resolved j, w') →
  (makeJournalEntries t dto user2 w').1 = Rejected JOURNAL_NUMBER_EXISTS.
Proof.
  intros Hn Htruthy H.
  destruct (makeJournalEntries_rules _ _ _ _ _ _ H)
    as (n' & _ & Hbal & Hcon & Hacc & _).
  apply makeJournalEntries_resolved in H
    as (g & ops & Ht & _ & _ & -> & ->).
  assert (Hor : ∀ x, Js.orElseStr (dto_journalNumber dto) x = Some n).
  { intros x. unfold Js.orElseStr. rewrite Hn. cbn [Js.truthyOptStr].
    by rewrite Htruthy. }
  rewrite transformNewDTOToModel_run in Ht. cbv zeta in Ht.
  rewrite Hor in Ht. cbn [Js.truthyOptStr] in Ht. rewrite Htruthy in Ht.
  injection Ht as <-.
  match goal with |- (makeJournalEntries t dto user2 ?W).1 = _ =>
    set (w2 := W) end.
  assert (Htab : tenancy w2 t
    = setJournals (tenancy w t)
        (<[nextJournalId (tenancy w t) :=
             insertedRow
               {| g_id := None;
                  g_journalNumber := Some n;
                  g_date := formatYMD (dto_date dto);
                  g_currencyCode := dto_currencyCode dto;
                  g_publishedAt :=
                    if dto_publish dto then Some (now w) else None;
                  g_amount :=
                    Lodash.orZero (Lodash.sumBy (dto_entries dto) e_credit);
                  g_userId := Some (user_id user);
                  g_entries := dto_entries dto |}]>
           (manualJournals (tenancy w t)))
        (manualJournalEntries (tenancy w t)
         ++ List.map (mkEntryRow (nextJournalId (tenancy w t)))
              (dto_entries dto))
        (nextJournalId (tenancy w t) + 1)).
  { unfold w2. by rewrite sameTables_addTrace, tenancy_setTables. }
  apply (makeJournalEntries_unique t dto user2 w2 n); try done.
  - rewrite <- Hcon. apply validateContactsExistance_same_contacts.
    by rewrite Htab.
  - rewrite <- Hacc. apply validateAccountsExistance_same_accounts.
    by rewrite Htab.
  - rewrite Htab. eexists (nextJournalId (tenancy w t)), _.
    cbn [manualJournals setJournals]. split; [apply lookup_insert_eq|].
    by split.
Qed.

Lemma create_same_number_twice_witness :
  match makeJournalEntries 1 (balancedDTO (Some "J-7") false) sampleUser
          sampleWorld
  with
  | (Resolved _, w') =>
      (makeJournalEntries 1 (balancedDTO (Some "J-7") false) sampleUser
         w').1
      = Rejected JOURNAL_NUMBER_EXISTS
  | (Rejected _, _) => False
  end.
Proof.
  destruct (makeJournalEntries 1 (balancedDTO (Some "J-7") false) sampleUser
              sampleWorld) as [[j|e] w'] eqn:Hrun.
  - exact (create_same_number_twice 1 (balancedDTO (Some "J-7") false)
             sampleUser sampleUser sampleWorld "J-7" j w'
             eq_refl eq_refl Hrun).
  - vm_compute in Hrun. discriminate Hrun.
Defined.

Lemma validateAccountWithContactType_missing t entries slug ctype w :
  entries ≠ [] →
  List.find (fun a => String.eqb (acc_slug a) slug) (accounts (tenancy w t))
  = None →
  validateAccountWithContactType t entries slug ctype w
  = (Rejected TypeError, addTrace w [(t, QAccountBySlug slug)]).
Proof.
  intros Hne Hnone. unfold validateAccountWithContactType. rewrite bind_run.
  change (findAccountBySlug t slug w)
    with (Resolved
            (List.find (fun a => String.eqb (acc_slug a) slug)
               (accounts (tenancy w t))),
          addTrace w [(t, QAccountBySlug slug)]).
  rewrite Hnone. by destruct entries.
Qed.

Lemma dynamicValidate_missing_account t entries w :
  entries ≠ [] →
  List.find (fun a => String.eqb (acc_slug a) "accounts-receivable")
    (accounts (tenancy w t)) = None
  ∨ List.find (fun a => String.eqb (acc_slug a) "accounts-payable")
      (accounts (tenancy w t)) = None →
  (dynamicValidateAccountsWithContactType t entries w).1 ≠ Resolved tt.
Proof.
  intros Hne Hmissing. unfold dynamicValidateAccountsWithContactType.
  rewrite (promiseAll2_outcome t)
    by apply ReadOnly_validateAccountWithContactType.
  destruct Hmissing as [Hnone|Hnone].
  - rewrite (validateAccountWithContactType_missing _ _ _ _ _ Hne Hnone).
    cbn [fst]. by repeat case_match.
  - rewrite (validateAccountWithContactType_missing t entries
               "accounts-payable" _ _ Hne Hnone).
    cbn [fst]. by repeat case_match.
Qed.

Lemma balance_passed_nonempty dto :
  valdiateCreditDebitTotalEquals dto = Resolved tt → dto_entries dto ≠ [].
Proof.
  intros Hbal Hnil. apply balance_passed in Hbal as [Hpos _].
  rewrite Hnil in Hpos. cbn in Hpos. lia.
Qed.

(** X17. The contact-type rule needs its account. When the chart of
    accounts has no account of the slug a check looks up, the check is
    rejected with a TypeError on every non-empty list of entries (the
    account's id is read off a missing account at the first entry). So in
    a tenant that lacks the accounts-receivable or the accounts-payable
    account no create and no edit ever goes through. *)
Theorem contact_type_rule_needs_its_account (t : Z) (w : World) :
  (∀ entries slug ctype,
     entries ≠ [] →
     List.find (fun a => String.eqb (acc_slug a) slug)
       (accounts (tenancy w t)) = None →
     validateAccountWithContactType t entries slug ctype w
     = (Rejected TypeError, addTrace w [(t, QAccountBySlug slug)]))
  ∧ (List.find (fun a => String.eqb (acc_slug a) "accounts-receivable")
       (accounts (tenancy w t)) = None
     ∨ List.find (fun a => String.eqb (acc_slug a) "accounts-payable")
         (accounts (tenancy w t)) = None →
     (∀ dto user, ∃ e, (makeJournalEntries t dto user w).1 = Rejected e)
     ∧ (∀ id dto user,
          ∃ e, (editJournalEntries t id dto user w).1 = Rejected e)).
Proof.
  split.
  - intros entries slug ctype Hne Hnone.
    by apply validateAccountWithContactType_missing.
  - intros Hmissing. split.
    + intros dto user.
      destruct (makeJournalEntries t dto user w) as [[j|e] w'] eqn:H;
        [|by exists e].
      destruct (makeJournalEntries_rules _ _ _ _ _ _ H)
        as (n & _ & Hbal & _ & _ & _ & Hdyn).
      apply balance_passed_nonempty in Hbal.
      by apply (dynamicValidate_missing_account t _ w) in Hdyn.
    + intros id dto user.
      destruct (editJournalEntries t id dto user w) as [[r|e] w'] eqn:H;
        [|by exists e].
      destruct (editJournalEntries_rules _ _ _ _ _ _ _ H)
        as (Hbal & _ & _ & _ & Hdyn).
      apply balance_passed_nonempty in Hbal.
      by apply (dynamicValidate_missing_account t _ w) in Hdyn.
Qed.

Lemma contact_type_rule_needs_its_account_witness :
  validateAccountWithContactType 1 [cashLine 100] "accounts-prepaid"
    "customer" sampleWorld
  = (Rejected TypeError,
     addTrace sampleWorld [(1, QAccountBySlug "accounts-prepaid")])
  ∧ ∃ e, (makeJournalEntries 1 (balancedDTO None false) sampleUser
            bareWorld).1 = Rejected e.
Proof.
  split.
  - destruct (contact_type_rule_needs_its_account 1 sampleWorld) as [H _].
    apply H; [discriminate | reflexivity].
  - destruct (contact_type_rule_needs_its_account 1 bareWorld) as [_ H].
    destruct H as [Hcreate _]; [right; reflexivity|]. apply Hcreate.
Defined.



End ManualJournalsProofs.
(** ** Payment-receive form *)

Module PaymentReceiveProofs.
Import PaymentReceive Spec Samples.

Lemma amountPaymentLoop_shape (entries : list Entry) :
  ∀ total,
    Forall2 (fun e out =>
               ∃ paid, out = withPaymentAmount e paid
                       ∧ paid ≤ due_amount e ∧ paid ≤ total)
      entries (amountPaymentLoop total entries).
Proof.
  induction entries as [|item rest IH]; intros total; cbn; constructor.
  - exists (Z.min (due_amount item) total). split; [done|]. lia.
  - eapply Forall2_impl; [apply IH|].
    intros e out (paid & -> & Hdue & Htotal). exists paid.
    split; [done|]. lia.
Qed.

(** X19. Whatever the amount and the due amounts (negative ones
    included), [amountPaymentEntries] keeps the entries in number and
    order, changes only their payment_amount, and never assigns an entry
    more than its due amount nor more than the amount to distribute. *)
Theorem amountPaymentEntries_never_overpays (a : Z) (entries : list Entry) :
  length (amountPaymentEntries a entries) = length entries
  ∧ Forall2 (fun e out =>
               ∃ paid, out = withPaymentAmount e paid
                       ∧ paid ≤ due_amount e ∧ paid ≤ a)
      entries (amountPaymentEntries a entries).
Proof.
  pose proof (amountPaymentLoop_shape entries a) as H.
  split; [|exact H]. symmetry. by eapply Forall2_length.
Qed.

(** X20. A negative amount is not clamped: over entries with non-negative
    due amounts every entry is assigned the negative amount itself. *)
Theorem amountPaymentEntries_negative_amount (a : Z) (entries : list Entry) :
  a < 0 →
  Forall (fun e => 0 ≤ due_amount e) entries →
  amountPaymentEntries a entries
  = List.map (fun e => withPaymentAmount e a) entries.
Proof.
  intros Ha Hdue. unfold amountPaymentEntries.
  induction Hdue as [|item rest Hitem _ IH]; [done|].
  cbn [amountPaymentLoop List.map].
  rewrite (Z.min_r (due_amount item) a) by lia.
  rewrite (Z.max_r a 0) by lia. rewrite Z.sub_0_r. by rewrite IH.
Qed.

Lemma amountPaymentEntries_negative_amount_witness :
  List.map payment_amount
    (amountPaymentEntries (-5) [sampleInvoice 1 50; sampleInvoice 2 30])
  = [Some (-5); Some (-5)].
Proof.
  rewrite (amountPaymentEntries_negative_amount (-5)
             [sampleInvoice 1 50; sampleInvoice 2 30]).
  - reflexivity.
  - lia.
  - repeat constructor; cbn; lia.
Defined.

(** X22. Distributing the amount 0 over entries with non-negative due
    amounts is clearing them: [amountPaymentEntries 0] and
    [clearAllPaymentEntries] agree. *)
Theorem amountPaymentEntries_zero_clears (entries : list Entry) :
  Forall (fun e => 0 ≤ due_amount e) entries →
  amountPaymentEntries 0 entries = clearAllPaymentEntries entries.
Proof.
  intros Hdue. unfold amountPaymentEntries, clearAllPaymentEntries.
  induction Hdue as [|item rest Hitem _ IH]; [done|].
  cbn [amountPaymentLoop List.map].
  rewrite (Z.min_r (due_amount item) 0) by lia.
  change (0 - Z.max 0 0) with 0. by rewrite IH.
Qed.

Lemma amountPaymentEntries_zero_clears_witness :
  amountPaymentEntries 0 [sampleInvoice 1 50; sampleInvoice 2 30]
  = clearAllPaymentEntries [sampleInvoice 1 50; sampleInvoice 2 30].
Proof.
  apply amountPaymentEntries_zero_clears.
  repeat constructor; cbn; lia.
Defined.

Lemma invoicesToEntriesFrom_spec (invoices : list Invoice) :
  ∀ start,
    length (invoicesToEntriesFrom start invoices) = length invoices
    ∧ List.map due_amount (invoicesToEntriesFrom start invoices)
      = List.map inv_due_amount invoices
    ∧ List.map index (invoicesToEntriesFrom start invoices)
      = List.map (fun i => start + Z.of_nat i + 1)
          (List.seq 0 (length invoices))
    ∧ Forall (fun e => payment_amount e = None)
        (invoicesToEntriesFrom start invoices).
Proof.
  induction invoices as [|invoice rest IH]; intros start.
  - cbn. repeat split; constructor.
  - destruct (IH (start + 1)) as (Hlen & Hdue & Hidx & Hblank).
    cbn [invoicesToEntriesFrom length List.map List.seq].
    rewrite Hlen, Hdue, Hidx. repeat split.
    + cbn. f_equal; [lia|]. rewrite <- List.seq_shift, List.map_map.
      apply List.map_ext. intros i. lia.
    + constructor; [done|exact Hblank].
Qed.

(** X24. [transformInvoicesNewPageEntries] builds one entry per invoice,
    in order, numbered 1, 2, ... by position, carrying the invoice's due
    amount and a blank payment amount; [transformEntriesToEditForm] of an
    undefined list is the empty list. *)
Theorem invoices_to_entries (invoices : list Invoice) :
  length (transformInvoicesNewPageEntries invoices) = length invoices
  ∧ List.map index (transformInvoicesNewPageEntries invoices)
    = List.map (fun i => Z.of_nat i + 1) (List.seq 0 (length invoices))
  ∧ List.map due_amount (transformInvoicesNewPageEntries invoices)
    = List.map inv_due_amount invoices
  ∧ Forall (fun e => payment_amount e = None)
      (transformInvoicesNewPageEntries invoices)
  ∧ transformEntriesToEditForm None = []
  ∧ transformEntriesToEditForm (Some invoices)
    = transformInvoicesNewPageEntries invoices.
Proof.
  unfold transformInvoicesNewPageEntries.
  destruct (invoicesToEntriesFrom_spec invoices 0)
    as (Hlen & Hdue & Hidx & Hblank).
  repeat split; done.
Qed.

End PaymentReceiveProofs.

(** ** Doubles *)

Module FloatFacts.
Import Floats.
Import JsNumber FloatSpec.

(** *** The IEEE 754 specification of the operations

    [SpecFloat] defines the value of every operation on [spec_float], and
    the library relates each primitive operation to it ([add_spec],
    [sub_spec], [ltb_spec], ...). The facts below are about sums and
    differences of non-negative floats: their sign, and that no [NaN]
    arises. *)

Section Spec.
Variables prec emax : Z.

Lemma iter_pos_shr_1_nonneg (p : positive) :
  ∀ mrs, 0 ≤ shr_m mrs → 0 ≤ shr_m (SpecFloat.iter_pos shr_1 p mrs).
Proof.
  assert (Hstep : ∀ mrs, 0 ≤ shr_m mrs → 0 ≤ shr_m (shr_1 mrs)).
  { intros [m r s] Hm. cbn in Hm. destruct m as [|[q|q|]|q]; cbn; lia. }
  induction p as [p IH|p IH|]; intros mrs Hm; cbn; auto.
Qed.

Lemma shr_fexp_nonneg m e l :
  0 ≤ m → 0 ≤ shr_m (shr_fexp prec emax m e l).1.
Proof.
  intros Hm. unfold shr_fexp, shr.
  assert (H0 : 0 ≤ shr_m (shr_record_of_loc m l)).
  { by destruct l as [|[]]. }
  destruct (fexp prec emax (Zdigits2 m + e) - e); cbn [fst]; try done.
  by apply iter_pos_shr_1_nonneg.
Qed.

Lemma round_nearest_even_nonneg m l :
  0 ≤ m → 0 ≤ round_nearest_even m l.
Proof.
  intros Hm. destruct l as [|[]]; cbn; try lia.
  destruct (Z.even m); lia.
Qed.

Lemma binary_round_aux_shape sx mx ex lx :
  0 ≤ mx →
  match binary_round_aux prec emax sx mx ex lx with
  | S754_zero s | S754_finite s _ _ | S754_infinity s => s = sx
  | S754_nan => False
  end.
Proof.
  intros Hm. unfold binary_round_aux.
  pose proof (shr_fexp_nonneg mx ex lx Hm) as H1.
  destruct (shr_fexp prec emax mx ex lx) as [mrs' e'].
  cbn [fst] in H1.
  pose proof (shr_fexp_nonneg
                (round_nearest_even (shr_m mrs') (loc_of_shr_record mrs'))
                e' loc_Exact
                (round_nearest_even_nonneg _ _ H1)) as H2.
  destruct (shr_fexp prec emax _ e' loc_Exact) as [mrs'' e''].
  cbn [fst] in H2.
  destruct (shr_m mrs'') as [|m|m]; [done| |lia].
  by destruct (e'' <=? emax - prec).
Qed.

Lemma binary_round_shape sx mx ex :
  match binary_round prec emax sx mx ex with
  | S754_zero s | S754_finite s _ _ | S754_infinity s => s = sx
  | S754_nan => False
  end.
Proof.
  unfold binary_round.
  destruct (shl_align mx ex _) as [mz ez].
  by apply binary_round_aux_shape.
Qed.

Lemma binary_normalize_signless m e :
  0 ≤ m → signless (binary_normalize prec emax m e false).
Proof.
  intros Hm. destruct m as [|m|m]; [done| |lia]. cbn.
  pose proof (binary_round_shape false m e) as H.
  destruct (binary_round prec emax false m e) as [[]|[]| |[] ? ?];
    done.
Qed.




(** *** Comparison *)

Lemma compare_cont_Eq p q :
  PosDef.Pos.compare_cont Eq p q = (p ?= q)%positive.
Proof. reflexivity. Qed.

Lemma compare_cont_antisym p q :
  PosDef.Pos.compare_cont Eq q p
  = CompOpp (PosDef.Pos.compare_cont Eq p q).
Proof. exact (Pos.compare_antisym p q). Qed.

Lemma SFcompare_antisym x y :
  SFcompare y x = CompOpp <$> SFcompare x y.
Proof.
  destruct x as [[]|[]| |[] mx ex], y as [[]|[]| |[] my ey]; try done;
    cbn; f_equal;
    rewrite (compare_cont_antisym mx my), (Z.compare_antisym ex ey);
    by destruct (ex ?= ey), (PosDef.Pos.compare_cont Eq mx my).
Qed.

Lemma SFcompare_refl x : x ≠ S754_nan → SFcompare x x = Some Eq.
Proof.
  destruct x as [[]|[]| |[] mx ex]; try done; intros _; cbn;
    by rewrite Z.compare_refl, compare_cont_Eq, Pos.compare_refl.
Qed.

(** *** Subtracting a smaller float *)

Lemma digits2_pos_bounds (m : positive) :
  2 ^ (Z.pos (digits2_pos m) - 1) ≤ Z.pos m < 2 ^ Z.pos (digits2_pos m).
Proof.
  induction m as [m IH|m IH|]; cbn [digits2_pos]; [| |cbn; lia].
  - rewrite Pos2Z.inj_succ.
    replace (Z.succ (Z.pos (digits2_pos m)) - 1)
      with (Z.succ (Z.pos (digits2_pos m) - 1)) by lia.
    rewrite !Z.pow_succ_r by lia. lia.
  - rewrite Pos2Z.inj_succ.
    replace (Z.succ (Z.pos (digits2_pos m)) - 1)
      with (Z.succ (Z.pos (digits2_pos m) - 1)) by lia.
    rewrite !Z.pow_succ_r by lia. lia.
Qed.

Lemma shl_align_same m e : shl_align m e e = (m, e).
Proof. unfold shl_align. by rewrite Z.sub_diag. Qed.

Lemma shl_align_lower m e e' :
  e' < e → Z.pos (shl_align m e e').1 = Z.pos m * 2 ^ (e - e').
Proof.
  intros Hlt. unfold shl_align.
  destruct (e' - e) as [|d|d] eqn:Hd; try lia. cbn [fst].
  change (Pos.iter xO m d) with (shift_pos d m).
  rewrite shift_pos_correct, Z.pow_pos_fold.
  replace (e - e') with (Z.pos d) by lia. lia.
Qed.

Hypothesis prec_pos : 0 < prec.

Lemma canonical_exponent m e :
  canonical_mantissa prec emax m e = true →
  SpecFloat.emin prec emax ≤ e ∧ Z.pos (digits2_pos m) ≤ prec
  ∧ (SpecFloat.emin prec emax < e → Z.pos (digits2_pos m) = prec).
Proof.
  unfold canonical_mantissa, fexp. intros H%Z.eqb_eq. lia.
Qed.

Lemma aligned_mantissas_ordered m1 e1 m2 e2 :
  bounded prec emax m1 e1 = true →
  bounded prec emax m2 e2 = true →
  SFcompare (S754_finite false m1 e1) (S754_finite false m2 e2) ≠ Some Lt →
  Z.pos (shl_align m2 e2 (Z.min e1 e2)).1
  ≤ Z.pos (shl_align m1 e1 (Z.min e1 e2)).1.
Proof.
  unfold bounded. intros [H1 _]%andb_true_iff [H2 _]%andb_true_iff Hcmp.
  apply canonical_exponent in H1 as (Hemin1 & Hd1 & Hfull1).
  apply canonical_exponent in H2 as (Hemin2 & Hd2 & _).
  cbn in Hcmp.
  destruct (Z.compare_spec e1 e2) as [->|Hlt|Hgt]; [|done|].
  - rewrite Z.min_id, !shl_align_same. cbn [fst].
    rewrite compare_cont_Eq in Hcmp.
    destruct (Pos.compare_spec m1 m2); try done; lia.
  - rewrite Z.min_r by lia. rewrite shl_align_same. cbn [fst].
    rewrite shl_align_lower by lia.
    pose proof (digits2_pos_bounds m1) as [Hlow _].
    pose proof (digits2_pos_bounds m2) as [_ Hup].
    rewrite Hfull1 in Hlow by lia.
    assert (Hpow : 2 ^ Z.pos (digits2_pos m2) ≤ 2 ^ prec)
      by (apply Z.pow_le_mono_r; lia).
    assert (Hstep : 2 ^ 1 ≤ 2 ^ (e1 - e2))
      by (apply Z.pow_le_mono_r; lia).
    assert (Hsucc : 2 ^ prec = 2 * 2 ^ (prec - 1)).
    { rewrite <- Z.pow_succ_r by lia. f_equal. lia. }
    rewrite Hsucc in Hpow.
    change (2 ^ 1) with 2 in Hstep.
    assert (0 < 2 ^ (prec - 1)) by (apply Z.pow_pos_nonneg; lia).
    nia.
Qed.

(** [x - y] for finite or infinite [x >= y >= 0] is again [>= 0]. *)
Lemma SFsub_signless x y :
  SpecFloat.valid_binary prec emax x = true →
  SpecFloat.valid_binary prec emax y = true →
  signless x → signless y → y ≠ S754_infinity false →
  SFcompare x y ≠ Some Lt →
  signless (SFsub prec emax x y).
Proof.
  intros Hvx Hvy Hx Hy Hfin Hcmp.
  destruct x as [[]|[]| |[] mx ex], y as [[]|[]| |[] my ey]; try done.
  cbn [SFsub]. cbv zeta. apply binary_normalize_signless.
  cbn [cond_Zopp].
  pose proof (aligned_mantissas_ordered mx ex my ey Hvx Hvy Hcmp).
  lia.
Qed.

End Spec.

(** *** The primitive doubles *)

Local Open Scope float_scope.

Local Abbreviation P := Prim2SF.

Lemma is_nan_signless x : signlessF x → is_nan x = false.
Proof.
  unfold signlessF, is_nan. intros Hx. rewrite eqb_spec. unfold SFeqb.
  rewrite SFcompare_refl; [done|]. by destruct (P x).
Qed.

Lemma not_neg_zero_signless x : signlessF x → Leibniz.eqb x neg_zero = false.
Proof.
  intros Hx. destruct (Leibniz.eqb x neg_zero) eqn:E; [|done].
  apply Leibniz.eqb_spec in E. subst x. by vm_compute in Hx.
Qed.

Lemma isNonNegative_signless x : isNonNegative x = true → signlessF x.
Proof.
  unfold isNonNegative, signlessF. rewrite classify_spec.
  unfold SF64classify, SFclassify.
  destruct (P x) as [[]|[]| |[] m e]; try done.
  by destruct (Z.pos (digits2_pos m) =? prec)%Z.
Qed.

Lemma isFiniteNonNegative_signless x :
  isFiniteNonNegative x = true →
  signlessF x ∧ P x ≠ S754_infinity false.
Proof.
  unfold isFiniteNonNegative, signlessF. rewrite classify_spec.
  unfold SF64classify, SFclassify.
  destruct (P x) as [[]|[]| |[] m e]; try done.
  by destruct (Z.pos (digits2_pos m) =? prec)%Z.
Qed.






Lemma ltb_compare x y : (x <? y) = true → SFcompare (P x) (P y) = Some Lt.
Proof.
  rewrite ltb_spec. unfold SFltb.
  by destruct (SFcompare (P x) (P y)) as [[]|].
Qed.

Lemma leb_of_compare x y :
  SFcompare (P x) (P y) = Some Lt ∨ SFcompare (P x) (P y) = Some Eq →
  (x <=? y) = true.
Proof. rewrite leb_spec. unfold SFleb. by intros [-> | ->]. Qed.

Lemma leb_refl_signless x : signlessF x → (x <=? x) = true.
Proof.
  intros Hx. apply leb_of_compare. right. apply SFcompare_refl.
  unfold signlessF in Hx. by destruct (P x).
Qed.

Lemma ge_zero_signless x : signlessF x → (0 <=? x) = true.
Proof.
  unfold signlessF. rewrite leb_spec. unfold SFleb.
  change (P 0) with (S754_zero false).
  by destruct (P x) as [[]|[]| |[] m e].
Qed.

Lemma compare_signless x y :
  signlessF x → signlessF y → is_Some (SFcompare (P x) (P y)).
Proof.
  unfold signlessF.
  destruct (P x) as [[]|[]| |[] mx ex], (P y) as [[]|[]| |[] my ey];
    try done; cbn; eauto.
Qed.

(** [x - y] for [x >= y >= 0], [y] finite. *)
Lemma sub_signless x y :
  signlessF x → signlessF y → P y ≠ S754_infinity false →
  SFcompare (P x) (P y) ≠ Some Lt →
  signlessF (x - y).
Proof.
  unfold signlessF. intros Hx Hy Hfin Hcmp. rewrite sub_spec.
  apply SFsub_signless; try done; apply Prim2SF_valid.
Qed.

(** *** [Math.min] and [Math.max] on non-negative doubles *)

Lemma min_signless due total :
  signlessF due → signlessF total →
  JsNumber.min due total = (if due <? total then due else total).
Proof.
  intros Hd Ht. unfold JsNumber.min.
  rewrite (is_nan_signless _ Hd), (is_nan_signless _ Ht). cbn [orb].
  destruct (due <? total) eqn:E1; [done|].
  destruct (total <? due) eqn:E2; [done|].
  by rewrite (not_neg_zero_signless _ Hd).
Qed.

Lemma max_zero_signless d : signlessF d → JsNumber.max d 0 = d.
Proof.
  intros Hd. unfold JsNumber.max.
  rewrite (is_nan_signless _ Hd). change (is_nan 0) with false. cbn [orb].
  assert (Hlt : (d <? 0) = false).
  { rewrite ltb_spec. unfold SFltb, signlessF in *.
    change (P 0) with (S754_zero false).
    by destruct (P d) as [[]|[]| |[] m e]. }
  rewrite Hlt. destruct (0 <? d); [done|].
  by rewrite (not_neg_zero_signless _ Hd).
Qed.

Lemma min_bounds due total :
  signlessF due → P due ≠ S754_infinity false → signlessF total →
  let paid := JsNumber.min due total in
  signlessF paid ∧ P paid ≠ S754_infinity false
  ∧ SFcompare (P total) (P paid) ≠ Some Lt
  ∧ (0 <=? paid) = true ∧ (paid <=? due) = true ∧ (paid <=? total) = true.
Proof.
  intros Hd Hfin Ht paid. unfold paid. rewrite min_signless by done.
  destruct (due <? total) eqn:E.
  - apply ltb_compare in E as Hc.
    repeat split; try done.
    + rewrite SFcompare_antisym, Hc. done.
    + by apply ge_zero_signless.
    + by apply leb_refl_signless.
    + apply leb_of_compare. by left.
  - assert (Hc : SFcompare (P total) (P due) = Some Lt
                 ∨ SFcompare (P total) (P due) = Some Eq).
    { destruct (compare_signless _ _ Hd Ht) as [c Hc].
      rewrite ltb_spec in E. unfold SFltb in E. rewrite Hc in E.
      rewrite SFcompare_antisym, Hc. destruct c; cbn; auto. done. }
    assert (Htfin : P total ≠ S754_infinity false).
    { intros Hinf. rewrite Hinf in Hc. unfold signlessF in Hd.
      destruct (P due) as [[]|[]| |[] m e]; cbn in Hc; try done;
        destruct Hc; done. }
    repeat split; try done.
    + rewrite SFcompare_refl; [done|]. unfold signlessF in Ht.
      by destruct (P total).
    + by apply ge_zero_signless.
    + by apply leb_of_compare.
    + by apply leb_refl_signless.
Qed.



Lemma sub_diag_signless x :
  signlessF x → P x ≠ S754_infinity false → x - x = 0.
Proof.
  unfold signlessF. intros Hx Hfin. apply Prim2SF_inj. rewrite sub_spec.
  change (P 0) with (S754_zero false).
  destruct (P x) as [[]|[]| |[] m e]; try done.
  unfold SF64sub. cbn [SFsub]. cbv zeta.
  rewrite Z.min_id, shl_align_same. cbn [fst cond_Zopp].
  by rewrite Z.sub_diag.
Qed.

End FloatFacts.

(** ** The balance rule on doubles *)

Module ManualJournalsFloatProofs.
Import Floats.
Import ManualJournals ManualJournalsFloat FloatSpec FloatFacts.
Local Open Scope float_scope.






End ManualJournalsFloatProofs.

(** ** The distribution of a payment on doubles *)

Module PaymentReceiveFloatProofs.
Import Floats.
Import PaymentReceiveFloat FloatSpec FloatFacts FloatSamples.
Local Open Scope float_scope.
#[local] Set Warnings "-inexact-float".

Lemma payment_step due total :
  JsNumber.isFiniteNonNegative due = true → signlessF total →
  let paid := JsNumber.min due total in
  JsNumber.max paid 0 = paid
  ∧ signlessF (total - paid)
  ∧ (0 <=? paid) = true ∧ (paid <=? due) = true.
Proof.
  intros [Hd Hfin]%isFiniteNonNegative_signless Ht paid.
  destruct (min_bounds due total Hd Hfin Ht)
    as (Hp & Hpfin & Hcmp & H0 & Hdue & _).
  fold paid in Hp, Hpfin, Hcmp, H0, Hdue.
  split; [by apply max_zero_signless|].
  split; [by apply sub_signless|]. done.
Qed.

Lemma amountPaymentLoop_greedy (entries : list Entry) :
  Forall finiteDue entries →
  ∀ total, signlessF total →
    amountPaymentLoop total entries
    = zip_with withPaymentAmount entries
        (greedyPayments total (List.map due_amount entries))
    ∧ Forall2 (fun e paid => (0 <=? paid) = true
                             ∧ (paid <=? due_amount e) = true)
        entries (greedyPayments total (List.map due_amount entries)).
Proof.
  induction 1 as [|item rest Hitem _ IH]; intros total Htotal.
  { split; [done|constructor]. }
  cbn [amountPaymentLoop List.map greedyPayments zip_with].
  destruct (payment_step _ total Hitem Htotal) as (-> & Hrest & Hbounds).
  destruct (IH _ Hrest) as [-> Hall]. split; [done|]. by constructor.
Qed.

Lemma greedyPayments_length dues :
  ∀ total, length (greedyPayments total dues) = length dues.
Proof.
  induction dues as [|d ds IH]; intros total; cbn; [done|]. by rewrite IH.
Qed.

Lemma greedyPayments_exhausted (entries : list Entry) :
  Forall finiteDue entries →
  Forall (fun paid => paid = 0)
    (greedyPayments 0 (List.map due_amount entries)).
Proof.
  induction 1 as [|item rest Hitem _ IH]; [constructor|].
  cbn [List.map greedyPayments].
  apply isFiniteNonNegative_signless in Hitem as [Hd _].
  assert (Hmin : JsNumber.min (due_amount item) 0 = 0).
  { rewrite min_signless; [|done|done].
    destruct (due_amount item <? 0) eqn:E; [|done].
    rewrite ltb_spec in E. unfold SFltb, signlessF in *.
    change (Prim2SF 0) with (S754_zero false) in E.
    by destruct (Prim2SF (due_amount item)) as [[]|[]| |[] m e]. }
  rewrite Hmin. constructor; [done|].
  by change (0 - 0) with 0.
Qed.

Lemma greedyPayments_stop (entries : list Entry) :
  Forall finiteDue entries →
  ∀ total, signlessF total →
  ∀ i e paid,
    entries !! i = Some e →
    greedyPayments total (List.map due_amount entries) !! i = Some paid →
    (paid <? due_amount e) = true →
    ∀ j later, (i < j)%nat →
      greedyPayments total (List.map due_amount entries) !! j = Some later →
      later = 0.
Proof.
  induction 1 as [|item rest Hitem Hrest IH]; intros total Htotal i e paid;
    [done|].
  cbn [List.map greedyPayments].
  destruct (payment_step _ total Hitem Htotal) as (_ & Hnext & _).
  destruct i as [|i]; cbn.
  - intros [= ->] [= <-] Hless j later Hj Hlater.
    destruct j as [|j]; [lia|]. cbn in Hlater.
    apply isFiniteNonNegative_signless in Hitem as [Hd Hfin].
    rewrite min_signless in Hless, Hlater by done.
    destruct (due_amount e <? total) eqn:E.
    { rewrite ltb_spec in Hless. unfold SFltb in Hless.
      rewrite SFcompare_refl in Hless; [done|].
      unfold signlessF in Hd. by destruct (Prim2SF (due_amount e)). }
    assert (Htfin : Prim2SF total ≠ S754_infinity false).
    { intros Hinf. rewrite ltb_spec in Hless. unfold SFltb in Hless.
      rewrite Hinf in Hless. unfold signlessF in Hd.
      by destruct (Prim2SF (due_amount e)) as [[]|[]| |[] m x]. }
    rewrite (sub_diag_signless _ Htotal Htfin) in Hlater.
    pose proof (greedyPayments_exhausted rest Hrest) as Hzero.
    rewrite Forall_lookup in Hzero. by eapply Hzero.
  - intros He Hpaid Hless j later Hj Hlater.
    destruct j as [|j]; [lia|]. cbn in Hlater.
    eapply (IH _ Hnext i e paid); try done. lia.
Qed.

(** The payments of C10 do not add up to min(amount, sum of the due
    amounts): distributing 0.6 over dues of 0.1, 0.2 and 0.3 pays each in
    full, and the three payments add up to 0.6000000000000001; and
    distributing 2^53 + 2 over dues of 1 and 2^53 + 2 pays 1 and 2^53,
    the remaining amount after the first payment being rounded. *)
Lemma amountPaymentEntries_sum_is_rounded :
  (let entries := [dueEntry 1 0.1; dueEntry 2 0.2; dueEntry 3 0.3] in
   let paid := amountPaymentEntries 0.6 entries in
   JsNumber.isNonNegative 0.6 = true
   ∧ Forall finiteDue entries
   ∧ List.map payment_amount paid = [Some 0.1; Some 0.2; Some 0.3]
   ∧ sumFloats [0.1; 0.2; 0.3] = 0.6000000000000001
   ∧ JsNumber.min 0.6 (sumFloats (List.map due_amount entries)) = 0.6
   ∧ (sumFloats [0.1; 0.2; 0.3]
      =? JsNumber.min 0.6 (sumFloats (List.map due_amount entries)))
     = false)
  ∧ (let entries := [dueEntry 1 1; dueEntry 2 9007199254740994] in
     let paid := amountPaymentEntries 9007199254740994 entries in
     JsNumber.isNonNegative 9007199254740994 = true
     ∧ Forall finiteDue entries
     ∧ List.map payment_amount paid = [Some 1; Some 9007199254740992]
     ∧ sumFloats [1; 9007199254740992] = 9007199254740992
     ∧ JsNumber.min 9007199254740994
         (sumFloats (List.map due_amount entries))
       = 9007199254740994
     ∧ (sumFloats [1; 9007199254740992]
        =? JsNumber.min 9007199254740994
             (sumFloats (List.map due_amount entries)))
       = false).
Proof.
  split; cbv zeta; repeat split; try reflexivity;
    repeat constructor.
Qed.

(** C10 (as amended). For a non-negative amount and due amounts that are
    finite and non-negative, [amountPaymentEntries] gives each entry, in
    list order, the payment min(due_amount, remaining), where remaining
    starts at the amount and decreases by each payment, the difference
    being the one of doubles; every payment lies between 0 and the due
    amount; the entries are kept in number and their other fields as they
    were; and once an entry receives less than its due amount every later
    entry receives 0. *)
Theorem amountPaymentEntries_serves_in_order
  (a : float) (entries : list Entry) :
  JsNumber.isNonNegative a = true →
  Forall finiteDue entries →
  let payments := greedyPayments a (List.map due_amount entries) in
  let result := amountPaymentEntries a entries in
  List.map payment_amount result = List.map Some payments
  ∧ length result = length entries
  ∧ Forall2 otherFieldsKept entries result
  ∧ Forall2 (fun e paid => (0 <=? paid) = true
                           ∧ (paid <=? due_amount e) = true)
      entries payments
  ∧ (∀ i e paid,
       entries !! i = Some e → payments !! i = Some paid →
       (paid <? due_amount e) = true →
       ∀ j later, (i < j)%nat → payments !! j = Some later → later = 0).
Proof.
  intros Ha%isNonNegative_signless Hdue payments result.
  destruct (amountPaymentLoop_greedy entries Hdue a Ha) as [Hloop Hbounds].
  pose proof (greedyPayments_stop entries Hdue a Ha) as Hstop.
  fold payments in Hloop, Hbounds, Hstop.
  assert (Hlen : length payments = length entries).
  { unfold payments. by rewrite greedyPayments_length, length_map. }
  assert (Hresult : result = zip_with withPaymentAmount entries payments)
    by exact Hloop.
  clearbody payments result. subst result.
  split; [|split; [|split; [|split]]]; try done.
  - clear -Hlen. revert payments Hlen.
    induction entries as [|e es IH]; intros [|p ps] Hlen; try done.
    cbn. f_equal. apply IH. by injection Hlen.
  - rewrite length_zip_with. lia.
  - clear -Hlen. revert payments Hlen.
    induction entries as [|e es IH]; intros [|p ps] Hlen; try done;
      constructor.
    + by repeat split.
    + apply IH. by injection Hlen.
Qed.

Lemma amountPaymentEntries_serves_in_order_witness :
  List.map payment_amount
    (amountPaymentEntries 70
       [dueEntry 1 50; dueEntry 2 30; dueEntry 3 10])
  = [Some 50; Some 20; Some 0].
Proof.
  destruct (amountPaymentEntries_serves_in_order 70
              [dueEntry 1 50; dueEntry 2 30; dueEntry 3 10])
    as (Hmap & _).
  - reflexivity.
  - repeat constructor.
  - exact Hmap.
Defined.

End PaymentReceiveFloatProofs.
